(** * torchy_baselines/common/base_class.py : the off-policy rollout collector

    A shallow embedding of [BaseRLModel.scale_action],
    [BaseRLModel.unscale_action], [BaseRLModel._update_current_progress],
    [BaseRLModel.safe_mean], [BaseRLModel.check_env], the checks and the
    attribute updates of [BaseRLModel.load],
    [BaseRLModel._update_info_buffer], [BaseRLModel.excluded_save_params],
    the attribute selection of [BaseRLModel.save] and
    [OffPolicyRLModel.collect_rollouts].

    Conventions of the embedding.
    - Python floats and numpy/torch float arrays are rationals [Q] and
      lists of rationals: arithmetic is exact, rounding is not modelled.
      The section [Rounded] is the exception: there every operation of
      [unscale_action] and [_update_current_progress] is rounded, by a
      rounding that is a parameter.
    - Python integers are [Z].
    - [collect_rollouts] asserts [env.num_envs == 1]; the leading batch
      axis of length one of observations, actions, rewards and dones is
      elided, so an action is the vector of its components, a reward is a
      scalar and [done] is a boolean.
    - The environment, the policy, the callback, the noise process, the
      normalisation wrapper, the replay buffer, the value network and the
      logger are external.  Every call to one of them is recorded, with the
      answer it gave, in a chronological trace; the answer of a call is an
      arbitrary function of the trace so far.  External code is assumed not
      to write the model's own fields or the locals of [collect_rollouts].
    - The two [while] loops need not terminate (the environment decides),
      so they are defined by recursion on a fuel; the lemmas of the section
      [Fuel] show that a call that ends is not changed by more fuel.
    - Arrays combined elementwise have one shape (broadcasting and shape
      errors are not modelled); a division by zero, which numpy answers
      with [inf] or [nan], is [0] here.
    - [self.__dict__], the saved [data] and [kwargs] are finite maps from
      attribute names to values of any one type; a list object passed in
      and mutated is answered back as the call leaves it.  Reading and
      writing the archive is external, and so is the constructor of the
      model class, which is assumed to answer.
    - The caller passes an observation ([obs] is not [None]) and has run
      [_setup_learn] (the two deques of episode statistics exist).  The
      local [done] is only read after a step has bound it; the locals
      [obs_] and [new_obs_] may be read unbound, which raises. *)

From Stdlib Require Import ZArith QArith Qminmax Qround Bool List Lia Ascii String Lqa Floats.
From stdpp Require Import base list strings gmap.
Import ListNotations.

Local Open Scope Z_scope.

(** ** Arrays of floats *)

Definition ndarray := list Q.

(** [np.clip(x, -1, 1)], one component. *)
Definition clip1 (x : Q) : Q := Qmin (Qmax x (-1)) 1.

(** [np.clip(a, -1, 1)]. *)
Definition np_clip (a : ndarray) : ndarray := map clip1 a.

(** [a + b], elementwise on two arrays of one shape. *)
Definition np_add (a b : ndarray) : ndarray := zip_with Qplus a b.

(** [a - b], elementwise on two arrays of one shape. *)
Definition np_sub (a b : ndarray) : ndarray := zip_with Qminus a b.

(** [np.mean(arr)] (of a non-empty list). *)
Definition np_mean (arr : list Q) : Q :=
  (fold_right Qplus 0 arr / inject_Z (Z.of_nat (length arr)))%Q.

(** A Python boolean read as a float ([True] is [1.0]). *)
Definition float_of_bool (b : bool) : Q := if b then 1%Q else 0%Q.

(** ** Action transform *)

(** [gym.spaces.Box]: the bounds of the action space. *)
Record Box := { low : ndarray; high : ndarray }.

Definition scale1 (lo hi a : Q) : Q := (2 * ((a - lo) / (hi - lo)) - 1)%Q.

Definition unscale1 (lo hi n : Q) : Q := (lo + (0.5 * (n + 1) * (hi - lo)))%Q.

(** Apply [f lo hi] to every component of [a], [lo] and [hi] running over
    the bounds. *)
Fixpoint over_bounds (f : Q -> Q -> Q -> Q) (lo hi a : ndarray) : ndarray :=
  match lo, hi, a with
  | l :: lo', h :: hi', x :: a' => f l h x :: over_bounds f lo' hi' a'
  | _, _, _ => []
  end.

(** [scale_action]: [2.0 * ((action - low) / (high - low)) - 1.0]. *)
Definition scale_action (action_space : Box) (action : ndarray) : ndarray :=
  over_bounds scale1 (low action_space) (high action_space) action.

(** [unscale_action]: [low + (0.5 * (scaled_action + 1.0) * (high - low))]. *)
Definition unscale_action (action_space : Box) (scaled_action : ndarray) : ndarray :=
  over_bounds unscale1 (low action_space) (high action_space) scaled_action.

(** Elementwise [lo <= a <= hi]. *)
Fixpoint within (lo hi a : ndarray) : Prop :=
  match lo, hi, a with
  | l :: lo', h :: hi', x :: a' => (l <= x)%Q /\ (x <= h)%Q /\ within lo' hi' a'
  | [], [], [] => True
  | _, _, _ => False
  end.

(** Elementwise [lo < hi]. *)
Definition proper_bounds (sp : Box) : Prop := Forall2 Qlt (low sp) (high sp).

(** ** External collaborators and the trace of calls *)

(** Monitor's episode summary, [info['episode']]: reward and length. *)
Record EpInfo := { ep_r : Q; ep_l : Z }.

(** The keys of a step's [info] dict that the collector reads with
    [info.get]. *)
Record Info := { info_episode : option EpInfo; info_is_success : option bool }.

(** What [env.step] answers: [new_obs, reward, done, infos]. *)
Record StepResult := {
  step_obs : ndarray;
  step_reward : Q;
  step_done : bool;
  step_infos : list Info
}.

(** What [callback()] answers: [None] or a boolean. *)
Inductive CallbackReturn := RetNone | RetBool (b : bool).

(** [r is False]. *)
Definition is_False (r : CallbackReturn) : bool :=
  match r with RetBool false => true | _ => false end.

(** One call to an external collaborator, with its arguments and answer. *)
Inductive Event :=
| EvOnRolloutStart                                   (* callback.on_rollout_start() *)
| EvCallback (ret : CallbackReturn)                  (* callback() *)
| EvOnRolloutEnd                                     (* callback.on_rollout_end() *)
| EvResetNoise                                       (* self.actor.reset_noise() *)
| EvSample (a : ndarray)                             (* self.action_space.sample() *)
| EvPredict (o : ndarray) (deterministic : bool) (a : ndarray)  (* self.predict(obs, deterministic=..) *)
| EvActionNoise (n : ndarray)                        (* action_noise() *)
| EvActionNoiseReset                                 (* action_noise.reset() *)
| EvEnvStep (a : ndarray) (res : StepResult)         (* env.step(a) *)
| EvGetOriginalObs (o : ndarray)                     (* self._vec_normalize_env.get_original_obs() *)
| EvGetOriginalReward (r : Q)                        (* self._vec_normalize_env.get_original_reward() *)
| EvReplayAdd (obs_ new_obs_ action : ndarray) (reward_ : Q) (d : bool)  (* replay_buffer.add(..) *)
| EvVfNet (o : ndarray) (v : Q)                      (* self.vf_net(obs_tensor)[0] *)
| EvGetStd                                           (* self.actor.get_std() *)
| EvLogKv (key : string) (value : option Q)          (* logger.logkv(key, value) *)
| EvDumpKvs.                                         (* logger.dumpkvs() *)

Definition Trace := list Event.

(** The answers of the collaborators, each a function of the calls made
    so far. *)
Record Collaborators := {
  callback : Trace -> CallbackReturn;
  action_space_sample : Trace -> ndarray;
  predict : Trace -> ndarray -> bool -> ndarray;
  action_noise : Trace -> ndarray;
  env_step : Trace -> ndarray -> StepResult;
  get_original_obs : Trace -> ndarray;
  get_original_reward : Trace -> Q;
  vf_net : Trace -> ndarray -> Q
}.

(** ** The model object and the arguments of [collect_rollouts] *)

(** [self.rollout_data]: the five lists filled during collection, and the
    two keys added by the post-processing. *)
Record RolloutData := {
  observations : list ndarray;
  actions : list ndarray;
  rewards : list Q;
  dones : list bool;
  values : list Q;
  returns : option (list Q);
  advantage : option (list Q)
}.

(** [{key: [] for key in ['observations', 'actions', 'rewards', 'dones', 'values']}] *)
Definition empty_rollout_data : RolloutData :=
  {| observations := []; actions := []; rewards := []; dones := [];
     values := []; returns := None; advantage := None |}.

(** The fields of [self] that [collect_rollouts] only reads. *)
Record Hyper := {
  action_space : Box;
  use_sde : bool;
  sde_sample_freq : Z;
  use_sde_at_warmup : bool;
  on_policy_exploration : bool;
  gamma : Q;
  verbose : Z;
  has_vec_normalize_env : bool      (* self._vec_normalize_env is not None *)
}.

(** The fields of [self] that [collect_rollouts] writes. *)
Record Self := {
  num_timesteps : Z;
  rollout_data : option RolloutData;
  ep_info_buffer : list EpInfo;     (* deque(maxlen=100) *)
  ep_success_buffer : list bool     (* deque(maxlen=100) *)
}.

(** The arguments of [collect_rollouts]. *)
Record Args := {
  env_is_vec_env : bool;            (* isinstance(env, VecEnv) *)
  env_num_envs : Z;                 (* env.num_envs *)
  n_episodes : Z;
  n_steps : Z;
  has_action_noise : bool;          (* action_noise is not None *)
  learning_starts : Z;
  has_replay_buffer : bool;         (* replay_buffer is not None *)
  arg_obs : ndarray;
  episode_num : Z;
  log_interval : option Z
}.

(** The value returned:
    [mean_reward, total_steps, total_episodes, obs, continue_training]. *)
Definition RolloutReturn : Type := Q * Z * Z * option ndarray * bool.

(** ** A monad for state, exceptions and early return *)

Inductive Exn := AssertionError | UnboundLocalError | ZeroDivisionError.

Inductive Outcome (A : Type) :=
| Normal (a : A)
| Returned (r : RolloutReturn)      (* a [return] statement was executed *)
| Raised (e : Exn)
| OutOfFuel.
Arguments Normal {A} a.
Arguments Returned {A} r.
Arguments Raised {A} e.
Arguments OutOfFuel {A}.

Record State := { self : Self; trace : Trace }.

Definition M (A : Type) : Type := State -> Outcome A * State.

Definition ret {A} (a : A) : M A := fun s => (Normal a, s).

Definition bind {A B} (m : M A) (k : A -> M B) : M B :=
  fun s =>
    match m s with
    | (Normal a, s') => k a s'
    | (Returned r, s') => (Returned r, s')
    | (Raised e, s') => (Raised e, s')
    | (OutOfFuel, s') => (OutOfFuel, s')
    end.

Notation "'let*' x ':=' c 'in' k" := (bind c (fun x => k))
  (at level 10, x pattern, c at level 100, k at level 200).
Notation "c '>>' k" := (bind c (fun _ => k))
  (at level 100, k at level 200, right associativity).

Definition return_ {A} (r : RolloutReturn) : M A := fun s => (Returned r, s).
Definition raise {A} (e : Exn) : M A := fun s => (Raised e, s).
Definition out_of_fuel {A} : M A := fun s => (OutOfFuel, s).
Definition get_self : M Self := fun s => (Normal (self s), s).
Definition put_self (m : Self) : M unit :=
  fun s => (Normal tt, {| self := m; trace := trace s |}).
Definition when (b : bool) (m : M unit) : M unit := if b then m else ret tt.
Definition assert_ (b : bool) : M unit := if b then ret tt else raise AssertionError.

(** A call that answers nothing of interest. *)
Definition tell (ev : Event) : M unit :=
  fun s => (Normal tt, {| self := self s; trace := trace s ++ [ev] |}).

(** A call whose answer is read: [answer] is the collaborator, [ev] records
    the call with its answer. *)
Definition ask {A} (answer : Trace -> A) (ev : A -> Event) : M A :=
  fun s => let a := answer (trace s) in
           (Normal a, {| self := self s; trace := trace s ++ [ev a] |}).

(** ** Episode statistics *)

(** [deque.append] on a [deque(maxlen=100)]: a full deque drops its oldest
    entry. *)
Definition deque_append {A} (d : list A) (x : A) : list A :=
  let d' := d ++ [x] in
  if (100 <? length d')%nat then drop 1 d' else d'.

(** [_update_info_buffer(infos, dones)]; [infos_dones] pairs every
    [info] with its [dones[idx]]. *)
Fixpoint update_info_buffer (infos_dones : list (Info * bool)) (m : Self) : Self :=
  match infos_dones with
  | [] => m
  | (info, d) :: rest =>
      let maybe_ep_info := info_episode info in
      let maybe_is_success := info_is_success info in
      let eib := match maybe_ep_info with
                 | Some e => deque_append (ep_info_buffer m) e
                 | None => ep_info_buffer m
                 end in
      let esb := match maybe_is_success with
                 | Some b => if d then deque_append (ep_success_buffer m) b
                             else ep_success_buffer m
                 | None => ep_success_buffer m
                 end in
      update_info_buffer rest
        {| num_timesteps := num_timesteps m; rollout_data := rollout_data m;
           ep_info_buffer := eib; ep_success_buffer := esb |}
  end.

(** ** The locals of [collect_rollouts] *)

Record Locals := {
  episode_rewards : list Q;
  total_timesteps : list Z;
  total_steps : Z;
  total_episodes : Z;
  obs : ndarray;
  obs_ : option ndarray;            (* [None]: not bound yet *)
  new_obs_ : option ndarray;        (* [None]: not bound yet *)
  done : bool;
  episode_reward : Q;
  episode_timesteps : Z;
  continue_training : bool
}.

(** Reading a local that may not be bound. *)
Definition read_local {A} (v : option A) : M A :=
  match v with Some a => ret a | None => raise UnboundLocalError end.

Definition set_rollout_data (rd : option RolloutData) (m : Self) : Self :=
  {| num_timesteps := num_timesteps m; rollout_data := rd;
     ep_info_buffer := ep_info_buffer m; ep_success_buffer := ep_success_buffer m |}.

Definition incr_num_timesteps (m : Self) : Self :=
  {| num_timesteps := num_timesteps m + 1; rollout_data := rollout_data m;
     ep_info_buffer := ep_info_buffer m; ep_success_buffer := ep_success_buffer m |}.

Definition modify_self (f : Self -> Self) : M unit :=
  let* m := get_self in put_self (f m).

(** [safe_mean]: [np.nan] ([None]) on an empty array, its mean otherwise. *)
Definition safe_mean (arr : list Q) : option Q :=
  if (length arr =? 0)%nat then None else Some (np_mean arr).

#[local] Instance Q_inhabited : Inhabited Q := populate 0%Q.

(** [for x in xs: acc = body(x, acc)] *)
Fixpoint for_each {A S} (xs : list A) (body : A -> S -> M S) (acc : S) : M S :=
  match xs with
  | [] => ret acc
  | x :: xs' => let* acc' := body x acc in for_each xs' body acc'
  end.

(** How a call of [collect_rollouts] ends. *)
Inductive Completion :=
| Returns (r : RolloutReturn)
| Raises (e : Exn)
| Unfinished.                       (* the fuel ran out *)

(** ** [OffPolicyRLModel.collect_rollouts] *)

Section Collector.

Variable co : Collaborators.
Variable hp : Hyper.
Variable args : Args.

(** "Select action randomly or according to policy" *)
Definition select_action (l : Locals) : M ndarray :=
  let* m := get_self in
  if (num_timesteps m <? learning_starts args)
     && negb (use_sde hp && use_sde_at_warmup hp)
  then (* Warmup phase *)
    ask (action_space_sample co) EvSample
  else
    ask (fun tr => predict co tr (obs l) (negb (use_sde hp)))
        (EvPredict (obs l) (negb (use_sde hp))).

(** "Store data in replay buffer"; answers the locals [obs_] and
    [new_obs_] as the block leaves them. *)
Definition store_transition (l : Locals) (res : StepResult)
    (clipped_action : ndarray) : M (option ndarray * option ndarray) :=
  if has_replay_buffer args then
    let* (o_, no_, r_) :=
      (if has_vec_normalize_env hp then
         (* Store only the unnormalized version *)
         let* no_ := ask (get_original_obs co) EvGetOriginalObs in
         let* r_ := ask (get_original_reward co) EvGetOriginalReward in
         let* o_ := read_local (obs_ l) in
         ret (o_, no_, r_)
       else
         (* Avoid changing the original ones *)
         ret (obs l, step_obs res, step_reward res)) in
    tell (EvReplayAdd o_ no_ clipped_action r_ (step_done res)) >>
    ret (Some o_, Some no_)
  else ret (obs_ l, new_obs_ l).

(** [if self.rollout_data is not None: ... .append(...)] *)
Definition append_rollout_data (l : Locals) (scaled_action : ndarray)
    (res : StepResult) : M unit :=
  let* m := get_self in
  match rollout_data m with
  | None => ret tt
  | Some rd =>
      let* v := ask (fun tr => vf_net co tr (obs l)) (EvVfNet (obs l)) in
      modify_self (set_rollout_data (Some
        {| observations := observations rd ++ [obs l];
           actions := actions rd ++ [scaled_action];
           rewards := rewards rd ++ [step_reward res];
           dones := dones rd ++ [step_done res];
           values := values rd ++ [v];
           returns := returns rd;
           advantage := advantage rd |}))
  end.

(** The body of the inner [while not done] loop, up to the counters. *)
Definition rollout_step (l : Locals) : M Locals :=
  (* Only stop training if return value is False, not when it is None. *)
  let* r := ask (callback co) EvCallback in
  if is_False r then
    return_ (0%Q, total_steps l, total_episodes l, None, false)
  else
    when (use_sde hp && (0 <? sde_sample_freq hp)
          && (n_steps args mod sde_sample_freq hp =? 0))
         (* Sample a new noise matrix *)
         (tell EvResetNoise) >>
    let* unscaled_action := select_action l in
    (* Rescale the action from [low, high] to [-1, 1] *)
    let scaled_action := scale_action (action_space hp) unscaled_action in
    let clipped_action :=
      if use_sde hp then np_clip scaled_action else scaled_action in
    (* Add noise to the action (improve exploration) *)
    let* clipped_action :=
      (if has_action_noise args then
         let* n := ask (action_noise co) EvActionNoise in
         ret (np_clip (np_add clipped_action n))
       else ret clipped_action) in
    (* Rescale and perform action *)
    let* res :=
      ask (fun tr => env_step co tr (unscale_action (action_space hp) clipped_action))
          (EvEnvStep (unscale_action (action_space hp) clipped_action)) in
    (* Retrieve reward and episode length if using Monitor wrapper;
       [done] is the [dones[idx]] of the one environment's [info] *)
    modify_self (update_info_buffer
                   (map (fun i => (i, step_done res)) (step_infos res))) >>
    let* (o_, no_) := store_transition l res clipped_action in
    append_rollout_data l scaled_action res >>
    let* o_ :=
      (if has_vec_normalize_env hp then
         let* x := read_local no_ in ret (Some x)
       else ret o_) in
    modify_self incr_num_timesteps >>
    ret {| episode_rewards := episode_rewards l;
           total_timesteps := total_timesteps l;
           total_steps := total_steps l + 1;
           total_episodes := total_episodes l;
           obs := step_obs res;
           obs_ := o_;
           new_obs_ := no_;
           done := step_done res;
           episode_reward := (episode_reward l + step_reward res)%Q;
           episode_timesteps := episode_timesteps l + 1;
           continue_training := continue_training l |}.

(** [while not done: ... if 0 < n_steps <= total_steps: break] *)
Fixpoint inner_loop (fuel : nat) (l : Locals) : M Locals :=
  match fuel with
  | O => out_of_fuel
  | S fuel' =>
      if negb (done l) then
        let* l' := rollout_step l in
        if (0 <? n_steps args) && (n_steps args <=? total_steps l')
        then ret l'
        else inner_loop fuel' l'
      else ret l
  end.

(** "Display training infos".  The values that depend on the wall clock
    ([fps], [time_elapsed]) and on the actor ([std]) are not modelled; an
    entry of [ep_info_buffer] is Monitor's summary, never an empty dict. *)
Definition display_training_infos (l : Locals) : M unit :=
  if 1 <=? verbose hp then
    match log_interval args with
    | None => ret tt
    | Some li =>
        if li =? 0 then raise ZeroDivisionError
        else if (episode_num args + total_episodes l) mod li =? 0 then
          let* m := get_self in
          tell (EvLogKv "episodes"
                  (Some (inject_Z (episode_num args + total_episodes l)))) >>
          when (0 <? length (ep_info_buffer m))%nat
            (tell (EvLogKv "ep_rew_mean"
                     (safe_mean (map ep_r (ep_info_buffer m)))) >>
             tell (EvLogKv "ep_len_mean"
                     (safe_mean (map (fun e => inject_Z (ep_l e))
                                     (ep_info_buffer m))))) >>
          tell (EvLogKv "fps" None) >>
          tell (EvLogKv "time_elapsed" None) >>
          tell (EvLogKv "total timesteps" (Some (inject_Z (num_timesteps m)))) >>
          when (use_sde hp) (tell EvGetStd >> tell (EvLogKv "std" None)) >>
          when (0 <? length (ep_success_buffer m))%nat
            (tell (EvLogKv "success rate"
                     (safe_mean (map float_of_bool (ep_success_buffer m))))) >>
          tell EvDumpKvs
        else ret tt
    end
  else ret tt.

(** [total_episodes += 1; episode_rewards.append(episode_reward);
    total_timesteps.append(episode_timesteps)] *)
Definition count_episode (l : Locals) : Locals :=
  {| episode_rewards := episode_rewards l ++ [episode_reward l];
     total_timesteps := total_timesteps l ++ [episode_timesteps l];
     total_steps := total_steps l;
     total_episodes := total_episodes l + 1;
     obs := obs l; obs_ := obs_ l; new_obs_ := new_obs_ l;
     done := done l;
     episode_reward := episode_reward l;
     episode_timesteps := episode_timesteps l;
     continue_training := continue_training l |}.

(** [if done: ...] after the inner loop. *)
Definition episode_end (l : Locals) : M Locals :=
  if done l then
    let l' := count_episode l in
    when (has_action_noise args) (tell EvActionNoiseReset) >>
    display_training_infos l' >>
    ret l'
  else ret l.

(** [done = False; episode_reward, episode_timesteps = 0.0, 0] *)
Definition start_episode (l : Locals) : Locals :=
  {| episode_rewards := episode_rewards l;
     total_timesteps := total_timesteps l;
     total_steps := total_steps l;
     total_episodes := total_episodes l;
     obs := obs l; obs_ := obs_ l; new_obs_ := new_obs_ l;
     done := false;
     episode_reward := 0%Q;
     episode_timesteps := 0;
     continue_training := continue_training l |}.

(** [total_steps < n_steps or total_episodes < n_episodes] *)
Definition budget_unmet (l : Locals) : bool :=
  (total_steps l <? n_steps args) || (total_episodes l <? n_episodes args).

(** [while total_steps < n_steps or total_episodes < n_episodes: ...] *)
Fixpoint outer_loop (fuel : nat) (l : Locals) : M Locals :=
  match fuel with
  | O => out_of_fuel
  | S fuel' =>
      if budget_unmet l then
        let* l1 := inner_loop fuel (start_episode l) in
        let* l2 := episode_end l1 in
        outer_loop fuel' l2
      else ret l
  end.

(** The snapshot with its two computed keys:
    [rollout_data['returns']] is [rets] and
    [rollout_data['advantage'] = rollout_data['returns'] - rollout_data['values']]. *)
Definition with_returns (rd : RolloutData) (rets : list Q) : RolloutData :=
  {| observations := observations rd; actions := actions rd;
     rewards := rewards rd; dones := dones rd; values := values rd;
     returns := Some rets;
     advantage := Some (np_sub rets (values rd)) |}.

(** One turn of [for step in reversed(range(len(rewards)))]: the state
    of the loop is [last_return] and the [returns] tensor. *)
Definition return_step (l : Locals) (rd : RolloutData) (step : nat)
    (acc : Q * list Q) : M (Q * list Q) :=
  let (last_return, rets) := acc in
  let* last_return :=
    (if (step =? length (rewards rd) - 1)%nat then
       let next_non_terminal := (1 - float_of_bool (done l))%Q in
       let* next_value := ask (fun tr => vf_net co tr (obs l)) (EvVfNet (obs l)) in
       ret (rewards rd !!! step + next_non_terminal * next_value)%Q
     else
       let next_non_terminal :=
         (1 - float_of_bool (dones rd !!! (step + 1)%nat))%Q in
       ret (rewards rd !!! step + gamma hp * last_return * next_non_terminal)%Q) in
  ret (last_return, <[step := last_return]> rets).

(** "Post processing": returns and advantage of the snapshot. *)
Definition post_processing (l : Locals) : M unit :=
  let* m := get_self in
  match rollout_data m with
  | None => ret tt
  | Some rd =>
      let* (_, rets) :=
        for_each (rev (seq 0 (length (rewards rd)))) (return_step l rd)
                 (0%Q, rewards rd) in
      modify_self (set_rollout_data (Some (with_returns rd rets)))
  end.

Definition initial_locals (o_ : option ndarray) : Locals :=
  {| episode_rewards := []; total_timesteps := [];
     total_steps := 0; total_episodes := 0;
     obs := arg_obs args; obs_ := o_; new_obs_ := None;
     done := false; episode_reward := 0%Q; episode_timesteps := 0;
     continue_training := true |}.

(** The statements before the outer loop; answers the locals. *)
Definition rollout_start : M Locals :=
  assert_ (env_is_vec_env args) >>
  assert_ (env_num_envs args =? 1) >>
  (* Retrieve unnormalized observation for saving into the buffer *)
  let* o_ :=
    (if has_vec_normalize_env hp then
       let* o := ask (get_original_obs co) EvGetOriginalObs in ret (Some o)
     else ret None) in
  modify_self (set_rollout_data None) >>
  when (use_sde hp)
    (tell EvResetNoise >>
     (* Reset rollout data *)
     when (on_policy_exploration hp)
       (modify_self (set_rollout_data (Some empty_rollout_data)))) >>
  tell EvOnRolloutStart >>
  ret (initial_locals o_).

(** The statements after the outer loop. *)
Definition rollout_end (l : Locals) : M RolloutReturn :=
  let mean_reward :=
    if 0 <? total_episodes l then np_mean (episode_rewards l) else 0%Q in
  post_processing l >>
  tell EvOnRolloutEnd >>
  ret (mean_reward, total_steps l, total_episodes l, Some (obs l),
       continue_training l).

(** The statements of [collect_rollouts], in order. *)
Definition collect_rollouts_body (fuel : nat) : M RolloutReturn :=
  let* l0 := rollout_start in
  let* l := outer_loop fuel l0 in
  rollout_end l.

(** [collect_rollouts], called in the state [s]: the model's fields and
    the calls made before. *)
Definition collect_rollouts (fuel : nat) (s : State) : Completion * State :=
  match collect_rollouts_body fuel s with
  | (Normal r, s') => (Returns r, s')
  | (Returned r, s') => (Returns r, s')
  | (Raised e, s') => (Raises e, s')
  | (OutOfFuel, s') => (Unfinished, s')
  end.

End Collector.

(** ** Rounded arithmetic: [unscale_action] and [_update_current_progress] *)

(** What [_update_current_progress] raises. *)
Inductive ProgressExn := ProgressOverflowError | ProgressZeroDivisionError.

(** The first magnitude that rounds beyond the largest binary64 number. *)
Definition float_max_int : Z := 2 ^ 1024 - 2 ^ 970.

Section Rounded.

(** The rounding of binary64: the representable number nearest to a
    rational.  In this section every operation is rounded, as the code
    computes it; no operation overflows to an infinity. *)
Variable rnd : Q -> Q.

(** [unscale_action], one component:
    [low + (0.5 * (scaled_action + 1.0) * (high - low))]. *)
Definition unscale1_rounded (lo hi n : Q) : Q :=
  rnd (lo + rnd (rnd (0.5 * rnd (n + 1)) * rnd (hi - lo)))%Q.

(** [unscale_action] *)
Definition unscale_action_rounded (action_space : Box)
    (scaled_action : ndarray) : ndarray :=
  over_bounds unscale1_rounded (low action_space) (high action_space)
              scaled_action.

(** [float(n)] of a Python integer: [OverflowError] on an integer too
    large to convert, otherwise the integer rounded. *)
Definition float_of_int (n : Z) : ProgressExn + Q :=
  if float_max_int <=? Z.abs n then inl ProgressOverflowError
  else inr (rnd (inject_Z n)).

(** The value assigned to [self._current_progress]:
    [1.0 - float(num_timesteps) / float(total_timesteps)]; a float division
    by zero raises. *)
Definition update_current_progress (num_timesteps total_timesteps : Z)
    : ProgressExn + Q :=
  match float_of_int num_timesteps with
  | inl e => inl e
  | inr n =>
      match float_of_int total_timesteps with
      | inl e => inl e
      | inr t =>
          if Qeq_bool t 0 then inl ProgressZeroDivisionError
          else inr (rnd (1 - rnd (n / t)))%Q
      end
  end.

End Rounded.

(** [unscale_action], one component, on the binary64 numbers themselves. *)
Definition unscale1_binary64 (lo hi n : float) : float :=
  (lo + (0x1p-1 * (n + 1) * (hi - lo)))%float.

(** What is used of the rounding: it is monotone, and exact on the
    integers up to [2 ^ 53]. *)
Definition is_rounding (rnd : Q -> Q) : Prop :=
  (forall x y : Q, (x <= y)%Q -> (rnd x <= rnd y)%Q)
  /\ (forall z : Z, Z.abs z <= 2 ^ 53 -> (rnd (inject_Z z) == inject_Z z)%Q).

(** Bounds that are binary64 numbers, with [low <= high] and a finite
    [high - low], elementwise. *)
Definition finite_bounds (rnd : Q -> Q) (sp : Box) : Prop :=
  Forall2 (fun l h => (rnd l == l)%Q /\ (l <= h)%Q
                      /\ (h - l < inject_Z float_max_int)%Q)
          (low sp) (high sp).

(** A rounding for examples: down to a multiple of [1 / 1024]. *)
Definition ex_rnd (q : Q) : Q := (inject_Z (Qfloor (q * 1024)) / 1024)%Q.

(** ** [save]: the attributes written to the archive *)

(** [excluded_save_params()] *)
Definition excluded_save_params : list string :=
  ["policy"; "device"; "env"; "eval_env"; "replay_buffer"; "rollout_buffer";
   "_vec_normalize_env"]%string.

(** [torch_var.split('.')[0]] *)
Fixpoint split_head (s : string) : string :=
  match s with
  | EmptyString => EmptyString
  | String c s' => if Ascii.eqb c "."%char then EmptyString
                   else String c (split_head s')
  end.

Section Save.

Context {V : Type}.

(** The statements of [save] up to the call of [_save_to_file_zip].
    [dict] is [self.__dict__]; [state_dicts_names] and [tensors_names] are
    the answer of [get_torch_variables()].  Answers the [data] handed to
    [_save_to_file_zip] and the list object that the caller passed as
    [exclude], as the call leaves it. *)
Definition save_data (dict : gmap string V)
    (exclude include : option (list string))
    (state_dicts_names tensors_names : list string)
    : gmap string V * option (list string) :=
  (* copy parameter list so we don't mutate the original dict *)
  let data := dict in
  (* use standard list of excluded parameters if none given, else
     [exclude.extend(..)]: the caller's list grows *)
  let given :=
    match exclude with
    | None => None
    | Some ex =>
        Some (ex ++ filter (fun param => param ∉ ex) excluded_save_params)
    end in
  let exclude := default excluded_save_params given in
  (* do not exclude params if they are specifically included: with an
     [include], [exclude] is bound to a new list *)
  let exclude' :=
    match include with
    | Some inc => filter (fun param_name => param_name ∉ inc) exclude
    | None => exclude
    end in
  (* any params that are in the save vars must not be saved by data *)
  let torch_variables := state_dicts_names ++ tensors_names in
  let exclude'' :=
    fold_left (fun exclude torch_var => exclude ++ [split_head torch_var])
              torch_variables exclude' in
  (* Remove parameter entries of parameters which are to be excluded *)
  let data :=
    fold_left (fun data param_name =>
                 if bool_decide (is_Some (data !! param_name))
                 then delete param_name data else data)
              exclude'' data in
  (data,
   match include with
   | Some _ => given
   | None => option_map (fun _ => exclude'') given
   end).

End Save.

(** ** [check_env] and [load] *)

(** What [load] raises before the model is set up. *)
Inductive LoadExn := LoadValueError | LoadKeyError.

Section Load.

(** The values of attributes: spaces, environments, keyword dicts, ...,
    compared with [!=]. *)
Context {V : Type} `{EqDecision V}.

(** [env.observation_space] and [env.action_space]. *)
Variable env_observation_space : V -> V.
Variable env_action_space : V -> V.

(** [cls(policy=.., env=.., device='auto', _init_setup_model=..)]: the
    attributes of the new model. *)
Variable construct : V -> option V -> bool -> gmap string V.

(** [check_env(env, observation_space, action_space)] *)
Definition check_env (env observation_space action_space : V) : bool :=
  if negb (bool_decide (observation_space = env_observation_space env))
  then false
  else if negb (bool_decide (action_space = env_action_space env))
  then false
  (* return true if no check failed *)
  else true.

(** [d[key]] *)
Definition getitem (d : gmap string V) (key : string) : LoadExn + V :=
  match d !! key with
  | Some v => inr v
  | None => inl LoadKeyError
  end.

(** The checks of [load] on the [data] read from the file; answers the
    [env] that the model is created with. *)
Definition load_env (data kwargs : gmap string V) (env : option V)
    : LoadExn + option V :=
  match
    (match kwargs !! "policy_kwargs"%string with
     | Some given =>
         match getitem data "policy_kwargs" with
         | inl e => inl e
         | inr stored =>
             if negb (bool_decide (given = stored)) then inl LoadValueError
             else inr tt
         end
     | None => inr tt
     end)
  with
  | inl e => inl e
  | inr _ =>
      (* check if observation space and action space are part of the saved
         parameters *)
      if (negb (bool_decide (is_Some (data !! "observation_space"%string)))
          || negb (bool_decide (is_Some (data !! "action_space"%string))))
         && negb (bool_decide (is_Some (data !! "env"%string)))
      then inl LoadValueError
      else
        (* check if given env is valid *)
        match env with
        | Some e =>
            match getitem data "observation_space" with
            | inl x => inl x
            | inr o =>
                match getitem data "action_space" with
                | inl x => inl x
                | inr a =>
                    if negb (check_env e o a) then inl LoadValueError
                    else inr (Some e)
                end
            end
        | None =>
            (* if no new env was given use stored env if possible *)
            inr (data !! "env"%string)
        end
  end.

(** [load], up to [model.__dict__.update(kwargs)]: the attributes of the
    model before [_setup_model()] is called and the parameters are put
    back. *)
Definition load_attributes (data kwargs : gmap string V) (env : option V)
    : LoadExn + gmap string V :=
  match load_env data kwargs env with
  | inl e => inl e
  | inr env =>
      match getitem data "policy_class" with
      | inl e => inl e
      | inr policy_class =>
          (* first create model, but only setup if a env was given *)
          let model := construct policy_class env (bool_decide (is_Some env)) in
          (* load parameters *)
          let model := data ∪ model in
          let model := kwargs ∪ model in
          inr model
      end
  end.

End Load.

(** ** Reading a trace *)

(** The arguments of the [env.step] calls. *)
Definition env_actions (tr : Trace) : list ndarray :=
  omap (fun e => match e with EvEnvStep a _ => Some a | _ => None end) tr.

(** The answers of the [env.step] calls. *)
Definition env_results (tr : Trace) : list StepResult :=
  omap (fun e => match e with EvEnvStep _ r => Some r | _ => None end) tr.

(** The actions answered by [action_space.sample] and [predict]. *)
Definition selected_actions (tr : Trace) : list ndarray :=
  omap (fun e => match e with
                 | EvSample a => Some a
                 | EvPredict _ _ a => Some a
                 | _ => None
                 end) tr.

(** The answers of [action_space.sample()]. *)
Definition samples (tr : Trace) : list ndarray :=
  omap (fun e => match e with EvSample a => Some a | _ => None end) tr.

(** The [predict] calls: observation, [deterministic] and answer. *)
Definition predictions (tr : Trace) : list (ndarray * bool * ndarray) :=
  omap (fun e => match e with EvPredict o d a => Some (o, d, a) | _ => None end) tr.

(** The samples of the action noise. *)
Definition noises (tr : Trace) : list ndarray :=
  omap (fun e => match e with EvActionNoise n => Some n | _ => None end) tr.

(** The [replay_buffer.add] calls. *)
Definition replay_adds (tr : Trace)
    : list (ndarray * ndarray * ndarray * Q * bool) :=
  omap (fun e => match e with
                 | EvReplayAdd o o' a r d => Some (o, o', a, r, d)
                 | _ => None
                 end) tr.

(** The actions handed to [replay_buffer.add]. *)
Definition replay_actions (tr : Trace) : list ndarray :=
  omap (fun e => match e with EvReplayAdd _ _ a _ _ => Some a | _ => None end) tr.

(** The answers of [get_original_obs()] and of [get_original_reward()]. *)
Definition original_obs (tr : Trace) : list ndarray :=
  omap (fun e => match e with EvGetOriginalObs o => Some o | _ => None end) tr.
Definition original_rewards (tr : Trace) : list Q :=
  omap (fun e => match e with EvGetOriginalReward r => Some r | _ => None end) tr.

(** The answers of [callback()]. *)
Definition callback_returns (tr : Trace) : list CallbackReturn :=
  omap (fun e => match e with EvCallback r => Some r | _ => None end) tr.

(** How many times an event occurs. *)
Definition is_reset_noise (e : Event) : bool :=
  match e with EvResetNoise => true | _ => false end.
Definition is_on_rollout_end (e : Event) : bool :=
  match e with EvOnRolloutEnd => true | _ => false end.
Definition count (p : Event -> bool) (tr : Trace) : nat :=
  length (List.filter p tr).

(** ** Weakest preconditions

    [wp m Q R s]: run from [s], [m] ends normally in a state and with a
    value that satisfy [Q], or executes [return r] in a state that
    satisfies [R r], or raises, or runs out of fuel. *)

Definition wp {A} (m : M A) (Q : A -> State -> Prop)
    (R : RolloutReturn -> State -> Prop) (s : State) : Prop :=
  match m s with
  | (Normal a, s') => Q a s'
  | (Returned r, s') => R r s'
  | (Raised _, _) => True
  | (OutOfFuel, _) => True
  end.

(** * Vocabulary of the statements *)

(** ** More readings of a trace *)

(** The observation the environment answered last, [o] when there was no
    step. *)
Definition last_obs (o : ndarray) (evs : Trace) : ndarray :=
  default o (last (map step_obs (env_results evs))).

(** No [callback()] call of the trace answered [False]. *)
Definition never_False (evs : Trace) : Prop :=
  Forall (fun r => is_False r = false) (callback_returns evs).

(** The snapshot, if there is one, has not been post-processed. *)
Definition unprocessed (m : Self) : Prop :=
  match rollout_data m with
  | None => True
  | Some rd => returns rd = None /\ advantage rd = None
  end.

(** The snapshot, if there is one, carries its returns and advantage. *)
Definition processed (m : Self) : Prop :=
  match rollout_data m with
  | None => True
  | Some rd => is_Some (returns rd) /\ is_Some (advantage rd)
  end.

(** The calls made at the end of an episode: resetting the action noise and
    logging. *)
Definition quiet (e : Event) : bool :=
  match e with
  | EvActionNoiseReset | EvGetStd | EvLogKv _ _ | EvDumpKvs => true
  | _ => false
  end.

Definition all_quiet (evs : Trace) : Prop := Forall (fun e => quiet e = true) evs.

(** The normalized action that a step applies, from the action [a] it
    selected and the noise it sampled: scaled, clipped under
    state-dependent exploration, and with noise added and clipped again. *)
Definition clipped_action_of (hp : Hyper) (a : ndarray) (noise : option ndarray)
    : ndarray :=
  let scaled_action := scale_action (action_space hp) a in
  let clipped_action :=
    if use_sde hp then np_clip scaled_action else scaled_action in
  match noise with
  | Some n => np_clip (np_add clipped_action n)
  | None => clipped_action
  end.

(** The normalized actions applied over a trace, step by step. *)
Definition applied_actions (hp : Hyper) (args : Args) (evs : Trace)
    : list ndarray :=
  if has_action_noise args then
    zip_with (fun a n => clipped_action_of hp a (Some n))
             (selected_actions evs) (noises evs)
  else map (fun a => clipped_action_of hp a None) (selected_actions evs).

(** The observation, next observation and reward of the
    [replay_buffer.add] calls. *)
Definition replay_transitions (tr : Trace) : list (ndarray * ndarray * Q) :=
  omap (fun e => match e with
                 | EvReplayAdd o o' _ r _ => Some (o, o', r)
                 | _ => None
                 end) tr.

(** Every element paired with its successor. *)
Definition consecutive {A} (xs : list A) : list (A * A) := zip xs (tail xs).

(** The observations of a rollout without a wrapper: the one passed in,
    then the ones the environment answered. *)
Definition stepped_obs (args : Args) (evs : Trace) : list ndarray :=
  arg_obs args :: map step_obs (env_results evs).

(** The warm-up test of a step: [self.num_timesteps < learning_starts and
    not (self.use_sde and self.use_sde_at_warmup)]. *)
Definition warming_up (hp : Hyper) (args : Args) (m : Self) : Prop :=
  num_timesteps m < learning_starts args
  /\ ~ (use_sde hp = true /\ use_sde_at_warmup hp = true).

(** What the recursion promises at index [i] of the [returns] tensor. *)
Definition return_at (hp : Hyper) (rd : RolloutData) (done_end : bool)
    (next_value : Q) (rets : list Q) (i : nat) : Prop :=
  if (i =? length (rewards rd) - 1)%nat then
    rets !! i = Some (rewards rd !!! i
                      + (1 - float_of_bool done_end) * next_value)%Q
  else
    rets !! i = Some (rewards rd !!! i
                      + gamma hp * (rets !!! (i + 1)%nat)
                        * (1 - float_of_bool (dones rd !!! (i + 1)%nat)))%Q.

(** The running step count at each [actor.reset_noise()] call made inside
    the loop: the number of [env.step] calls before it. *)
Fixpoint resample_points (steps : nat) (started : bool) (tr : Trace) : list nat :=
  match tr with
  | [] => []
  | EvOnRolloutStart :: tr' => resample_points steps true tr'
  | EvEnvStep _ _ :: tr' => resample_points (S steps) started tr'
  | EvResetNoise :: tr' =>
      if started then steps :: resample_points steps started tr'
      else resample_points steps started tr'
  | _ :: tr' => resample_points steps started tr'
  end.

Arguments env_actions !tr /.
Arguments env_results !tr /.
Arguments selected_actions !tr /.
Arguments noises !tr /.
Arguments replay_adds !tr /.
Arguments replay_actions !tr /.
Arguments original_obs !tr /.
Arguments original_rewards !tr /.
Arguments callback_returns !tr /.
Arguments applied_actions hp args !evs /.
Arguments replay_transitions !tr /.
Arguments consecutive : simpl never.
Arguments stepped_obs : simpl never.

(** ** Invariants of the outer loop

    Each is stated over the calls [evs] made since the call started, the
    trace then being [tr0]; the [_inv] holds of the locals and the state
    at the head of either loop, the [_post] of the value returned and the
    state the call leaves. *)

(** Steps, callback answers, hooks and the snapshot's state. *)
Definition counting_inv (args : Args) (tr0 : Trace) (l : Locals) (s : State) : Prop :=
  exists evs,
    trace s = tr0 ++ evs
    /\ total_steps l = Z.of_nat (length (env_actions evs))
    /\ continue_training l = true
    /\ never_False evs
    /\ count is_on_rollout_end evs = 0%nat
    /\ unprocessed (self s)
    /\ obs l = last_obs (arg_obs args) evs.

Definition counting_post (args : Args) (tr0 : Trace) (r : RolloutReturn) (s : State) : Prop :=
  let '(mean_reward, ts, te, o, flag) := r in
  exists evs,
    trace s = tr0 ++ evs
    /\ ts = Z.of_nat (length (env_actions evs))
    /\ if flag then
         never_False evs
         /\ count is_on_rollout_end evs = 1%nat
         /\ processed (self s)
         /\ o = Some (last_obs (arg_obs args) evs)
         /\ n_steps args <= ts /\ n_episodes args <= te
       else
         mean_reward = 0%Q
         /\ o = None
         /\ count is_on_rollout_end evs = 0%nat
         /\ unprocessed (self s)
         /\ exists pre, evs = pre ++ [EvCallback (RetBool false)]
                        /\ never_False pre.

(** The snapshot, if there is one, has as many value estimates as
    rewards. *)
Definition snapshot_inv (l : Locals) (s : State) : Prop :=
  match rollout_data (self s) with
  | None => True
  | Some rd => length (values rd) = length (rewards rd)
  end.

(** After a call that was not stopped, the snapshot, if there is one, has
    its advantage equal to returns minus values at every index. *)
Definition snapshot_post (r : RolloutReturn) (s : State) : Prop :=
  let '(_, _, _, _, flag) := r in
  flag = true ->
  forall rd, rollout_data (self s) = Some rd ->
    exists rets adv,
      returns rd = Some rets /\ advantage rd = Some adv
      /\ length rets = length (values rd)
      /\ length adv = length (values rd)
      /\ forall i, (i < length (values rd))%nat ->
           adv !! i = Some (rets !!! i - values rd !!! i)%Q.

(** What the environment, the replay buffer and the snapshot received as
    actions. *)
Definition actions_post (hp : Hyper) (args : Args) (tr0 : Trace) (s : State) : Prop :=
  exists evs,
    trace s = tr0 ++ evs
    /\ env_actions evs
       = map (unscale_action (action_space hp)) (applied_actions hp args evs)
    /\ (has_replay_buffer args = true ->
        replay_actions evs = applied_actions hp args evs)
    /\ (forall rd, rollout_data (self s) = Some rd ->
        actions rd = map (scale_action (action_space hp)) (selected_actions evs)).

Definition actions_inv (hp : Hyper) (args : Args) (tr0 : Trace) (l : Locals) (s : State) : Prop :=
  (exists evs,
    trace s = tr0 ++ evs
    /\ (has_action_noise args = true ->
        length (selected_actions evs) = length (noises evs))
    /\ env_actions evs
       = map (unscale_action (action_space hp)) (applied_actions hp args evs)
    /\ (has_replay_buffer args = true ->
        replay_actions evs = applied_actions hp args evs)
    /\ (forall rd, rollout_data (self s) = Some rd ->
        actions rd = map (scale_action (action_space hp)) (selected_actions evs))).

(** What the replay buffer received as observations and rewards. *)
Definition replay_post (hp : Hyper) (args : Args) (tr0 : Trace) (s : State) : Prop :=
  exists evs,
    trace s = tr0 ++ evs
    /\ (has_replay_buffer args = false -> replay_adds evs = [])
    /\ (has_replay_buffer args = true -> has_vec_normalize_env hp = true ->
        replay_transitions evs
        = zip (consecutive (original_obs evs)) (original_rewards evs))
    /\ (has_replay_buffer args = true -> has_vec_normalize_env hp = false ->
        replay_transitions evs
        = zip (consecutive (stepped_obs args evs))
              (map step_reward (env_results evs))).

Definition replay_inv (hp : Hyper) (args : Args) (tr0 : Trace) (l : Locals) (s : State) : Prop :=
  exists evs,
    trace s = tr0 ++ evs
    /\ (has_replay_buffer args = false -> replay_adds evs = [])
    /\ (has_replay_buffer args = true -> has_vec_normalize_env hp = true ->
        last (original_obs evs) = obs_ l
        /\ length (original_obs evs) = S (length (original_rewards evs))
        /\ replay_transitions evs
           = zip (consecutive (original_obs evs)) (original_rewards evs))
    /\ (has_replay_buffer args = true -> has_vec_normalize_env hp = false ->
        last (stepped_obs args evs) = Some (obs l)
        /\ replay_transitions evs
           = zip (consecutive (stepped_obs args evs))
                 (map step_reward (env_results evs))).

(** ** Vocabulary of the further properties *)

(** [0 < n_steps <= total_steps], the test of the inner loop's [break]. *)
Definition budget_break (args : Args) (l : Locals) : bool :=
  (0 <? n_steps args) && (n_steps args <=? total_steps l).

(** Every component in [[-1, 1]]. *)
Definition normalized (a : ndarray) : Prop :=
  Forall (fun x => (-1 <= x)%Q /\ (x <= 1)%Q) a.

(** The last 100 entries of a list: what a [deque(maxlen=100)] holds of
    the entries appended to it. *)
Definition window {A} (xs : list A) : list A := drop (length xs - 100) xs.

(** The episode summaries of the [infos] of a step, in order. *)
Definition reported_episodes (infos_dones : list (Info * bool)) : list EpInfo :=
  omap (fun x : Info * bool => info_episode (fst x)) infos_dones.

(** The success flags of the [infos] of a step whose [dones[idx]] is set. *)
Definition reported_successes (infos_dones : list (Info * bool)) : list bool :=
  omap (fun x : Info * bool => if snd x then info_is_success (fst x) else None)
       infos_dones.

(** ** Further readings of a trace *)

(** Single calls. *)
Definition is_on_rollout_start (e : Event) : bool :=
  match e with EvOnRolloutStart => true | _ => false end.
Definition is_action_noise_reset (e : Event) : bool :=
  match e with EvActionNoiseReset => true | _ => false end.
(** A call of the logger, or of [get_std] for it. *)
Definition is_log (e : Event) : bool :=
  match e with EvGetStd | EvLogKv _ _ | EvDumpKvs => true | _ => false end.

(** The calls of the value network: observation and answer. *)
Definition vf_calls (tr : Trace) : list (ndarray * Q) :=
  omap (fun e => match e with EvVfNet o v => Some (o, v) | _ => None end) tr.

(** The [infos] of a step, each with the step's [done]. *)
Definition step_reports (res : StepResult) : list (Info * bool) :=
  map (fun i => (i, step_done res)) (step_infos res).

(** The number of [env.step] calls that answered [done]. *)
Definition done_count (tr : Trace) : nat :=
  length (List.filter step_done (env_results tr)).

Arguments vf_calls !tr /.

(** What one pass of the inner loop does, when it is not stopped by the
    callback: [new] are the calls it makes, [res] the answer of
    [env.step], [a] the action selected. *)
Definition stepped (hp : Hyper) (args : Args) (l : Locals) (s : State)
    (l' : Locals) (s' : State) : Prop :=
  exists (new : Trace) (res : StepResult) (a : ndarray),
    trace s' = trace s ++ new
    /\ env_results new = [res]
    /\ selected_actions new = [a]
    /\ length (callback_returns new) = 1%nat
    /\ never_False new
    /\ length (noises new) = (if has_action_noise args then 1 else 0)%nat
    /\ length (replay_adds new) = (if has_replay_buffer args then 1 else 0)%nat
    /\ count is_on_rollout_start new = 0%nat
    /\ count is_on_rollout_end new = 0%nat
    /\ count is_action_noise_reset new = 0%nat
    /\ count is_log new = 0%nat
    /\ total_steps l' = total_steps l + 1
    /\ total_episodes l' = total_episodes l
    /\ episode_rewards l' = episode_rewards l
    /\ obs l' = step_obs res
    /\ done l' = step_done res
    /\ continue_training l' = continue_training l
    /\ episode_reward l' = (episode_reward l + step_reward res)%Q
    /\ num_timesteps (self s') = num_timesteps (self s) + 1
    /\ ep_info_buffer (self s')
       = ep_info_buffer (update_info_buffer (step_reports res) (self s))
    /\ ep_success_buffer (self s')
       = ep_success_buffer (update_info_buffer (step_reports res) (self s))
    /\ match rollout_data (self s) with
       | None => rollout_data (self s') = None /\ vf_calls new = []
       | Some rd =>
           exists v,
             vf_calls new = [(obs l, v)]
             /\ rollout_data (self s') = Some
                  {| observations := observations rd ++ [obs l];
                     actions := actions rd ++ [scale_action (action_space hp) a];
                     rewards := rewards rd ++ [step_reward res];
                     dones := dones rd ++ [step_done res];
                     values := values rd ++ [v];
                     returns := returns rd;
                     advantage := advantage rd |}
       end.

(** What a pass stopped by the callback leaves. *)
Definition stopped (l : Locals) (s : State) (r : RolloutReturn) (s' : State)
    : Prop :=
  r = (0%Q, total_steps l, total_episodes l, None, false)
  /\ self s' = self s
  /\ trace s' = trace s ++ [EvCallback (RetBool false)].

(** [logger.dumpkvs()] *)
Definition is_dump_kvs (e : Event) : bool :=
  match e with EvDumpKvs => true | _ => false end.

(** The test that guards the logging of an episode:
    [self.verbose >= 1 and log_interval is not None and
     (episode_num + total_episodes) % log_interval == 0]. *)
Definition logs_episode (hp : Hyper) (args : Args) (total_episodes : Z) : bool :=
  (1 <=? verbose hp)
  && match log_interval args with
     | Some li => (episode_num args + total_episodes) mod li =? 0
     | None => false
     end.

(** What the statements before the outer loop do. *)
Definition started (hp : Hyper) (args : Args) (s : State)
    (l : Locals) (s' : State) : Prop :=
  exists new,
    trace s' = trace s ++ new
    /\ env_is_vec_env args = true /\ env_num_envs args = 1
    /\ l = initial_locals args (obs_ l)
    /\ self s' = set_rollout_data
                   (if use_sde hp && on_policy_exploration hp
                    then Some empty_rollout_data else None) (self s)
    /\ env_results new = [] /\ selected_actions new = []
    /\ callback_returns new = [] /\ noises new = [] /\ replay_adds new = []
    /\ vf_calls new = []
    /\ count is_on_rollout_start new = 1%nat
    /\ count is_on_rollout_end new = 0%nat
    /\ count is_action_noise_reset new = 0%nat
    /\ count is_log new = 0%nat.

(** What the statements after the inner loop do. *)
Definition episode_ended (hp : Hyper) (args : Args) (l : Locals) (s : State)
    (l' : Locals) (s' : State) : Prop :=
  if done l then
    l' = count_episode l
    /\ self s' = self s
    /\ (1 <= verbose hp -> log_interval args <> Some 0)
    /\ exists logs,
         trace s' = trace s
                    ++ (if has_action_noise args then [EvActionNoiseReset] else [])
                    ++ logs
         /\ Forall (fun e => is_log e = true) logs
         /\ count is_dump_kvs logs
            = (if logs_episode hp args (total_episodes l + 1) then 1 else 0)%nat
         /\ (logs_episode hp args (total_episodes l + 1) = false -> logs = [])
  else l' = l /\ s' = s.

(** What the statements after the outer loop do. *)
Definition finished (hp : Hyper) (l : Locals) (s : State)
    (r : RolloutReturn) (s' : State) : Prop :=
  r = (if 0 <? total_episodes l then np_mean (episode_rewards l) else 0%Q,
       total_steps l, total_episodes l, Some (obs l), continue_training l)
  /\ num_timesteps (self s') = num_timesteps (self s)
  /\ ep_info_buffer (self s') = ep_info_buffer (self s)
  /\ ep_success_buffer (self s') = ep_success_buffer (self s)
  /\ match rollout_data (self s) with
     | None => rollout_data (self s') = None
     | Some rd => exists rets, rollout_data (self s') = Some (with_returns rd rets)
                               /\ length rets = length (rewards rd)
     end
  /\ exists vf,
       trace s' = trace s ++ vf ++ [EvOnRolloutEnd]
       /\ Forall (fun e => match e with EvVfNet _ _ => True | _ => False end) vf
       /\ (length vf <= 1)%nat.

(** The counters of a call against the calls it made since the state
    [s0]; [inner] tells the heads of the inner loop, where the episode
    that [done] closes is not counted yet. *)
Definition ledger (inner : bool) (args : Args) (s0 : State)
    (l : Locals) (s : State) : Prop :=
  exists evs,
    trace s = trace s0 ++ evs
    /\ total_steps l = Z.of_nat (length (env_results evs))
    /\ total_episodes l + (if inner && done l then 1 else 0)
       = Z.of_nat (done_count evs)
    /\ Z.of_nat (length (episode_rewards l)) = total_episodes l
    /\ num_timesteps (self s) = num_timesteps (self s0) + total_steps l
    /\ length (callback_returns evs) = length (env_results evs)
    /\ length (selected_actions evs) = length (env_results evs)
    /\ length (replay_adds evs)
       = (if has_replay_buffer args then length (env_results evs) else 0)%nat
    /\ length (noises evs)
       = (if has_action_noise args then length (env_results evs) else 0)%nat
    /\ count is_on_rollout_start evs = 1%nat
    /\ Z.of_nat (count is_action_noise_reset evs)
       = (if has_action_noise args then total_episodes l else 0)
    /\ continue_training l = true.

(** The counters a call returns against the calls it made. *)
Definition ledger_post (args : Args) (s0 : State)
    (r : RolloutReturn) (s : State) : Prop :=
  let '(_, ts, te, _, flag) := r in
  exists evs,
    trace s = trace s0 ++ evs
    /\ ts = Z.of_nat (length (env_results evs))
    /\ te = Z.of_nat (done_count evs)
    /\ num_timesteps (self s) = num_timesteps (self s0) + ts
    /\ length (callback_returns evs)
       = (length (env_results evs) + (if flag then 0 else 1))%nat
    /\ length (selected_actions evs) = length (env_results evs)
    /\ length (replay_adds evs)
       = (if has_replay_buffer args then length (env_results evs) else 0)%nat
    /\ length (noises evs)
       = (if has_action_noise args then length (env_results evs) else 0)%nat
    /\ count is_on_rollout_start evs = 1%nat
    /\ Z.of_nat (count is_action_noise_reset evs)
       = (if has_action_noise args then te else 0).

(** Calls that are no call of the environment, the policy, the noise
    sampler, the buffer or the callback. *)
Definition silent (tail : Trace) : Prop :=
  env_results tail = [] /\ env_actions tail = []
  /\ selected_actions tail = [] /\ callback_returns tail = []
  /\ noises tail = [] /\ replay_adds tail = []
  /\ done_count tail = 0%nat
  /\ count is_on_rollout_start tail = 0%nat
  /\ count is_on_rollout_end tail = 0%nat.

(** The calls made between the states [s] and [s'] of one run. *)
Definition calls_of (s s' : State) : Trace := drop (length (trace s)) (trace s').

(** The reward sums a run records, step by step: [recorded] are the sums
    recorded so far, [running] is the sum in progress and [k] the number of
    steps.  A step that answers [done] records the running sum; the sum
    starts again from zero after a step that answers [done] and after a
    step at or beyond a positive step budget. *)
Definition tally (args : Args) (st : list Q * Q * Z) (res : StepResult)
    : list Q * Q * Z :=
  let '(recorded, running, k) := st in
  let running := (running + step_reward res)%Q in
  let k := k + 1 in
  (if step_done res then recorded ++ [running] else recorded,
   if step_done res || ((0 <? n_steps args) && (n_steps args <=? k))
   then 0%Q else running,
   k).

Definition recorded_rewards (args : Args) (results : list StepResult) : list Q :=
  (fold_left (tally args) results ([], 0%Q, 0)).1.1.

(** What the snapshot holds of the steps of a trace, while the rollout
    runs: [o] is the current observation. *)
Definition records (hp : Hyper) (args : Args) (evs : Trace) (o : ndarray)
    (snapshot : option RolloutData) : Prop :=
  match snapshot with
  | None => use_sde hp && on_policy_exploration hp = false
  | Some rd =>
      use_sde hp && on_policy_exploration hp = true
      /\ observations rd ++ [o] = stepped_obs args evs
      /\ rewards rd = map step_reward (env_results evs)
      /\ dones rd = map step_done (env_results evs)
      /\ zip (observations rd) (values rd) = vf_calls evs
      /\ length (values rd) = length (observations rd)
  end.

(** What the snapshot holds of the steps of a trace, after the call. *)
Definition recorded (hp : Hyper) (args : Args) (evs : Trace)
    (snapshot : option RolloutData) : Prop :=
  let results := env_results evs in
  match snapshot with
  | None => use_sde hp && on_policy_exploration hp = false
  | Some rd =>
      use_sde hp && on_policy_exploration hp = true
      /\ observations rd
         = take (length results) (arg_obs args :: map step_obs results)
      /\ rewards rd = map step_reward results
      /\ dones rd = map step_done results
      /\ length (values rd) = length results
      /\ zip (observations rd) (values rd) = take (length results) (vf_calls evs)
  end.

(** The [infos] of all the steps of a trace, each with its step's [done]. *)
Definition all_reports (evs : Trace) : list (Info * bool) :=
  concat (map step_reports (env_results evs)).

(** How many of the episodes [1 .. n] of a call are logged. *)
Definition logged_episodes (hp : Hyper) (args : Args) (n : nat) : nat :=
  length (List.filter (fun k => logs_episode hp args (Z.of_nat k)) (seq 1 n)).

(** Every array of the list has the dimension of the action space. *)
Definition action_shaped (sp : Box) (xs : list ndarray) : Prop :=
  Forall (fun a => length a = length (low sp)) xs.

(** [m] never runs out of fuel: it has no loop of the environment's. *)
Definition fuel_free {A} (m : M A) : Prop :=
  forall s, fst (m s) <> OutOfFuel.

(** [ends m Q s]: run from [s], [m] does not run out of fuel, and when it
    ends normally its value and state satisfy [Q]. *)
Definition ends {A} (m : M A) (Q : A -> State -> Prop) (s : State) : Prop :=
  match m s with
  | (Normal a, s') => Q a s'
  | (OutOfFuel, _) => False
  | _ => True
  end.

(** ** Concrete collaborators and runs, for examples *)

(** An environment whose k-th step answers the observation [[k]], the
    reward [1] and [done] on every third step. *)
Definition ex_env_step (tr : Trace) (a : ndarray) : StepResult :=
  let k := Z.of_nat (S (length (env_actions tr))) in
  {| step_obs := [inject_Z k];
     step_reward := 1%Q;
     step_done := (k mod 3 =? 0);
     step_infos := [{| info_episode := None; info_is_success := None |}] |}.

(** Collaborators: the policy answers [[3]], outside the bounds below; the
    callback answers [False] at its call number [stop_at] (from 0), [None]
    before; the wrapper reports [[100 + k]] at its k-th call. *)
Definition ex_co (stop_at : option nat) : Collaborators :=
  {| callback := fun tr =>
       if decide (stop_at = Some (length (callback_returns tr)))
       then RetBool false else RetNone;
     action_space_sample := fun _ => [0%Q];
     predict := fun _ _ _ => [3%Q];
     action_noise := fun _ => [(1 # 2)%Q];
     env_step := ex_env_step;
     get_original_obs := fun tr =>
       [inject_Z (100 + Z.of_nat (length (original_obs tr)))];
     get_original_reward := fun _ => 10%Q;
     vf_net := fun _ _ => 7%Q |}.

(** A model over the action space [[-2, 2]]. *)
Definition ex_hp (sde on_policy wrapper : bool) (freq : Z) : Hyper :=
  {| action_space := {| low := [(-2)%Q]; high := [2%Q] |};
     use_sde := sde;
     sde_sample_freq := freq;
     use_sde_at_warmup := false;
     on_policy_exploration := on_policy;
     gamma := (1 # 2)%Q;
     verbose := 0;
     has_vec_normalize_env := wrapper |}.

Definition ex_args (episodes steps starts : Z) (noise buffer : bool) : Args :=
  {| env_is_vec_env := true;
     env_num_envs := 1;
     n_episodes := episodes;
     n_steps := steps;
     has_action_noise := noise;
     learning_starts := starts;
     has_replay_buffer := buffer;
     arg_obs := [0%Q];
     episode_num := 0;
     log_interval := None |}.

(** A fresh model, no call made yet. *)
Definition ex_state : State :=
  {| self := {| num_timesteps := 0; rollout_data := None;
                ep_info_buffer := []; ep_success_buffer := [] |};
     trace := [] |}.

(** A run with both budgets at one: the first episode ends at step 3. *)
Definition ex_run_budgets : Completion * State :=
  collect_rollouts (ex_co None) (ex_hp false false false (-1))
    (ex_args 1 1 0 false false) 5 ex_state.

(** A ten-step budget; the third [callback()] answers [False]. *)
Definition ex_run_stop : Completion * State :=
  collect_rollouts (ex_co (Some 2%nat)) (ex_hp false false false (-1))
    (ex_args (-1) 10 0 false false) 12 ex_state.

(** Two steps under state-dependent exploration, with a snapshot, action
    noise, a replay buffer and a normalization wrapper. *)
Definition ex_run_wrapper : Completion * State :=
  collect_rollouts (ex_co None) (ex_hp true true true 2)
    (ex_args (-1) 2 0 true true) 5 ex_state.

(** One step under state-dependent exploration, with a snapshot and a
    replay buffer: the policy's action [[3]] scales to [[3/2]], which is
    clipped to [[1]]. *)
Definition ex_run_snapshot : Completion * State :=
  collect_rollouts (ex_co None) (ex_hp true true false 2)
    (ex_args (-1) 1 0 false true) 5 ex_state.

(** Runs with [use_sde] and [sde_sample_freq = 2]: a budget of four steps
    and a budget of three steps. *)
Definition ex_run_resample4 : Completion * State :=
  collect_rollouts (ex_co None) (ex_hp true false false 2)
    (ex_args (-1) 4 0 false false) 6 ex_state.

Definition ex_run_resample3 : Completion * State :=
  collect_rollouts (ex_co None) (ex_hp true false false 2)
    (ex_args (-1) 3 0 false false) 6 ex_state.

(** A normalization wrapper but no replay buffer. *)
Definition ex_run_unbound : Completion * State :=
  collect_rollouts (ex_co None) (ex_hp false false true (-1))
    (ex_args (-1) 1 0 false false) 5 ex_state.

(** The snapshot of the spec's two-step example: rewards [1, 2], dones
    [False, True], discount factor 1/2. *)
Definition ex_rd : RolloutData :=
  {| observations := [[0%Q]; [1%Q]]; actions := [[0%Q]; [0%Q]];
     rewards := [1%Q; 2%Q]; dones := [false; true]; values := [0%Q; 1%Q];
     returns := None; advantage := None |}.

Definition ex_snapshot_state : State :=
  {| self := {| num_timesteps := 2; rollout_data := Some ex_rd;
                ep_info_buffer := []; ep_success_buffer := [] |};
     trace := [] |}.

(** The locals at the end of that rollout: the last step answered the
    observation [[2]] and [done]. *)
Definition ex_final_locals : Locals :=
  {| episode_rewards := [3%Q]; total_timesteps := [2];
     total_steps := 2; total_episodes := 1;
     obs := [2%Q]; obs_ := None; new_obs_ := None; done := true;
     episode_reward := 3%Q; episode_timesteps := 2;
     continue_training := true |}.

(** The first step of a rollout during the warm-up
    ([learning_starts = 10]). *)
Definition ex_step_warmup : Outcome Locals * State :=
  rollout_step (ex_co None) (ex_hp false false false (-1))
    (ex_args (-1) 10 10 false false)
    (initial_locals (ex_args (-1) 10 10 false false) None) ex_state.

Definition ex_locals_after_step : Locals :=
  {| episode_rewards := []; total_timesteps := [];
     total_steps := 1; total_episodes := 0;
     obs := [1%Q]; obs_ := None; new_obs_ := None; done := false;
     episode_reward := 1%Q; episode_timesteps := 1;
     continue_training := true |}.

(** Bounds [[-2, 2] x [0, 10]] and an action inside them. *)
Definition ex_box : Box := {| low := [(-2)%Q; 0%Q]; high := [2%Q; 10%Q] |}.

(** More collaborators and runs. *)

(** An environment under Monitor: every second step ends an episode and
    reports its summary and a success flag. *)
Definition ex_env_monitor (tr : Trace) (_ : ndarray) : StepResult :=
  let k := Z.of_nat (S (length (env_actions tr))) in
  let ended := k mod 2 =? 0 in
  {| step_obs := [inject_Z k];
     step_reward := 1;
     step_done := ended;
     step_infos :=
       [{| info_episode := if ended then Some {| ep_r := 2; ep_l := 2 |} else None;
           info_is_success := Some ended |}] |}.

Definition ex_co_monitor : Collaborators :=
  {| callback := fun _ => RetNone;
     action_space_sample := fun _ => [0%Q];
     predict := fun _ _ _ => [1%Q];
     action_noise := fun _ => [0%Q];
     env_step := ex_env_monitor;
     get_original_obs := fun _ => [0%Q];
     get_original_reward := fun _ => 0%Q;
     vf_net := fun _ _ => 0%Q |}.

(** A verbose model, and arguments that log every [interval] episodes. *)
Definition ex_hp_verbose : Hyper :=
  {| action_space := {| low := [(-2)%Q]; high := [2%Q] |};
     use_sde := false; sde_sample_freq := -1; use_sde_at_warmup := false;
     on_policy_exploration := false; gamma := (1 # 2)%Q; verbose := 1;
     has_vec_normalize_env := false |}.

Definition ex_args_logged (episodes steps : Z) (interval : option Z) : Args :=
  {| env_is_vec_env := true; env_num_envs := 1;
     n_episodes := episodes; n_steps := steps;
     has_action_noise := false; learning_starts := 0;
     has_replay_buffer := false; arg_obs := [0%Q];
     episode_num := 0; log_interval := interval |}.

(** Four episodes of two steps, every second one logged. *)
Definition ex_run_monitor : Completion * State :=
  collect_rollouts ex_co_monitor ex_hp_verbose
    (ex_args_logged 4 (-1) (Some 2)) 10 ex_state.

(** A log interval of zero, with a budget of one step. *)
Definition ex_run_interval0 : Completion * State :=
  collect_rollouts ex_co_monitor ex_hp_verbose
    (ex_args_logged (-1) 1 (Some 0)) 5 ex_state.

(** One episode, no step budget. *)
Definition ex_run_episode : Completion * State :=
  collect_rollouts (ex_co None) (ex_hp false false false (-1))
    (ex_args 1 (-1) 0 false false) 5 ex_state.

(** A wrapper, no buffer, and a callback that stops at once. *)
Definition ex_run_idle : Completion * State :=
  collect_rollouts (ex_co (Some 0%nat)) (ex_hp false false true (-1))
    (ex_args (-1) 1 0 false false) 5 ex_state.

(** Four environments in one vectorized environment. *)
Definition ex_args_multi : Args :=
  {| env_is_vec_env := true; env_num_envs := 4;
     n_episodes := 1; n_steps := 1;
     has_action_noise := false; learning_starts := 0;
     has_replay_buffer := false; arg_obs := [0%Q];
     episode_num := 0; log_interval := None |}.

(** A full window of episode summaries. *)
Definition ex_full : Self :=
  {| num_timesteps := 0; rollout_data := None;
     ep_info_buffer := {| ep_r := 0; ep_l := 1 |}
                       :: repeat {| ep_r := 1; ep_l := 1 |} 99;
     ep_success_buffer := [] |}.

(** A saved model that holds its environment [7], with spaces [3] and
    [4]; every environment has these spaces, and a new model holds the
    environment it is created with. *)
Definition ex_saved : gmap string Z :=
  {[ "policy_class" := 1; "env" := 7;
     "observation_space" := 3; "action_space" := 4 ]}%string.

Definition ex_construct (policy_class : Z) (env : option Z) (setup : bool)
    : gmap string Z :=
  {[ "env" := default 0 env; "n_envs" := 1 ]}%string.

Definition ex_load : LoadExn + gmap string Z :=
  load_attributes (fun _ => 3) (fun _ => 4) ex_construct ex_saved ∅ (Some 9).

Definition ex_loaded : gmap string Z :=
  match ex_load with inr model => model | inl _ => ∅ end.

(** * Lemmas and theorems *)

Lemma unscale1_scale1 (lo hi a : Q) :
  ~ (hi == lo)%Q -> (unscale1 lo hi (scale1 lo hi a) == a)%Q.
Proof.
  intros Hne. unfold unscale1, scale1.
  assert (Hd : ~ (hi - lo == 0)%Q).
  { intros H0. apply Hne. rewrite <- (Qplus_0_l lo).
    rewrite <- H0. ring. }
  field. exact Hd.
Qed.

Lemma update_info_buffer_rollout_data (xs : list (Info * bool)) :
  forall m, rollout_data (update_info_buffer xs m) = rollout_data m.
Proof.
  induction xs as [|[i d] xs IH]; intros m; [reflexivity|].
  cbn [update_info_buffer]. rewrite IH. reflexivity.
Qed.

(** ** Rules of the weakest precondition *)

Section WpRules.

Context {A : Type} (Q : A -> State -> Prop)
        (R : RolloutReturn -> State -> Prop) (s : State).

Lemma wp_ret (a : A) : Q a s -> wp (ret a) Q R s.
Proof. exact (fun H => H). Qed.

Lemma wp_bind {B} (m : M B) (k : B -> M A) :
  wp m (fun b s' => wp (k b) Q R s') R s -> wp (bind m k) Q R s.
Proof. unfold wp, bind. destruct (m s) as [[b|r|e|] s']; auto. Qed.

Lemma wp_return_ (r : RolloutReturn) : R r s -> wp (@return_ A r) Q R s.
Proof. exact (fun H => H). Qed.

Lemma wp_raise (e : Exn) : wp (@raise A e) Q R s.
Proof. exact I. Qed.

Lemma wp_out_of_fuel : wp (@out_of_fuel A) Q R s.
Proof. exact I. Qed.

Lemma wp_read_local (v : option A) :
  (forall a, v = Some a -> Q a s) -> wp (read_local v) Q R s.
Proof. destruct v; [intros H; apply H; reflexivity | intros _; exact I]. Qed.

Lemma wp_ask (answer : Trace -> A) (ev : A -> Event) :
  Q (answer (trace s))
    {| self := self s; trace := trace s ++ [ev (answer (trace s))] |} ->
  wp (ask answer ev) Q R s.
Proof. exact (fun H => H). Qed.

Lemma wp_mono (m : M A) (Q' : A -> State -> Prop)
    (R' : RolloutReturn -> State -> Prop) :
  wp m Q' R' s ->
  (forall a s', Q' a s' -> Q a s') ->
  (forall r s', R' r s' -> R r s') ->
  wp m Q R s.
Proof.
  unfold wp. destruct (m s) as [[a|r|e|] s']; auto.
Qed.

End WpRules.

Section WpUnit.

Context (Q : unit -> State -> Prop)
        (R : RolloutReturn -> State -> Prop) (s : State).

Lemma wp_tell (ev : Event) :
  Q tt {| self := self s; trace := trace s ++ [ev] |} -> wp (tell ev) Q R s.
Proof. exact (fun H => H). Qed.

Lemma wp_modify_self (f : Self -> Self) :
  Q tt {| self := f (self s); trace := trace s |} -> wp (modify_self f) Q R s.
Proof. exact (fun H => H). Qed.

Lemma wp_when (b : bool) (m : M unit) :
  (b = true -> wp m Q R s) -> (b = false -> Q tt s) -> wp (when b m) Q R s.
Proof. destruct b; intros H1 H2; [apply H1 | apply H2]; reflexivity. Qed.

Lemma wp_assert_ (b : bool) : (b = true -> Q tt s) -> wp (assert_ b) Q R s.
Proof. destruct b; intros H; [apply H; reflexivity | exact I]. Qed.

End WpUnit.

Lemma wp_get_self (Q : Self -> State -> Prop) R s :
  Q (self s) s -> wp get_self Q R s.
Proof. exact (fun H => H). Qed.

(** Symbolic execution of a monadic program under [wp]. *)
Ltac wp_step :=
  lazymatch goal with
  | |- wp (bind _ _) _ _ _ => apply wp_bind
  | |- wp (ret _) _ _ _ => apply wp_ret
  | |- wp (tell _) _ _ _ => apply wp_tell
  | |- wp (ask ?f _) _ _ ?s =>
      (* the answer becomes a variable *)
      let t := eval cbv beta in (f (trace s)) in
      let t := eval cbn [self trace] in t in
      apply wp_ask; cbv beta; cbn [self trace];
      let a := fresh "ans" in generalize t; intros a
  | |- wp get_self _ _ _ => apply wp_get_self
  | |- wp (modify_self _) _ _ _ => apply wp_modify_self
  | |- wp (return_ _) _ _ _ => apply wp_return_
  | |- wp (raise _) _ _ _ => apply wp_raise
  | |- wp out_of_fuel _ _ _ => apply wp_out_of_fuel
  | |- wp (read_local _) _ _ _ => apply wp_read_local; intros ? ?
  | |- wp (when _ _) _ _ _ => apply wp_when; intros ?
  | |- wp (assert_ _) _ _ _ => apply wp_assert_; intros ?
  | |- wp (if true then _ else _) _ _ _ => cbv iota
  | |- wp (if false then _ else _) _ _ _ => cbv iota
  | |- wp (if ?b then _ else _) _ _ _ => destruct b eqn:?
  | |- wp (match ?x with _ => _ end) _ _ _ => destruct x eqn:?
  | |- wp _ _ _ _ => first [progress cbv beta iota zeta | progress cbn [self trace]]
  | |- _ => first [progress cbv beta iota | progress cbn [self trace]]
  end; cbn [self trace].

Ltac wp_run := repeat wp_step.

(** ** Rules for the two loops *)

Section LoopRules.

Variables (co : Collaborators) (hp : Hyper) (args : Args).
Variable Inv : Locals -> State -> Prop.
Variable R : RolloutReturn -> State -> Prop.

Hypothesis Inv_start : forall l s, Inv l s -> Inv (start_episode l) s.
Hypothesis Inv_step :
  forall l s, Inv l s -> wp (rollout_step co hp args l) Inv R s.
Hypothesis Inv_end :
  forall l s, Inv l s -> wp (episode_end hp args l) Inv R s.

Lemma wp_inner_loop (fuel : nat) :
  forall l s, Inv l s -> wp (inner_loop co hp args fuel l) Inv R s.
Proof.
  induction fuel as [|fuel IH]; intros l s HI; simpl.
  - apply wp_out_of_fuel.
  - destruct (done l); simpl.
    + apply wp_ret. exact HI.
    + apply wp_bind. eapply wp_mono; [apply Inv_step; exact HI | | auto].
      intros l' s' HI'. cbv beta.
      destruct ((0 <? n_steps args) && (n_steps args <=? total_steps l')).
      * apply wp_ret. exact HI'.
      * apply IH. exact HI'.
Qed.

Lemma wp_outer_loop (fuel : nat) :
  forall l s, Inv l s ->
    wp (outer_loop co hp args fuel l)
       (fun l' s' => Inv l' s' /\ budget_unmet args l' = false) R s.
Proof.
  induction fuel as [|fuel IH]; intros l s HI.
  - apply wp_out_of_fuel.
  - cbn [outer_loop]. destruct (budget_unmet args l) eqn:Hb.
    + apply wp_bind.
      eapply wp_mono; [apply wp_inner_loop, Inv_start, HI | | auto].
      intros l1 s1 HI1. cbv beta. apply wp_bind.
      eapply wp_mono; [apply Inv_end, HI1 | | auto].
      intros l2 s2 HI2. cbv beta. apply IH, HI2.
    + apply wp_ret. split; assumption.
Qed.

End LoopRules.

(** ** Fuel

    A call that ends with some fuel ends the same way with more. *)

Section Fuel.

Variables (co : Collaborators) (hp : Hyper) (args : Args).

Lemma inner_loop_more_fuel (fuel : nat) :
  forall l s o s',
    inner_loop co hp args fuel l s = (o, s') -> o <> OutOfFuel ->
    forall fuel', (fuel <= fuel')%nat ->
      inner_loop co hp args fuel' l s = (o, s').
Proof.
  induction fuel as [|fuel IH]; intros l s o s' Hrun Ho fuel' Hle.
  - inversion Hrun; subst. congruence.
  - destruct fuel' as [|fuel']; [lia|].
    cbn [inner_loop] in *. destruct (negb (done l)); [|exact Hrun].
    unfold bind in *.
    destruct (rollout_step co hp args l s) as [[l1|r|e|] s1]; try exact Hrun.
    destruct ((0 <? n_steps args) && (n_steps args <=? total_steps l1));
      [exact Hrun|].
    apply (IH _ _ _ _ Hrun Ho). lia.
Qed.

Lemma outer_loop_more_fuel (fuel : nat) :
  forall l s o s',
    outer_loop co hp args fuel l s = (o, s') -> o <> OutOfFuel ->
    forall fuel', (fuel <= fuel')%nat ->
      outer_loop co hp args fuel' l s = (o, s').
Proof.
  induction fuel as [|fuel IH]; intros l s o s' Hrun Ho fuel' Hle.
  - inversion Hrun; subst. congruence.
  - destruct fuel' as [|fuel']; [lia|].
    cbn [outer_loop] in *. destruct (budget_unmet args l); [|exact Hrun].
    unfold bind in *.
    destruct (inner_loop co hp args (S fuel) (start_episode l) s)
      as [oi s1] eqn:Hin.
    assert (Hoi : oi <> OutOfFuel).
    { intros ->. inversion Hrun; subst. congruence. }
    rewrite (inner_loop_more_fuel _ _ _ _ _ Hin Hoi (S fuel')) by lia.
    destruct oi as [l1|r|e|]; try exact Hrun.
    destruct (episode_end hp args l1 s1) as [[l2|r|e|] s2]; try exact Hrun.
    apply (IH _ _ _ _ Hrun Ho). lia.
Qed.

Lemma collect_rollouts_more_fuel (fuel : nat) (s : State) (c : Completion)
    (s' : State) :
  collect_rollouts co hp args fuel s = (c, s') -> c <> Unfinished ->
  forall fuel', (fuel <= fuel')%nat ->
    collect_rollouts co hp args fuel' s = (c, s').
Proof.
  unfold collect_rollouts, collect_rollouts_body, bind.
  intros Hrun Hc fuel' Hle.
  destruct (rollout_start co hp args s) as [[l0|r|e|] s1]; try exact Hrun.
  destruct (outer_loop co hp args fuel l0 s1) as [oo s2] eqn:Hout.
  assert (Hoo : oo <> OutOfFuel).
  { intros ->. inversion Hrun; subst. congruence. }
  rewrite (outer_loop_more_fuel _ _ _ _ _ Hout Hoo fuel') by exact Hle.
  exact Hrun.
Qed.

End Fuel.

(** ** What the bookkeeping at the end of an episode leaves in the trace *)

Lemma omap_quiet {A} (f : Event -> option A) (evs : Trace) :
  (forall e, quiet e = true -> f e = None) -> all_quiet evs -> omap f evs = [].
Proof.
  intros Hf Hq. induction Hq as [|e evs He _ IH]; [reflexivity|].
  cbn. rewrite (Hf e He). exact IH.
Qed.

Lemma count_app (p : Event -> bool) (tr1 tr2 : Trace) :
  count p (tr1 ++ tr2) = (count p tr1 + count p tr2)%nat.
Proof. unfold count. rewrite List.filter_app, length_app. reflexivity. Qed.

Lemma count_quiet (p : Event -> bool) (evs : Trace) :
  (forall e, quiet e = true -> p e = false) -> all_quiet evs -> count p evs = 0%nat.
Proof.
  intros Hp Hq. unfold count.
  induction Hq as [|e evs He _ IH]; [reflexivity|].
  cbn [List.filter]. rewrite (Hp e He). exact IH.
Qed.

Ltac trace_norm := rewrite <- ?app_assoc; cbn [app].

Section Bookkeeping.

Variables (hp : Hyper) (args : Args).

Lemma wp_display_training_infos l (Q : unit -> State -> Prop) R s :
  (forall evs, all_quiet evs ->
     Q tt {| self := self s; trace := trace s ++ evs |}) ->
  wp (display_training_infos hp args l) Q R s.
Proof.
  intros H. destruct s as [m tr]. unfold display_training_infos.
  wp_run;
    solve [ trace_norm; apply H; repeat constructor
          | specialize (H []); rewrite app_nil_r in H; apply H; constructor ].
Qed.

Lemma wp_episode_end l (Q : Locals -> State -> Prop) R s :
  (done l = false -> Q l s) ->
  (done l = true -> forall evs, all_quiet evs ->
     Q (count_episode l) {| self := self s; trace := trace s ++ evs |}) ->
  wp (episode_end hp args l) Q R s.
Proof.
  intros Hf Ht. destruct s as [m tr]. unfold episode_end.
  destruct (done l); [|apply wp_ret, Hf; reflexivity].
  specialize (Ht eq_refl). cbv zeta.
  apply wp_bind, wp_when; intros Hn.
  - apply wp_tell, wp_bind, wp_display_training_infos. intros evs Hq.
    apply wp_ret. cbn [self trace]. rewrite <- app_assoc.
    apply Ht. constructor; [reflexivity | exact Hq].
  - apply wp_bind, wp_display_training_infos. intros evs Hq.
    apply wp_ret. apply Ht, Hq.
Qed.

End Bookkeeping.

(** ** The return recursion of the post-processing *)

Section Returns.

Variables (co : Collaborators) (hp : Hyper) (l : Locals) (rd : RolloutData).

Let T := length (rewards rd).

Lemma return_step_run (step : nat) (lr : Q) (rets : list Q) (s : State) :
  return_step co hp l rd step (lr, rets) s =
  if (step =? T - 1)%nat then
    let nv := vf_net co (trace s) (obs l) in
    let lr1 := (rewards rd !!! step + (1 - float_of_bool (done l)) * nv)%Q in
    (Normal (lr1, <[step := lr1]> rets),
     {| self := self s; trace := trace s ++ [EvVfNet (obs l) nv] |})
  else
    let lr1 := (rewards rd !!! step + gamma hp * lr
                * (1 - float_of_bool (dones rd !!! (step + 1)%nat)))%Q in
    (Normal (lr1, <[step := lr1]> rets), s).
Proof.
  unfold return_step. fold T. destruct (step =? T - 1)%nat; reflexivity.
Qed.

Lemma return_loop (k : nat) :
  forall (lr : Q) (rets : list Q) (s : State) (nv : Q),
    (k <= T)%nat ->
    length rets = T ->
    (k = T -> nv = vf_net co (trace s) (obs l)) ->
    (k < T -> rets !! k = Some lr)%nat ->
    (forall i, (k <= i < T)%nat -> return_at hp rd (done l) nv rets i) ->
    exists lr' rets' s',
      for_each (rev (seq 0 k)) (return_step co hp l rd) (lr, rets) s
        = (Normal (lr', rets'), s')
      /\ self s' = self s
      /\ trace s' = trace s ++ (if decide (k = T /\ 0 < T)%nat
                                then [EvVfNet (obs l) nv] else [])
      /\ length rets' = T
      /\ forall i, (i < T)%nat -> return_at hp rd (done l) nv rets' i.
Proof.
  induction k as [|k IH]; intros lr rets s nv Hk Hlen Hnv Hlr Htail.
  - exists lr, rets, s. cbn. repeat split; auto.
    + destruct (decide (0 = T /\ 0 < T)%nat) as [[? ?]|_]; [lia|].
      rewrite app_nil_r. reflexivity.
    + intros i Hi. apply Htail. lia.
  - rewrite seq_S, rev_app_distr. cbn [rev app Nat.add for_each].
    unfold bind at 1. rewrite return_step_run.
    destruct (k =? T - 1)%nat eqn:Hlast; cbv zeta.
    + apply Nat.eqb_eq in Hlast.
      assert (HT : S k = T) by lia.
      rewrite <- (Hnv HT).
      set (lr1 := (rewards rd !!! k + (1 - float_of_bool (done l)) * nv)%Q).
      set (s1 := {| self := self s; trace := trace s ++ [EvVfNet (obs l) nv] |}).
      destruct (IH lr1 (<[k := lr1]> rets) s1 nv) as (lr' & rets' & s' & Hrun & Hself & Htr & Hlen' & Hall).
      * lia.
      * rewrite length_insert. exact Hlen.
      * intros ->. lia.
      * intros _. apply list_lookup_insert_eq. lia.
      * intros i Hi. assert (i = k) by lia. subst i.
        unfold return_at. fold T. replace (k =? T - 1)%nat with true
          by (symmetry; apply Nat.eqb_eq; lia).
        apply list_lookup_insert_eq. lia.
      * exists lr', rets', s'. repeat split; auto.
        rewrite Htr. subst s1. cbn [trace].
        destruct (decide (k = T /\ 0 < T)%nat) as [[? ?]|_]; [lia|].
        destruct (decide (S k = T /\ 0 < T)%nat) as [_|Hn]; [|lia].
        rewrite app_nil_r. reflexivity.
    + apply Nat.eqb_neq in Hlast.
      assert (HT : (S k < T)%nat) by lia.
      set (lr1 := (rewards rd !!! k + gamma hp * lr
                   * (1 - float_of_bool (dones rd !!! (k + 1)%nat)))%Q).
      destruct (IH lr1 (<[k := lr1]> rets) s nv) as (lr' & rets' & s' & Hrun & Hself & Htr & Hlen' & Hall).
      * lia.
      * rewrite length_insert. exact Hlen.
      * intros ->. lia.
      * intros _. apply list_lookup_insert_eq. lia.
      * intros i Hi. unfold return_at. fold T.
        destruct (decide (i = k)) as [->|Hik].
        -- replace (k =? T - 1)%nat with false
             by (symmetry; apply Nat.eqb_neq; lia).
           rewrite list_lookup_insert_eq by lia.
           rewrite list_lookup_total_insert_ne by lia.
           rewrite (list_lookup_total_correct rets (k + 1)%nat lr)
             by (replace (k + 1)%nat with (S k) by lia; apply Hlr; lia).
           reflexivity.
        -- assert (Hi' : (S k <= i < T)%nat) by lia.
           specialize (Htail i Hi'). unfold return_at in Htail. fold T in Htail.
           destruct (i =? T - 1)%nat.
           ++ rewrite list_lookup_insert_ne by lia. exact Htail.
           ++ rewrite list_lookup_insert_ne by lia.
              rewrite list_lookup_total_insert_ne by lia. exact Htail.
      * exists lr', rets', s'. repeat split; auto.
        rewrite Htr.
        destruct (decide (k = T /\ 0 < T)%nat) as [[? ?]|_]; [lia|].
        destruct (decide (S k = T /\ 0 < T)%nat) as [[? ?]|_]; [lia|].
        reflexivity.
Qed.

End Returns.

Section PostProcessing.

Variables (co : Collaborators) (hp : Hyper) (l : Locals).

(** The post-processing always ends normally; on a snapshot it asks the
    value network once (when the snapshot is not empty) and stores returns
    that satisfy the recursion. *)
Lemma post_processing_run (s : State) :
  match rollout_data (self s) with
  | None => post_processing co hp l s = (Normal tt, s)
  | Some rd =>
      let nv := vf_net co (trace s) (obs l) in
      exists rets s',
        post_processing co hp l s = (Normal tt, s')
        /\ self s' = set_rollout_data (Some (with_returns rd rets)) (self s)
        /\ trace s' = trace s ++ (if decide (0 < length (rewards rd))%nat
                                  then [EvVfNet (obs l) nv] else [])
        /\ length rets = length (rewards rd)
        /\ forall i, (i < length (rewards rd))%nat ->
                     return_at hp rd (done l) nv rets i
  end.
Proof.
  destruct (rollout_data (self s)) as [rd|] eqn:Hrd;
    unfold post_processing, get_self; unfold bind at 1; cbv beta iota;
    rewrite Hrd; [|reflexivity].
  cbv zeta.
  destruct (return_loop co hp l rd (length (rewards rd)) 0%Q (rewards rd) s
              (vf_net co (trace s) (obs l)))
    as (lr' & rets' & s' & Hrun & Hself & Htr & Hlen & Hall);
    try (intros; lia); try reflexivity.
  unfold bind at 1. rewrite Hrun.
  eexists rets', _. split; [reflexivity|]. cbn [self trace].
  rewrite Hself, Htr. repeat split; auto.
  destruct (decide (0 < length (rewards rd))%nat),
           (decide (length (rewards rd) = length (rewards rd)
                    /\ 0 < length (rewards rd))%nat) as [|Hn];
    try reflexivity; try lia.
Qed.

Lemma wp_post_processing (Q : unit -> State -> Prop) R (s : State) :
  (rollout_data (self s) = None -> Q tt s) ->
  (forall rd rets,
     rollout_data (self s) = Some rd ->
     length rets = length (rewards rd) ->
     (forall i, (i < length (rewards rd))%nat ->
        return_at hp rd (done l) (vf_net co (trace s) (obs l)) rets i) ->
     Q tt {| self := set_rollout_data (Some (with_returns rd rets)) (self s);
             trace := trace s ++ (if decide (0 < length (rewards rd))%nat
                                  then [EvVfNet (obs l) (vf_net co (trace s) (obs l))]
                                  else []) |}) ->
  wp (post_processing co hp l) Q R s.
Proof.
  intros HN HS. unfold wp. pose proof (post_processing_run s) as H.
  destruct (rollout_data (self s)) as [rd|].
  - destruct H as (rets & s' & -> & Hself & Htr & Hlen & Hall).
    specialize (HS rd rets eq_refl Hlen Hall).
    destruct s' as [m' tr']. cbn [self trace] in Hself, Htr. subst. exact HS.
  - rewrite H. apply HN. reflexivity.
Qed.

End PostProcessing.

(** ** Action transform: round trip *)

Lemma over_bounds_roundtrip (lo : ndarray) :
  forall hi a,
    Forall2 Qlt lo hi -> length a = length lo ->
    Forall2 Qeq (over_bounds unscale1 lo hi (over_bounds scale1 lo hi a)) a.
Proof.
  induction lo as [|l lo IH]; intros hi a Hb Hlen.
  - destruct a; [constructor | discriminate].
  - inversion Hb as [|? h ? hi' Hlh Hb']; subst.
    destruct a as [|x a]; [discriminate|]. cbn.
    constructor.
    + apply unscale1_scale1. intros Heq. rewrite Heq in Hlh.
      exact (Qlt_irrefl _ Hlh).
    + apply IH; [exact Hb' | now inversion Hlen].
Qed.

Lemma within_length (lo : ndarray) :
  forall hi a, within lo hi a -> length a = length lo.
Proof.
  induction lo as [|l lo IH]; intros [|h hi] [|x a] H; cbn in H; try tauto.
  cbn. f_equal. apply (IH hi a). tauto.
Qed.

(** C8. For bounds with [low < high] elementwise and every action [a] with
    [low <= a <= high], [unscale_action (scale_action a)] is [a]
    (componentwise, as rationals: floating-point rounding is not
    modelled), where [scale_action] is [2*(a-low)/(high-low) - 1] and
    [unscale_action] is [low + 0.5*(n+1)*(high-low)]; both are functions of
    the bounds and the action only. *)
Theorem unscale_scale_action (sp : Box) (a : ndarray) :
  proper_bounds sp ->
  within (low sp) (high sp) a ->
  Forall2 Qeq (unscale_action sp (scale_action sp a)) a
  /\ scale_action sp a
     = over_bounds (fun lo hi x => 2 * ((x - lo) / (hi - lo)) - 1)%Q
                   (low sp) (high sp) a
  /\ (forall n, unscale_action sp n
      = over_bounds (fun lo hi x => lo + (0.5 * (x + 1) * (hi - lo)))%Q
                    (low sp) (high sp) n).
Proof.
  intros Hb Hw. split; [|split; reflexivity].
  apply over_bounds_roundtrip; [exact Hb | eapply within_length, Hw].
Qed.

(** ** Return/advantage estimator *)

(** C4. On a snapshot of length [T >= 1] the post-processing ends
    normally, asks the value network once, on the final observation, for
    [next_value], and stores returns with
    [return[T-1] = reward[T-1] + (1 - done) * next_value], [done] being the
    flag of the rollout's last step, and, for every [i < T-1],
    [return[i] = reward[i] + gamma * return[i+1] * (1 - done[i+1])]. *)
Theorem return_recursion (co : Collaborators) (hp : Hyper) (l : Locals)
    (s : State) (rd : RolloutData) :
  rollout_data (self s) = Some rd ->
  (1 <= length (rewards rd))%nat ->
  let T := length (rewards rd) in
  let next_value := vf_net co (trace s) (obs l) in
  exists (rets : list Q) (s' : State),
    post_processing co hp l s = (Normal tt, s')
    /\ trace s' = trace s ++ [EvVfNet (obs l) next_value]
    /\ (exists rd', rollout_data (self s') = Some rd'
                    /\ returns rd' = Some rets
                    /\ rewards rd' = rewards rd /\ dones rd' = dones rd)
    /\ length rets = T
    /\ rets !! (T - 1)%nat
       = Some (rewards rd !!! (T - 1)%nat
               + (1 - float_of_bool (done l)) * next_value)%Q
    /\ forall i, (i < T - 1)%nat ->
         rets !! i
         = Some (rewards rd !!! i
                 + gamma hp * (rets !!! (i + 1)%nat)
                   * (1 - float_of_bool (dones rd !!! (i + 1)%nat)))%Q.
Proof.
  intros Hrd HT T next_value.
  pose proof (post_processing_run co hp l s) as H. rewrite Hrd in H.
  destruct H as (rets & s' & Hrun & Hself & Htr & Hlen & Hall).
  exists rets, s'. split; [exact Hrun|].
  split.
  { rewrite Htr. destruct (decide (0 < length (rewards rd))%nat); [reflexivity | lia]. }
  split.
  { rewrite Hself. eexists. cbn. repeat split; reflexivity. }
  split; [exact Hlen|]. split.
  - assert (Hi : (T - 1 < length (rewards rd))%nat) by (unfold T; lia).
    specialize (Hall _ Hi). unfold return_at in Hall.
    fold T in Hall. rewrite Nat.eqb_refl in Hall. exact Hall.
  - intros i Hi.
    assert (Hi' : (i < length (rewards rd))%nat) by (unfold T in Hi; lia).
    specialize (Hall _ Hi'). unfold return_at in Hall. fold T in Hall.
    replace (i =? T - 1)%nat with false in Hall
      by (symmetry; apply Nat.eqb_neq; lia).
    exact Hall.
Qed.

(** C5. After the post-processing of a snapshot whose value estimates are
    as many as its rewards, [advantage[i] = returns[i] - values[i]] at every
    index [i], the values being those captured during collection. *)
Theorem advantage_is_return_minus_value (co : Collaborators) (hp : Hyper)
    (l : Locals) (s : State) (rd : RolloutData) :
  rollout_data (self s) = Some rd ->
  length (values rd) = length (rewards rd) ->
  exists (rets adv : list Q) (s' : State) (rd' : RolloutData),
    post_processing co hp l s = (Normal tt, s')
    /\ rollout_data (self s') = Some rd'
    /\ returns rd' = Some rets
    /\ advantage rd' = Some adv
    /\ values rd' = values rd
    /\ length rets = length (rewards rd)
    /\ length adv = length (rewards rd)
    /\ forall i, (i < length (rewards rd))%nat ->
         adv !! i = Some (rets !!! i - values rd !!! i)%Q.
Proof.
  intros Hrd Hlenv.
  pose proof (post_processing_run co hp l s) as H. rewrite Hrd in H.
  destruct H as (rets & s' & Hrun & Hself & Htr & Hlen & Hall).
  exists rets, (np_sub rets (values rd)), s', (with_returns rd rets).
  split; [exact Hrun|]. rewrite Hself. cbn.
  repeat split; auto.
  - unfold np_sub. rewrite length_zip_with. lia.
  - intros i Hi. unfold np_sub. rewrite lookup_zip_with.
    destruct (lookup_lt_is_Some_2 rets i) as [r Hr]; [lia|].
    destruct (lookup_lt_is_Some_2 (values rd) i) as [v Hv]; [lia|].
    rewrite Hr, Hv. cbn.
    rewrite (list_lookup_total_correct _ _ _ Hr).
    rewrite (list_lookup_total_correct _ _ _ Hv). reflexivity.
Qed.

(** ** A rule for the whole call *)

Section WholeRun.

Variables (co : Collaborators) (hp : Hyper) (args : Args).
Variable Inv : Locals -> State -> Prop.
Variable Post : RolloutReturn -> State -> Prop.
Variable s0 : State.

Hypothesis Inv_init : wp (rollout_start co hp args) Inv Post s0.
Hypothesis Inv_start : forall l s, Inv l s -> Inv (start_episode l) s.
Hypothesis Inv_step :
  forall l s, Inv l s -> wp (rollout_step co hp args l) Inv Post s.
Hypothesis Inv_end :
  forall l s, Inv l s -> wp (episode_end hp args l) Inv Post s.
Hypothesis Inv_final :
  forall l s, Inv l s -> budget_unmet args l = false ->
    wp (rollout_end co hp l) Post Post s.

Lemma wp_collect_rollouts_body (fuel : nat) :
  wp (collect_rollouts_body co hp args fuel) Post Post s0.
Proof.
  unfold collect_rollouts_body. apply wp_bind.
  eapply wp_mono; [exact Inv_init | | auto].
  intros l0 s1 HI. cbv beta. apply wp_bind.
  eapply wp_mono; [apply (wp_outer_loop co hp args Inv Post); eauto | | auto].
  intros l s [HI' Hb]. cbv beta. apply Inv_final; assumption.
Qed.

Lemma collect_rollouts_post (fuel : nat) (r : RolloutReturn) (s' : State) :
  collect_rollouts co hp args fuel s0 = (Returns r, s') -> Post r s'.
Proof.
  pose proof (wp_collect_rollouts_body fuel) as H.
  unfold wp in H. unfold collect_rollouts.
  destruct (collect_rollouts_body co hp args fuel s0) as [[r'|r'|e|] s1];
    intros Heq; inversion Heq; subst; exact H.
Qed.

End WholeRun.

(** ** The advantage of the snapshot a call leaves *)

Section Snapshot.
Variables (co : Collaborators) (hp : Hyper) (args : Args).

Lemma snapshot_step l s : snapshot_inv l s ->
  wp (rollout_step co hp args l) snapshot_inv snapshot_post s.
Proof.
  unfold snapshot_inv. intros Hinv. destruct s as [m tr]. cbn [self] in Hinv.
  unfold rollout_step, select_action, store_transition, append_rollout_data.
  wp_run.
  all: try (cbn; intros; discriminate).
  all: rewrite ?update_info_buffer_rollout_data in *; cbn;
       rewrite ?update_info_buffer_rollout_data.
  all: repeat match goal with
         | H : rollout_data ?x = _ |- _ => rewrite H in *
         end.
  all: rewrite ?length_app; cbn; try lia; try exact I.
Qed.

Lemma snapshot_end l s : snapshot_inv l s ->
  wp (episode_end hp args l) snapshot_inv snapshot_post s.
Proof.
  intros Hinv. apply wp_episode_end; intros; exact Hinv.
Qed.

Lemma snapshot_init s :
  wp (rollout_start co hp args) snapshot_inv snapshot_post s.
Proof.
  destruct s as [m tr]. unfold rollout_start. wp_run; exact I || reflexivity.
Qed.

Lemma snapshot_final l s : snapshot_inv l s ->
  wp (rollout_end co hp l) snapshot_post snapshot_post s.
Proof.
  unfold snapshot_inv. intros Hinv. destruct s as [m tr]. cbn [self] in Hinv.
  unfold rollout_end. cbv zeta. apply wp_bind, wp_post_processing; cbn [self trace].
  - intros Hrd. wp_run. intros _ rd Hrd'. cbn in Hrd'. congruence.
  - intros rd rets Hrd Hlen Hall. rewrite Hrd in Hinv. wp_run.
    intros _ rd' [= <-]. cbn.
    exists rets, (np_sub rets (values rd)). repeat split; try lia.
    + unfold np_sub. rewrite length_zip_with. lia.
    + intros i Hi. unfold np_sub. rewrite lookup_zip_with.
      destruct (lookup_lt_is_Some_2 rets i) as [r Hr]; [lia|].
      destruct (lookup_lt_is_Some_2 (values rd) i) as [v Hv]; [lia|].
      rewrite Hr, Hv. cbn.
      rewrite (list_lookup_total_correct _ _ _ Hr).
      rewrite (list_lookup_total_correct _ _ _ Hv). reflexivity.
Qed.

End Snapshot.

(** After a call that returns without having been stopped, the snapshot,
    if one was accumulated, has [advantage[i] = returns[i] - values[i]] at
    every index. *)
Lemma advantage_after_rollout (co : Collaborators) (hp : Hyper) (args : Args)
    (fuel : nat) (s : State) (mean_reward : Q) (ts te : Z)
    (o : option ndarray) (s' : State) (rd : RolloutData) :
  collect_rollouts co hp args fuel s
    = (Returns (mean_reward, ts, te, o, true), s') ->
  rollout_data (self s') = Some rd ->
  exists rets adv,
    returns rd = Some rets /\ advantage rd = Some adv
    /\ length rets = length (values rd)
    /\ length adv = length (values rd)
    /\ forall i, (i < length (values rd))%nat ->
         adv !! i = Some (rets !!! i - values rd !!! i)%Q.
Proof.
  intros Hrun Hrd.
  apply (collect_rollouts_post co hp args snapshot_inv snapshot_post) in Hrun.
  - exact (Hrun eq_refl rd Hrd).
  - apply snapshot_init.
  - intros l st H. exact H.
  - apply snapshot_step.
  - apply snapshot_end.
  - intros l st H _. apply snapshot_final, H.
Qed.

(** ** Steps, callback answers and hooks of a call that returns *)

Section Counting.
Variables (co : Collaborators) (hp : Hyper) (args : Args).
Variable tr0 : Trace.

Ltac counting_unfold :=
  unfold never_False, env_actions, callback_returns, last_obs, env_results,
         count, unprocessed, processed in *;
  rewrite ?update_info_buffer_rollout_data in *;
  rewrite ?omap_app, ?List.filter_app, ?length_app, ?map_app, ?last_app;
  cbn;
  rewrite ?update_info_buffer_rollout_data in *.

Lemma counting_step l s : counting_inv args tr0 l s ->
  wp (rollout_step co hp args l) (counting_inv args tr0)
     (counting_post args tr0) s.
Proof.
  intros (evs & Htr & Hts & Hct & Hnf & Hce & Hun & Hobs).
  destruct s as [m tr]. cbn [trace self] in *. subst tr.
  unfold rollout_step, select_action, store_transition, append_rollout_data.
  wp_run.
  1: { destruct ans as [|[|]]; try discriminate.
       exists (evs ++ [EvCallback (RetBool false)]).
       split; [trace_norm; reflexivity|]. counting_unfold.
       rewrite Nat.add_0_r. repeat split; try assumption.
       - lia.
       - exists evs. split; [reflexivity | exact Hnf]. }
  all: eexists; (split; [trace_norm; reflexivity|]).
  all: counting_unfold.
  all: repeat split; try assumption; try lia; try reflexivity.
  all: try (apply Forall_app; split; [assumption | repeat constructor; assumption]).
  all: try match goal with
           | H : rollout_data ?m = _, H' : context [rollout_data ?m] |- _ =>
               rewrite H in H'; tauto
           end.
Qed.

Lemma counting_start l s : counting_inv args tr0 l s -> counting_inv args tr0 (start_episode l) s.
Proof. intros H. exact H. Qed.

Lemma counting_end l s : counting_inv args tr0 l s ->
  wp (episode_end hp args l) (counting_inv args tr0)
     (counting_post args tr0) s.
Proof.
  intros (evs & Htr & Hts & Hct & Hnf & Hce & Hun & Hobs).
  apply wp_episode_end.
  - intros _. exists evs. repeat split; assumption.
  - intros _ evs' Hq. exists (evs ++ evs'). cbn [self trace].
    split; [rewrite Htr, app_assoc; reflexivity|].
    unfold never_False, env_actions, callback_returns, last_obs, env_results in *.
    rewrite !omap_app, count_app.
    rewrite !(omap_quiet _ evs') by (assumption || (intros [] ?; (discriminate || reflexivity))).
    rewrite (count_quiet is_on_rollout_end evs') by (assumption || (intros [] ?; (discriminate || reflexivity))).
    rewrite !app_nil_r. cbn. repeat split; try assumption. lia.
Qed.

Lemma counting_init (s : State) : trace s = tr0 ->
  wp (rollout_start co hp args) (counting_inv args tr0)
     (counting_post args tr0) s.
Proof.
  intros Htr. destruct s as [m tr]. cbn [trace] in Htr. subst tr.
  unfold rollout_start. wp_run.
  all: eexists; (split; [trace_norm; reflexivity|]).
  all: unfold never_False, unprocessed; cbn; repeat split; try reflexivity;
       try constructor.
Qed.

Lemma counting_final l s : counting_inv args tr0 l s -> budget_unmet args l = false ->
  wp (rollout_end co hp l) (counting_post args tr0)
     (counting_post args tr0) s.
Proof.
  intros (evs & Htr & Hts & Hct & Hnf & Hce & Hun & Hobs) Hb.
  destruct s as [m tr]. cbn [trace self] in *. subst tr.
  unfold budget_unmet in Hb. apply orb_false_iff in Hb as [Hb1 Hb2].
  apply Z.ltb_ge in Hb1, Hb2.
  unfold rollout_end. cbv zeta. apply wp_bind, wp_post_processing; cbn [self trace].
  - intros Hrd. wp_run. rewrite Hct.
    exists (evs ++ [EvOnRolloutEnd]). split; [trace_norm; reflexivity|].
    counting_unfold. rewrite Hrd. repeat split; auto; try lia.
    + apply Forall_app; split; [assumption | constructor].
    + rewrite Hobs. reflexivity.
  - intros rd rets Hrd Hlen Hall. wp_run. rewrite Hct.
    eexists. split; [trace_norm; reflexivity|].
    counting_unfold.
    destruct (decide (0 < length (rewards rd))%nat); cbn;
      rewrite ?app_nil_r; repeat split; eauto; try lia;
      rewrite Hobs; reflexivity.
Qed.

End Counting.

(** What a call that returns has done, read off its trace. *)
Lemma run_summary (co : Collaborators) (hp : Hyper) (args : Args)
    (fuel : nat) (s : State) (r : RolloutReturn) (s' : State) :
  collect_rollouts co hp args fuel s = (Returns r, s') ->
  counting_post args (trace s) r s'.
Proof.
  apply (collect_rollouts_post co hp args (counting_inv args (trace s))).
  - apply counting_init. reflexivity.
  - apply counting_start.
  - apply counting_step.
  - apply counting_end.
  - apply counting_final.
Qed.

Lemma outer_loop_exit (co : Collaborators) (hp : Hyper) (args : Args)
    (fuel : nat) (l : Locals) (s : State) (l' : Locals) (s' : State) :
  outer_loop co hp args fuel l s = (Normal l', s') ->
  budget_unmet args l' = false.
Proof.
  intros Hrun.
  pose proof (wp_outer_loop co hp args (fun _ _ => True) (fun _ _ => True)) as H.
  specialize (H (fun _ _ _ => I)).
  assert (Hs : forall l s, True -> wp (rollout_step co hp args l) (fun _ _ => True) (fun _ _ => True) s).
  { intros l1 s1 _. unfold wp. destruct (rollout_step co hp args l1 s1) as [[]]; exact I. }
  assert (He : forall l s, True -> wp (episode_end hp args l) (fun _ _ => True) (fun _ _ => True) s).
  { intros l1 s1 _. unfold wp. destruct (episode_end hp args l1 s1) as [[]]; exact I. }
  specialize (H Hs He fuel l s I). unfold wp in H. rewrite Hrun in H. apply H.
Qed.

(** C1. With budgets [n_steps > 0] and [n_episodes > 0], the outer loop
    runs while [total_steps < n_steps] or [total_episodes < n_episodes]:
    it is left only with both budgets met, and a call that returns on the
    normal path (continue-training flag [True]) returns counts with
    [total_steps >= n_steps] and [total_episodes >= n_episodes]. *)
Theorem both_budgets_met (co : Collaborators) (hp : Hyper) (args : Args) :
  0 < n_steps args ->
  0 < n_episodes args ->
  (forall l, budget_unmet args l = true <->
             total_steps l < n_steps args \/ total_episodes l < n_episodes args)
  /\ (forall fuel l s l' s',
        outer_loop co hp args fuel l s = (Normal l', s') ->
        n_steps args <= total_steps l' /\ n_episodes args <= total_episodes l')
  /\ (forall fuel s mean_reward ts te o s',
        collect_rollouts co hp args fuel s
          = (Returns (mean_reward, ts, te, o, true), s') ->
        n_steps args <= ts /\ n_episodes args <= te).
Proof.
  intros _ _. split; [|split].
  - intros l. unfold budget_unmet. rewrite orb_true_iff, !Z.ltb_lt. tauto.
  - intros fuel l s l' s' Hrun. apply outer_loop_exit in Hrun.
    unfold budget_unmet in Hrun. apply orb_false_iff in Hrun as [H1 H2].
    apply Z.ltb_ge in H1, H2. split; assumption.
  - intros fuel s mean_reward ts te o s' Hrun.
    apply run_summary in Hrun. destruct Hrun as (evs & _ & _ & H).
    tauto.
Qed.

Lemma rollout_step_stop (co : Collaborators) (hp : Hyper) (args : Args)
    (l : Locals) (s : State) :
  callback co (trace s) = RetBool false ->
  rollout_step co hp args l s
  = (Returned (0%Q, total_steps l, total_episodes l, None, false),
     {| self := self s; trace := trace s ++ [EvCallback (RetBool false)] |}).
Proof.
  intros H. unfold rollout_step, bind at 1, ask at 1. cbv zeta.
  rewrite H. reflexivity.
Qed.

Lemma rollout_step_continue (co : Collaborators) (hp : Hyper) (args : Args)
    (l : Locals) (s : State) (r : RolloutReturn) (s' : State) :
  rollout_step co hp args l s = (Returned r, s') ->
  callback co (trace s) = RetBool false.
Proof.
  intros Hrun.
  destruct (callback co (trace s)) as [|[|]] eqn:Hcb; [exfalso|exfalso|reflexivity].
  all: assert (Hwp : wp (rollout_step co hp args l) (fun _ _ => True)
                        (fun _ _ => False) s);
    [|unfold wp in Hwp; rewrite Hrun in Hwp; exact Hwp].
  all: unfold rollout_step; apply wp_bind; unfold wp at 1, ask at 1; cbv zeta;
    rewrite Hcb; cbn [is_False];
    unfold select_action, store_transition, append_rollout_data;
    wp_run; exact I.
Qed.

Lemma inner_loop_stop (co : Collaborators) (hp : Hyper) (args : Args)
    (fuel : nat) (l : Locals) (s : State) :
  done l = false ->
  callback co (trace s) = RetBool false ->
  inner_loop co hp args (S fuel) l s
  = (Returned (0%Q, total_steps l, total_episodes l, None, false),
     {| self := self s; trace := trace s ++ [EvCallback (RetBool false)] |}).
Proof.
  intros Hd Hcb. cbn [inner_loop]. rewrite Hd. cbn [negb]. unfold bind.
  rewrite (rollout_step_stop co hp args l s Hcb). reflexivity.
Qed.

Lemma outer_loop_stop (co : Collaborators) (hp : Hyper) (args : Args)
    (fuel : nat) (l : Locals) (s : State) :
  budget_unmet args l = true ->
  callback co (trace s) = RetBool false ->
  outer_loop co hp args (S fuel) l s
  = (Returned (0%Q, total_steps l, total_episodes l, None, false),
     {| self := self s; trace := trace s ++ [EvCallback (RetBool false)] |}).
Proof.
  intros Hb Hcb. cbn [outer_loop]. rewrite Hb. unfold bind.
  rewrite (inner_loop_stop co hp args fuel (start_episode l) s eq_refl Hcb).
  reflexivity.
Qed.

(** C7. For a call that returns, [total_steps] is the number of
    [env.step] calls it made; its flag is [False] only when its last call
    is a [callback()] that answered [False], no earlier one having done so
    (then the reward slot is [0.0] and the observation slot [None]), and
    [True] otherwise, no [callback()] having answered [False].  At the head
    of either loop, when [callback()] answers [False] the call returns at
    once [(0.0, total_steps, total_episodes, None, False)], the callback's
    being its last call; an answer of [None] or [True] never makes a step
    return. *)
Theorem callback_stop (co : Collaborators) (hp : Hyper) (args : Args)
    (fuel : nat) (s : State) (mean_reward : Q) (ts te : Z)
    (o : option ndarray) (flag : bool) (s' : State) :
  collect_rollouts co hp args fuel s
    = (Returns (mean_reward, ts, te, o, flag), s') ->
  (exists evs,
      trace s' = trace s ++ evs
      /\ ts = Z.of_nat (length (env_actions evs))
      /\ if flag then never_False evs
         else mean_reward = 0%Q /\ o = None
              /\ exists pre, evs = pre ++ [EvCallback (RetBool false)]
                             /\ never_False pre)
  /\ (forall n l st,
        callback co (trace st) = RetBool false ->
        let stopped :=
          (@Returned Locals
             (0%Q, total_steps l, total_episodes l, None, false),
           {| self := self st;
              trace := trace st ++ [EvCallback (RetBool false)] |}) in
        rollout_step co hp args l st = stopped
        /\ (done l = false -> inner_loop co hp args (S n) l st = stopped)
        /\ (budget_unmet args l = true ->
            outer_loop co hp args (S n) l st = stopped))
  /\ (forall l st r st',
        rollout_step co hp args l st = (Returned r, st') ->
        callback co (trace st) = RetBool false).
Proof.
  intros Hrun. split; [|split].
  - apply run_summary in Hrun. destruct Hrun as (evs & Htr & Hts & H).
    exists evs. split; [exact Htr|]. split; [exact Hts|].
    destruct flag; [tauto|].
    destruct H as (Hm & Ho & _ & _ & Hpre). auto.
  - intros n l st Hcb. cbv zeta. split; [|split].
    + apply rollout_step_stop, Hcb.
    + intros Hd. apply inner_loop_stop; assumption.
    + intros Hb. apply outer_loop_stop; assumption.
  - intros l st r st'. apply rollout_step_continue.
Qed.

(** C10. A call that the callback stops (flag [False]: its last call is
    the [callback()] that answered [False]) has not called
    [callback.on_rollout_end()], leaves the snapshot, if any, without
    returns and advantage, and returns [None] for the observation; a call
    that returns otherwise (flag [True], no [callback()] answered [False])
    has called [on_rollout_end()] exactly once, has post-processed the
    snapshot, if any, and returns the last observation. *)
Theorem stop_skips_rollout_end (co : Collaborators) (hp : Hyper) (args : Args)
    (fuel : nat) (s : State) (mean_reward : Q) (ts te : Z)
    (o : option ndarray) (flag : bool) (s' : State) :
  collect_rollouts co hp args fuel s
    = (Returns (mean_reward, ts, te, o, flag), s') ->
  exists evs,
    trace s' = trace s ++ evs
    /\ if flag then
         never_False evs
         /\ count is_on_rollout_end evs = 1%nat
         /\ processed (self s')
         /\ o = Some (last_obs (arg_obs args) evs)
       else
         last evs = Some (EvCallback (RetBool false))
         /\ count is_on_rollout_end evs = 0%nat
         /\ unprocessed (self s')
         /\ o = None.
Proof.
  intros Hrun. apply run_summary in Hrun.
  destruct Hrun as (evs & Htr & Hts & H).
  exists evs. split; [exact Htr|].
  destruct flag; [tauto|].
  destruct H as (Hm & Ho & Hc & Hu & pre & -> & Hpre).
  rewrite last_snoc. auto.
Qed.

(** ** The actions applied, replayed and recorded *)

Lemma env_actions_app tr1 tr2 :
  env_actions (tr1 ++ tr2) = env_actions tr1 ++ env_actions tr2.
Proof. apply omap_app. Qed.
Lemma env_results_app tr1 tr2 :
  env_results (tr1 ++ tr2) = env_results tr1 ++ env_results tr2.
Proof. apply omap_app. Qed.
Lemma selected_actions_app tr1 tr2 :
  selected_actions (tr1 ++ tr2) = selected_actions tr1 ++ selected_actions tr2.
Proof. apply omap_app. Qed.
Lemma noises_app tr1 tr2 : noises (tr1 ++ tr2) = noises tr1 ++ noises tr2.
Proof. apply omap_app. Qed.
Lemma replay_adds_app tr1 tr2 :
  replay_adds (tr1 ++ tr2) = replay_adds tr1 ++ replay_adds tr2.
Proof. apply omap_app. Qed.
Lemma replay_actions_app tr1 tr2 :
  replay_actions (tr1 ++ tr2) = replay_actions tr1 ++ replay_actions tr2.
Proof. apply omap_app. Qed.
Lemma original_obs_app tr1 tr2 :
  original_obs (tr1 ++ tr2) = original_obs tr1 ++ original_obs tr2.
Proof. apply omap_app. Qed.
Lemma original_rewards_app tr1 tr2 :
  original_rewards (tr1 ++ tr2) = original_rewards tr1 ++ original_rewards tr2.
Proof. apply omap_app. Qed.
Lemma callback_returns_app tr1 tr2 :
  callback_returns (tr1 ++ tr2) = callback_returns tr1 ++ callback_returns tr2.
Proof. apply omap_app. Qed.

Ltac trace_app :=
  rewrite ?env_actions_app, ?env_results_app, ?selected_actions_app,
    ?noises_app, ?replay_adds_app, ?replay_actions_app, ?original_obs_app,
    ?original_rewards_app, ?callback_returns_app.

Lemma applied_actions_app hp args evs new :
  (has_action_noise args = true ->
   length (selected_actions evs) = length (noises evs)) ->
  applied_actions hp args (evs ++ new)
  = applied_actions hp args evs ++ applied_actions hp args new.
Proof.
  intros Hlen. unfold applied_actions.
  rewrite selected_actions_app, noises_app.
  destruct (has_action_noise args).
  - apply zip_with_app, Hlen. reflexivity.
  - apply map_app.
Qed.

Section Actions.
Variables (co : Collaborators) (hp : Hyper) (args : Args).
Variable tr0 : Trace.

Lemma actions_step l s : actions_inv hp args tr0 l s ->
  wp (rollout_step co hp args l) (actions_inv hp args tr0)
     (fun _ => actions_post hp args tr0) s.
Proof.
  intros (evs & Htr & Hlen & Henv & Hbuf & Hsnap).
  destruct s as [m tr]. cbn [trace self] in *. subst tr.
  unfold rollout_step, select_action, store_transition, append_rollout_data.
  wp_run.
  all: eexists; (split; [trace_norm; reflexivity|]).
  all: rewrite ?applied_actions_app by (intros; first [congruence | auto]).
  all: trace_app.
  all: rewrite ?map_app, ?length_app, ?Henv.
  all: repeat match goal with
         | H : has_action_noise _ = _ |- _ => rewrite H in *
         | H : has_replay_buffer _ = _ |- _ => rewrite H in *
         end.
  all: cbn.
  all: repeat match goal with
         | H : has_action_noise _ = _ |- _ => rewrite H
         end.
  all: try match goal with
         | |- context [if has_action_noise ?a then _ else _] =>
             destruct (has_action_noise a)
         end.
  all: cbn.
  all: rewrite ?app_nil_r; rewrite ?update_info_buffer_rollout_data in *.
  all: repeat split; intros; auto; try congruence.
  all: try (rewrite Hbuf by auto; reflexivity).
  all: try match goal with
         | H : Some _ = Some ?rd |- _ =>
             injection H as <-; cbn; erewrite Hsnap by eassumption; reflexivity
         end.
Qed.

Lemma actions_end l s : actions_inv hp args tr0 l s ->
  wp (episode_end hp args l) (actions_inv hp args tr0)
     (fun _ => actions_post hp args tr0) s.
Proof.
  intros (evs & Htr & Hlen & Henv & Hbuf & Hsnap).
  assert (Hq : forall evs', all_quiet evs' ->
            selected_actions evs' = [] /\ noises evs' = []
            /\ env_actions evs' = [] /\ replay_actions evs' = []).
  { intros evs' Hq. repeat split; apply omap_quiet; try assumption;
      intros [] ?; (discriminate || reflexivity). }
  apply wp_episode_end.
  - intros _. exists evs. repeat split; assumption.
  - intros _ evs' Hq'. destruct (Hq evs' Hq') as (Hs & Hn & He & Hr).
    assert (Ha : applied_actions hp args evs' = []).
    { unfold applied_actions. rewrite Hs, Hn. destruct (has_action_noise args); reflexivity. }
    exists (evs ++ evs'). cbn [self trace].
    split; [rewrite Htr, app_assoc; reflexivity|].
    rewrite applied_actions_app by assumption. trace_app.
    rewrite Hs, Hn, He, Hr, Ha, !app_nil_r. repeat split; assumption.
Qed.

Lemma actions_init (s : State) : trace s = tr0 ->
  wp (rollout_start co hp args) (actions_inv hp args tr0)
     (fun _ => actions_post hp args tr0) s.
Proof.
  intros Htr. destruct s as [m tr]. cbn [trace] in Htr. subst tr.
  unfold rollout_start. wp_run.
  all: eexists; (split; [trace_norm; reflexivity|]).
  all: cbn; destruct (has_action_noise args); cbn; repeat split; intros;
       try reflexivity; try discriminate.
  all: match goal with H : Some _ = Some _ |- _ => injection H as <- end;
       reflexivity.
Qed.

Lemma actions_final l s : actions_inv hp args tr0 l s ->
  wp (rollout_end co hp l) (fun _ => actions_post hp args tr0)
     (fun _ => actions_post hp args tr0) s.
Proof.
  intros (evs & Htr & Hlen & Henv & Hbuf & Hsnap).
  destruct s as [m tr]. cbn [trace self] in *. subst tr.
  assert (Hq : forall v, applied_actions hp args [EvVfNet (obs l) v] = []).
  { intros v. cbn. destruct (has_action_noise args); reflexivity. }
  unfold rollout_end. cbv zeta. apply wp_bind, wp_post_processing; cbn [self trace].
  - intros Hrd. wp_run.
    exists (evs ++ [EvOnRolloutEnd]). split; [trace_norm; reflexivity|].
    rewrite applied_actions_app by assumption. trace_app. cbn.
    destruct (has_action_noise args); cbn; rewrite !app_nil_r;
      repeat split; auto.
  - intros rd rets Hrd Hlenr Hall. wp_run.
    eexists. split; [trace_norm; reflexivity|].
    rewrite applied_actions_app by assumption. trace_app.
    destruct (decide (0 < length (rewards rd))%nat); cbn;
      destruct (has_action_noise args); cbn; rewrite ?app_nil_r;
      repeat split; auto; intros rd' [= <-]; cbn; auto.
Qed.

End Actions.

(** C2, as the code has it. Over a call that returns: [env.step] receives
    the unscaled applied actions; [replay_buffer.add] receives the applied
    (normalized, clipped, noise included) actions themselves; the snapshot's
    [actions] are the scaled selected actions, before clipping and before
    the action noise. *)
Theorem stored_actions (co : Collaborators) (hp : Hyper) (args : Args)
    (fuel : nat) (s : State) (r : RolloutReturn) (s' : State) :
  collect_rollouts co hp args fuel s = (Returns r, s') ->
  exists evs,
    trace s' = trace s ++ evs
    /\ env_actions evs
       = map (unscale_action (action_space hp)) (applied_actions hp args evs)
    /\ (has_replay_buffer args = true ->
        replay_actions evs = applied_actions hp args evs)
    /\ (forall rd, rollout_data (self s') = Some rd ->
        actions rd
        = map (scale_action (action_space hp)) (selected_actions evs)).
Proof.
  apply (collect_rollouts_post co hp args
           (actions_inv hp args (trace s)) (fun _ => actions_post hp args (trace s))).
  - apply actions_init. reflexivity.
  - intros l st H. exact H.
  - apply actions_step.
  - apply actions_end.
  - intros l st H _. apply actions_final, H.
Qed.

(** ** Warm-up and policy sampling *)

Lemma warming_up_iff (hp : Hyper) (args : Args) (m : Self) :
  (num_timesteps m <? learning_starts args)
  && negb (use_sde hp && use_sde_at_warmup hp) = true
  <-> warming_up hp args m.
Proof.
  unfold warming_up.
  rewrite andb_true_iff, negb_true_iff, andb_false_iff, Z.ltb_lt.
  destruct (use_sde hp), (use_sde_at_warmup hp); intuition congruence.
Qed.

(** C6. In a step that completes, when [num_timesteps < learning_starts]
    and not ([use_sde] and [use_sde_at_warmup]), the action is the answer
    [a] of one call of [action_space.sample()] and [predict] is not called;
    otherwise the action is the answer [a] of one call of [predict], on the
    current observation, with [deterministic = not use_sde], and
    [action_space.sample()] is not called.  That answer is the action of
    the step: [env.step] receives it scaled, clipped, perturbed by the
    noise drawn in the step (if any) and unscaled, the replay buffer
    receives it scaled, clipped and perturbed, and the snapshot, when it is
    kept, receives it scaled. *)
Theorem warmup_or_policy (co : Collaborators) (hp : Hyper) (args : Args)
    (l : Locals) (s : State) (l' : Locals) (s' : State) :
  rollout_step co hp args l s = (Normal l', s') ->
  exists evs a noise,
    trace s' = trace s ++ evs
    /\ (warming_up hp args (self s) ->
        predictions evs = [] /\ samples evs = [a])
    /\ (~ warming_up hp args (self s) ->
        samples evs = []
        /\ predictions evs = [(obs l, negb (use_sde hp), a)])
    /\ noises evs = match noise with Some n => [n] | None => [] end
    /\ (has_action_noise args = true <-> is_Some noise)
    /\ env_actions evs
       = [unscale_action (action_space hp) (clipped_action_of hp a noise)]
    /\ (has_replay_buffer args = true ->
        replay_actions evs = [clipped_action_of hp a noise])
    /\ (forall rd, rollout_data (self s') = Some rd ->
        last (actions rd) = Some (scale_action (action_space hp) a)).
Proof.
  intros Hrun.
  assert (Hwp : wp (rollout_step co hp args l)
                   (fun _ s' => exists evs a noise,
                      trace s' = trace s ++ evs
                      /\ (warming_up hp args (self s) ->
                          predictions evs = [] /\ samples evs = [a])
                      /\ (~ warming_up hp args (self s) ->
                          samples evs = []
                          /\ predictions evs = [(obs l, negb (use_sde hp), a)])
                      /\ noises evs = match noise with Some n => [n] | None => [] end
                      /\ (has_action_noise args = true <-> is_Some noise)
                      /\ env_actions evs
                         = [unscale_action (action_space hp)
                              (clipped_action_of hp a noise)]
                      /\ (has_replay_buffer args = true ->
                          replay_actions evs = [clipped_action_of hp a noise])
                      /\ (forall rd, rollout_data (self s') = Some rd ->
                          last (actions rd)
                          = Some (scale_action (action_space hp) a)))
                   (fun _ _ => True) s);
    [|unfold wp in Hwp; rewrite Hrun in Hwp; exact Hwp].
  clear Hrun. destruct s as [m tr].
  unfold rollout_step, select_action, store_transition, append_rollout_data.
  wp_run; try exact I.
  all: cbn [self trace].
  all: lazymatch goal with
       | |- context [EvSample ?a] => pose (act := a)
       | |- context [EvPredict _ _ ?a] => pose (act := a)
       end.
  all: lazymatch goal with
       | |- context [EvActionNoise ?n] => pose (nz := Some n)
       | |- _ => pose (nz := @None ndarray)
       end.
  all: eexists; exists act, nz; subst act nz;
       (split; [trace_norm; reflexivity|]).
  all: match goal with
       | H : _ && negb _ = true |- _ => apply warming_up_iff in H
       | H : _ && negb _ = false |- _ =>
           apply not_true_iff_false in H; rewrite warming_up_iff in H
       end.
  all: unfold clipped_action_of;
       rewrite ?update_info_buffer_rollout_data in *;
       repeat match goal with
              | H : ?x = true |- context [?x] => rewrite H
              | H : ?x = false |- context [?x] => rewrite H
              end.
  all: cbn; repeat apply conj; try reflexivity;
       try (intros Hw; try contradiction; split; reflexivity).
  all: rewrite ?update_info_buffer_rollout_data in *.
  all: try solve [intros _; eauto].
  all: try solve [intros [? ?]; discriminate].
  all: try solve [intros rd [= <-]; cbn; apply last_snoc].
  all: try solve [intros; discriminate].
  all: intros rd Hrd; congruence.
Qed.

(** ** What the replay buffer receives *)

Lemma replay_transitions_app tr1 tr2 :
  replay_transitions (tr1 ++ tr2)
  = replay_transitions tr1 ++ replay_transitions tr2.
Proof. apply omap_app. Qed.

Lemma length_consecutive {A} (xs : list A) :
  length (consecutive xs) = pred (length xs).
Proof.
  unfold consecutive. rewrite length_zip_with.
  destruct xs; [reflexivity|]. cbn [tail length pred]. apply Nat.min_r. lia.
Qed.

Lemma consecutive_snoc {A} (xs : list A) (y x : A) :
  last xs = Some y -> consecutive (xs ++ [x]) = consecutive xs ++ [(y, x)].
Proof.
  unfold consecutive. induction xs as [|a xs IH]; [discriminate|].
  destruct xs as [|b xs]; cbn.
  - intros [= ->]. reflexivity.
  - intros Hl. cbn in IH. rewrite IH by exact Hl. reflexivity.
Qed.

Lemma length_stepped_obs args evs :
  length (stepped_obs args evs) = S (length (env_results evs)).
Proof. unfold stepped_obs. cbn. rewrite length_map. reflexivity. Qed.

Lemma stepped_obs_app args evs new :
  stepped_obs args (evs ++ new)
  = stepped_obs args evs ++ map step_obs (env_results new).
Proof. unfold stepped_obs. rewrite env_results_app, map_app. reflexivity. Qed.

Lemma zip_snoc {A B} (xs : list A) (ys : list B) x y :
  length xs = length ys -> zip (xs ++ [x]) (ys ++ [y]) = zip xs ys ++ [(x, y)].
Proof. intros H. apply (zip_with_app pair xs [x] ys [y] H). Qed.

Section Replay.
Variables (co : Collaborators) (hp : Hyper) (args : Args).
Variable tr0 : Trace.

Lemma replay_step l s : replay_inv hp args tr0 l s ->
  wp (rollout_step co hp args l) (replay_inv hp args tr0)
     (fun _ => replay_post hp args tr0) s.
Proof.
  intros (evs & Htr & Hnone & Hwrap & Hraw).
  destruct s as [m tr]. cbn [trace self] in *. subst tr.
  unfold rollout_step, select_action, store_transition, append_rollout_data.
  wp_run.
  all: eexists; (split; [trace_norm; reflexivity|]).
  all: rewrite ?stepped_obs_app; trace_app;
       rewrite ?replay_transitions_app, ?map_app; cbn; rewrite ?app_nil_r.
  all: repeat split; intros; try congruence; auto.
  all: try (destruct Hwrap as (Hlast & Hlen & Htrans); [reflexivity..|]).
  all: try (destruct Hraw as (Hlast & Htrans); [reflexivity..|]).
  all: try solve [apply Hwrap; assumption | apply Hraw; assumption].
  all: try solve [rewrite last_snoc; congruence].
  all: try solve [rewrite !length_app; cbn; lia].
  all: try solve
         [ erewrite consecutive_snoc by (rewrite Hlast; eassumption);
           rewrite zip_snoc by (rewrite length_consecutive; lia);
           rewrite Htrans; reflexivity ].
  all: try solve
         [ erewrite consecutive_snoc by eassumption;
           rewrite zip_snoc
             by (rewrite length_consecutive, length_stepped_obs, length_map;
                 reflexivity);
           rewrite Htrans; reflexivity ].
  Qed.

Lemma replay_end l s : replay_inv hp args tr0 l s ->
  wp (episode_end hp args l) (replay_inv hp args tr0)
     (fun _ => replay_post hp args tr0) s.
Proof.
  intros (evs & Htr & Hnone & Hwrap & Hraw).
  apply wp_episode_end.
  - intros _. exists evs. auto.
  - intros _ evs' Hq.
    assert (Hz : replay_adds evs' = [] /\ replay_transitions evs' = []
                 /\ original_obs evs' = [] /\ original_rewards evs' = []
                 /\ env_results evs' = []).
    { repeat split; apply omap_quiet; try assumption;
        intros [] ?; (discriminate || reflexivity). }
    destruct Hz as (Ha & Ht & Ho & Hr & He).
    exists (evs ++ evs'). cbn [self trace].
    split; [rewrite Htr, app_assoc; reflexivity|].
    rewrite stepped_obs_app. trace_app. rewrite replay_transitions_app.
    rewrite Ha, Ht, Ho, Hr, He. cbn [map]. rewrite !app_nil_r. auto.
Qed.

Lemma replay_init (s : State) : trace s = tr0 ->
  wp (rollout_start co hp args) (replay_inv hp args tr0)
     (fun _ => replay_post hp args tr0) s.
Proof.
  intros Htr. destruct s as [m tr]. cbn [trace] in Htr. subst tr.
  unfold rollout_start. wp_run.
  all: eexists; (split; [trace_norm; reflexivity|]).
  all: cbn; repeat split; intros; try reflexivity; try congruence.
Qed.

Lemma replay_final l s : replay_inv hp args tr0 l s ->
  wp (rollout_end co hp l) (fun _ => replay_post hp args tr0)
     (fun _ => replay_post hp args tr0) s.
Proof.
  intros (evs & Htr & Hnone & Hwrap & Hraw).
  destruct s as [m tr]. cbn [trace self] in *. subst tr.
  unfold rollout_end. cbv zeta. apply wp_bind, wp_post_processing; cbn [self trace].
  - intros Hrd. wp_run.
    exists (evs ++ [EvOnRolloutEnd]). split; [trace_norm; reflexivity|].
    rewrite stepped_obs_app. trace_app. rewrite replay_transitions_app. cbn.
    rewrite !app_nil_r.
    split; [exact Hnone|]. split; intros Hb Hw; [apply Hwrap | apply Hraw]; assumption.
  - intros rd rets Hrd Hlenr Hall. wp_run.
    eexists. split; [trace_norm; reflexivity|].
    rewrite stepped_obs_app. trace_app. rewrite replay_transitions_app.
    destruct (decide (0 < length (rewards rd))%nat); cbn; rewrite !app_nil_r;
      (split; [exact Hnone|]);
      split; intros Hb Hw; [apply Hwrap | apply Hraw | apply Hwrap | apply Hraw];
      assumption.
Qed.

End Replay.


(** ** Witnesses, a counterexample and examples *)

Lemma both_budgets_met_witness :
  0 < n_steps (ex_args 1 1 0 false false)
  /\ 0 < n_episodes (ex_args 1 1 0 false false)
  /\ ex_run_budgets
     = (Returns (1%Q, 3, 1, Some [3%Q], true), snd ex_run_budgets)
  /\ n_steps (ex_args 1 1 0 false false) <= 3
  /\ n_episodes (ex_args 1 1 0 false false) <= 1.
Proof.
  split; [reflexivity|]. split; [reflexivity|].
  split; [vm_compute; reflexivity|].
  apply (proj2 (proj2 (both_budgets_met (ex_co None)
                         (ex_hp false false false (-1))
                         (ex_args 1 1 0 false false) eq_refl eq_refl))
           5%nat ex_state 1%Q 3 1 (Some [3%Q]) (snd ex_run_budgets)).
  vm_compute. reflexivity.
Defined.

Lemma callback_stop_witness :
  ex_run_stop = (Returns (0%Q, 2, 0, None, false), snd ex_run_stop)
  /\ exists evs,
       trace (snd ex_run_stop) = trace ex_state ++ evs
       /\ 2 = Z.of_nat (length (env_actions evs))
       /\ 0%Q = 0%Q /\ @None ndarray = None
       /\ exists pre, evs = pre ++ [EvCallback (RetBool false)]
                      /\ never_False pre.
Proof.
  split; [vm_compute; reflexivity|].
  refine (proj1 (callback_stop (ex_co (Some 2%nat))
                   (ex_hp false false false (-1))
                   (ex_args (-1) 10 0 false false) 12 ex_state
                   0%Q 2 0 None false (snd ex_run_stop) _)).
  vm_compute. reflexivity.
Defined.

Lemma stop_skips_rollout_end_witness :
  ex_run_stop = (Returns (0%Q, 2, 0, None, false), snd ex_run_stop)
  /\ exists evs,
       trace (snd ex_run_stop) = trace ex_state ++ evs
       /\ last evs = Some (EvCallback (RetBool false))
       /\ count is_on_rollout_end evs = 0%nat
       /\ unprocessed (self (snd ex_run_stop))
       /\ @None ndarray = None.
Proof.
  split; [vm_compute; reflexivity|].
  apply (stop_skips_rollout_end (ex_co (Some 2%nat))
           (ex_hp false false false (-1)) (ex_args (-1) 10 0 false false)
           12 ex_state 0%Q 2 0 None false (snd ex_run_stop)).
  vm_compute. reflexivity.
Defined.


Lemma stored_actions_witness :
  ex_run_snapshot = (Returns (0%Q, 1, 0, Some [1%Q], true), snd ex_run_snapshot)
  /\ exists evs,
       trace (snd ex_run_snapshot) = trace ex_state ++ evs
       /\ env_actions evs
          = map (unscale_action (action_space (ex_hp true true false 2)))
                (applied_actions (ex_hp true true false 2)
                   (ex_args (-1) 1 0 false true) evs)
       /\ (true = true ->
           replay_actions evs
           = applied_actions (ex_hp true true false 2)
               (ex_args (-1) 1 0 false true) evs)
       /\ (forall rd, rollout_data (self (snd ex_run_snapshot)) = Some rd ->
           actions rd
           = map (scale_action (action_space (ex_hp true true false 2)))
                 (selected_actions evs)).
Proof.
  split; [vm_compute; reflexivity|].
  apply (stored_actions (ex_co None) (ex_hp true true false 2)
           (ex_args (-1) 1 0 false true) 5 ex_state
           (0%Q, 1, 0, Some [1%Q], true) (snd ex_run_snapshot)).
  vm_compute. reflexivity.
Defined.

(** C2, as the claim states it, fails: in this run the environment is
    stepped with the unscaled [[1]] and the replay buffer stores [[1]], but
    the snapshot stores [[3/2]], the scaled action before clipping. *)
Lemma snapshot_stores_unclipped_action :
  ex_run_snapshot = (Returns (0%Q, 1, 0, Some [1%Q], true), snd ex_run_snapshot)
  /\ env_actions (trace (snd ex_run_snapshot))
     = [unscale_action (action_space (ex_hp true true false 2)) [1%Q]]
  /\ replay_actions (trace (snd ex_run_snapshot)) = [[1%Q]]
  /\ exists rd,
       rollout_data (self (snd ex_run_snapshot)) = Some rd
       /\ actions rd = [[(6 # 4)%Q]]
       /\ (1 < 6 # 4)%Q
       /\ actions rd <> replay_actions (trace (snd ex_run_snapshot)).
Proof.
  split; [vm_compute; reflexivity|].
  split; [vm_compute; reflexivity|].
  split; [vm_compute; reflexivity|].
  eexists. split; [vm_compute; reflexivity|].
  split; [reflexivity|]. split; [reflexivity|].
  vm_compute. discriminate.
Qed.

(** The test that resamples the noise inside the loop reads the budget
    [n_steps], a constant of the call: a step that completes resamples
    once or not at all according to the model's settings and the budget
    alone, whatever the running counts. *)
Lemma step_resamples (co : Collaborators) (hp : Hyper) (args : Args)
    (l : Locals) (s : State) (l' : Locals) (s' : State) :
  rollout_step co hp args l s = (Normal l', s') ->
  exists evs,
    trace s' = trace s ++ evs
    /\ count is_reset_noise evs
       = if use_sde hp && (0 <? sde_sample_freq hp)
            && (n_steps args mod sde_sample_freq hp =? 0)
         then 1%nat else 0%nat.
Proof.
  intros Hrun.
  assert (Hwp : wp (rollout_step co hp args l)
                   (fun _ s' => exists evs,
                      trace s' = trace s ++ evs
                      /\ count is_reset_noise evs
                         = if use_sde hp && (0 <? sde_sample_freq hp)
                              && (n_steps args mod sde_sample_freq hp =? 0)
                           then 1%nat else 0%nat)
                   (fun _ _ => True) s);
    [|unfold wp in Hwp; rewrite Hrun in Hwp; exact Hwp].
  clear Hrun. destruct s as [m tr].
  unfold rollout_step, select_action, store_transition, append_rollout_data.
  wp_run; try exact I.
  all: eexists; (split; [trace_norm; reflexivity|]).
  all: match goal with
       | H : _ && _ && _ = _ |- _ => rewrite H
       end; reflexivity.
Qed.

(** C3 fails on the code: with [sde_sample_freq = 2] and a budget
    [n_steps = 4] the noise is resampled before every one of the four
    steps, at the running counts 0, 1, 2, 3; with a budget [n_steps = 3] it
    is never resampled inside the loop, although the rollout passes the
    running counts 0 and 2. *)
Lemma resample_test_reads_the_budget :
  fst ex_run_resample4 = Returns (3%Q, 4, 1, Some [4%Q], true)
  /\ resample_points 0 false (trace (snd ex_run_resample4)) = [0; 1; 2; 3]%nat
  /\ fst ex_run_resample3 = Returns (3%Q, 3, 1, Some [3%Q], true)
  /\ resample_points 0 false (trace (snd ex_run_resample3)) = []
  /\ count is_reset_noise (trace (snd ex_run_resample3)) = 1%nat.
Proof. vm_compute. repeat split; reflexivity. Qed.

Lemma return_recursion_witness :
  rollout_data (self ex_snapshot_state) = Some ex_rd
  /\ (1 <= length (rewards ex_rd))%nat
  /\ exists (rets : list Q) (s' : State),
       post_processing (ex_co None) (ex_hp true true false 2) ex_final_locals
         ex_snapshot_state = (Normal tt, s')
       /\ rets !! 1%nat = Some (2 + (1 - float_of_bool true) * 7)%Q
       /\ rets !! 0%nat
          = Some (1 + (1 # 2) * (rets !!! 1%nat) * (1 - float_of_bool true))%Q.
Proof.
  split; [reflexivity|]. split; [cbn; lia|].
  destruct (return_recursion (ex_co None) (ex_hp true true false 2)
              ex_final_locals ex_snapshot_state ex_rd eq_refl)
    as (rets & s' & Hrun & _ & _ & _ & Hlast & Hrec); [cbn; lia|].
  exists rets, s'. split; [exact Hrun|]. split; [exact Hlast|].
  apply (Hrec 0%nat). cbn. lia.
Defined.

(** On the spec's two-step example the code computes the returns [1, 2]:
    [done[1]] cuts the bootstrap of index 0. *)
Example return_chain_example :
  exists s' rd rets adv,
    post_processing (ex_co None) (ex_hp true true false 2) ex_final_locals
      ex_snapshot_state = (Normal tt, s')
    /\ rollout_data (self s') = Some rd
    /\ returns rd = Some rets /\ Forall2 Qeq rets [1%Q; 2%Q]
    /\ advantage rd = Some adv /\ Forall2 Qeq adv [1%Q; 1%Q].
Proof.
  eexists _, _, _, _. split; [vm_compute; reflexivity|].
  split; [reflexivity|]. split; [reflexivity|].
  split; [repeat constructor|]. split; [reflexivity|]. repeat constructor.
Qed.

Lemma advantage_is_return_minus_value_witness :
  rollout_data (self ex_snapshot_state) = Some ex_rd
  /\ length (values ex_rd) = length (rewards ex_rd)
  /\ exists (rets adv : list Q) (s' : State) (rd' : RolloutData),
       post_processing (ex_co None) (ex_hp true true false 2) ex_final_locals
         ex_snapshot_state = (Normal tt, s')
       /\ rollout_data (self s') = Some rd'
       /\ returns rd' = Some rets
       /\ advantage rd' = Some adv
       /\ values rd' = values ex_rd
       /\ length rets = length (rewards ex_rd)
       /\ length adv = length (rewards ex_rd)
       /\ forall i, (i < length (rewards ex_rd))%nat ->
            adv !! i = Some (rets !!! i - values ex_rd !!! i)%Q.
Proof.
  split; [reflexivity|]. split; [reflexivity|].
  apply (advantage_is_return_minus_value (ex_co None) (ex_hp true true false 2)
           ex_final_locals ex_snapshot_state ex_rd eq_refl eq_refl).
Defined.

Lemma warmup_or_policy_witness :
  ex_step_warmup = (Normal ex_locals_after_step, snd ex_step_warmup)
  /\ exists evs a noise,
       trace (snd ex_step_warmup) = trace ex_state ++ evs
       /\ (warming_up (ex_hp false false false (-1))
             (ex_args (-1) 10 10 false false) (self ex_state) ->
           predictions evs = [] /\ samples evs = [a])
       /\ (~ warming_up (ex_hp false false false (-1))
               (ex_args (-1) 10 10 false false) (self ex_state) ->
           samples evs = []
           /\ predictions evs
              = [(obs (initial_locals (ex_args (-1) 10 10 false false) None),
                  negb (use_sde (ex_hp false false false (-1))), a)])
       /\ noises evs = match noise with Some n => [n] | None => [] end
       /\ (has_action_noise (ex_args (-1) 10 10 false false) = true
           <-> is_Some noise)
       /\ env_actions evs
          = [unscale_action (action_space (ex_hp false false false (-1)))
               (clipped_action_of (ex_hp false false false (-1)) a noise)]
       /\ (has_replay_buffer (ex_args (-1) 10 10 false false) = true ->
           replay_actions evs
           = [clipped_action_of (ex_hp false false false (-1)) a noise])
       /\ (forall rd, rollout_data (self (snd ex_step_warmup)) = Some rd ->
           last (actions rd)
           = Some (scale_action
                     (action_space (ex_hp false false false (-1))) a)).
Proof.
  split; [vm_compute; reflexivity|].
  apply (warmup_or_policy (ex_co None) (ex_hp false false false (-1))
           (ex_args (-1) 10 10 false false)
           (initial_locals (ex_args (-1) 10 10 false false) None) ex_state
           ex_locals_after_step (snd ex_step_warmup)).
  vm_compute. reflexivity.
Defined.

Lemma unscale_scale_action_witness :
  proper_bounds ex_box
  /\ within (low ex_box) (high ex_box) [1%Q; 5%Q]
  /\ Forall2 Qeq (unscale_action ex_box (scale_action ex_box [1%Q; 5%Q]))
             [1%Q; 5%Q].
Proof.
  assert (Hb : proper_bounds ex_box) by (repeat constructor).
  assert (Hw : within (low ex_box) (high ex_box) [1%Q; 5%Q])
    by (cbn; repeat split; discriminate).
  split; [exact Hb|]. split; [exact Hw|].
  exact (proj1 (unscale_scale_action ex_box [1%Q; 5%Q] Hb Hw)).
Defined.

(** With a normalization wrapper and no replay buffer, [new_obs_] is
    never bound: the first step raises at [obs_ = new_obs_], after the
    environment was stepped. *)
Example wrapper_without_buffer_raises :
  fst ex_run_unbound = Raises UnboundLocalError
  /\ length (env_actions (trace (snd ex_run_unbound))) = 1%nat
  /\ replay_adds (trace (snd ex_run_unbound)) = []
  /\ count is_on_rollout_end (trace (snd ex_run_unbound)) = 0%nat.
Proof. vm_compute. repeat split; reflexivity. Qed.

(** * Further properties of the code *)

(** ** Rules for the two loops, with what each head knows *)

Section LoopRulesAt.

Variables (co : Collaborators) (hp : Hyper) (args : Args).
(** At the head of the outer loop, at the head of the inner loop, and
    after a step. *)
Variables InvO InvI InvS : Locals -> State -> Prop.
Variable R : RolloutReturn -> State -> Prop.

Hypothesis At_start :
  forall l s, InvO l s -> budget_unmet args l = true ->
              InvI (start_episode l) s.
Hypothesis At_step :
  forall l s, InvI l s -> done l = false ->
              wp (rollout_step co hp args l) InvS R s.
Hypothesis At_next :
  forall l s, InvS l s -> budget_break args l = false -> InvI l s.
Hypothesis At_done :
  forall l s, InvI l s -> done l = true ->
              wp (episode_end hp args l) InvO R s.
Hypothesis At_break :
  forall l s, InvS l s -> budget_break args l = true ->
              wp (episode_end hp args l) InvO R s.

Lemma wp_inner_loop_at (fuel : nat) :
  forall l s, InvI l s ->
    wp (inner_loop co hp args fuel l)
       (fun l' s' => wp (episode_end hp args l') InvO R s') R s.
Proof.
  induction fuel as [|fuel IH]; intros l s HI; cbn [inner_loop].
  - apply wp_out_of_fuel.
  - destruct (done l) eqn:Hd; cbn [negb].
    + apply wp_ret. apply At_done; assumption.
    + apply wp_bind. eapply wp_mono; [apply At_step; assumption | | auto].
      intros l' s' HS. cbv beta. fold (budget_break args l').
      destruct (budget_break args l') eqn:Hb.
      * apply wp_ret. apply At_break; assumption.
      * apply IH. apply At_next; assumption.
Qed.

Lemma wp_outer_loop_at (fuel : nat) :
  forall l s, InvO l s ->
    wp (outer_loop co hp args fuel l)
       (fun l' s' => InvO l' s' /\ budget_unmet args l' = false) R s.
Proof.
  induction fuel as [|fuel IH]; intros l s HI.
  - apply wp_out_of_fuel.
  - cbn [outer_loop]. destruct (budget_unmet args l) eqn:Hb.
    + apply wp_bind.
      eapply wp_mono; [apply wp_inner_loop_at, At_start; assumption | | auto].
      intros l1 s1 H1. cbv beta. apply wp_bind.
      eapply wp_mono; [exact H1 | | auto].
      intros l2 s2 H2. cbv beta. apply IH, H2.
    + apply wp_ret. split; assumption.
Qed.

Variable Post : RolloutReturn -> State -> Prop.
Variable s0 : State.
Hypothesis R_Post : forall r s, R r s -> Post r s.
Hypothesis At_init : wp (rollout_start co hp args) InvO R s0.
Hypothesis At_final :
  forall l s, InvO l s -> budget_unmet args l = false ->
    wp (rollout_end co hp l) Post Post s.

Lemma collect_rollouts_post_at (fuel : nat) (r : RolloutReturn) (s' : State) :
  collect_rollouts co hp args fuel s0 = (Returns r, s') -> Post r s'.
Proof.
  assert (H : wp (collect_rollouts_body co hp args fuel) Post Post s0).
  { unfold collect_rollouts_body. apply wp_bind.
    eapply wp_mono; [exact At_init | | exact R_Post].
    intros l0 s1 HI. cbv beta. apply wp_bind.
    eapply wp_mono; [apply wp_outer_loop_at, HI | | exact R_Post].
    intros l s [HI' Hb]. cbv beta. apply At_final; assumption. }
  unfold wp in H. unfold collect_rollouts.
  destruct (collect_rollouts_body co hp args fuel s0) as [[r'|r'|e|] s1];
    intros Heq; inversion Heq; subst; exact H.
Qed.

End LoopRulesAt.

(** ** Action transform: ranges and the other round trip *)

Lemma scale1_range (lo hi a : Q) :
  (lo < hi)%Q -> (lo <= a)%Q -> (a <= hi)%Q ->
  (-1 <= scale1 lo hi a)%Q /\ (scale1 lo hi a <= 1)%Q.
Proof.
  intros Hb Hl Hh. unfold scale1.
  assert (Hd : (0 < hi - lo)%Q) by lra.
  assert (H0 : (0 <= (a - lo) / (hi - lo))%Q)
    by (apply Qle_shift_div_l; [exact Hd | lra]).
  assert (H1 : ((a - lo) / (hi - lo) <= 1)%Q)
    by (apply Qle_shift_div_r; [exact Hd | lra]).
  split; lra.
Qed.

Lemma scale1_low (lo hi : Q) : (lo < hi)%Q -> (scale1 lo hi lo == -1)%Q.
Proof. intros Hb. unfold scale1. field. lra. Qed.

Lemma scale1_high (lo hi : Q) : (lo < hi)%Q -> (scale1 lo hi hi == 1)%Q.
Proof. intros Hb. unfold scale1. field. lra. Qed.

Lemma scale1_unscale1 (lo hi n : Q) :
  (lo < hi)%Q -> (scale1 lo hi (unscale1 lo hi n) == n)%Q.
Proof. intros Hb. unfold scale1, unscale1. field. lra. Qed.

Lemma scale1_increasing (lo hi a b : Q) :
  (lo < hi)%Q -> (a <= b)%Q -> (scale1 lo hi a <= scale1 lo hi b)%Q.
Proof.
  intros Hb Hab. unfold scale1.
  assert (Hd : (0 < hi - lo)%Q) by lra.
  assert ((a - lo) / (hi - lo) <= (b - lo) / (hi - lo))%Q.
  { unfold Qdiv. apply Qmult_le_compat_r; [lra|].
    apply Qlt_le_weak, Qinv_lt_0_compat, Hd. }
  lra.
Qed.

(** X1. [scale_action] maps the bounds onto [[-1, 1]]: for bounds with
    [low < high] elementwise and an action with [low <= a <= high], every
    component of [scale_action a] lies in [[-1, 1]] and the result has the
    length of the action; [low] is mapped to [-1] and [high] to [1],
    componentwise. *)
Theorem scale_action_range (sp : Box) (a : ndarray) :
  proper_bounds sp ->
  within (low sp) (high sp) a ->
  normalized (scale_action sp a)
  /\ length (scale_action sp a) = length a
  /\ Forall (fun x => x == -1)%Q (scale_action sp (low sp))
  /\ Forall (fun x => x == 1)%Q (scale_action sp (high sp)).
Proof.
  unfold proper_bounds, scale_action, normalized.
  destruct sp as [lo hi]. cbn [low high]. intros Hb. revert a.
  induction Hb as [|l h lo hi Hlh Hb IH]; intros [|x a] Hw; cbn in Hw |- *;
    try tauto.
  - repeat split; constructor.
  - destruct Hw as (Hl & Hh & Hw). destruct (IH a Hw) as (I1 & I2 & I3 & I4).
    repeat split.
    + constructor; [apply scale1_range; assumption | exact I1].
    + f_equal. exact I2.
    + constructor; [apply scale1_low; assumption | exact I3].
    + constructor; [apply scale1_high; assumption | exact I4].
Qed.

(** X3. [scale_action (unscale_action n)] is [n] (componentwise, as
    rationals) for bounds with [low < high] elementwise and every array
    [n] of the dimension of the space, inside [[-1, 1]] or not. *)
Theorem scale_unscale_action (sp : Box) (n : ndarray) :
  proper_bounds sp ->
  length n = length (low sp) ->
  Forall2 Qeq (scale_action sp (unscale_action sp n)) n.
Proof.
  unfold proper_bounds, unscale_action, scale_action.
  destruct sp as [lo hi]. cbn [low high]. intros Hb. revert n.
  induction Hb as [|l h lo hi Hlh Hb IH]; intros [|x n] Hlen;
    cbn in Hlen |- *; try discriminate; constructor.
  - apply scale1_unscale1, Hlh.
  - apply IH. lia.
Qed.

(** ** Episode statistics: the windows *)

Lemma window_short {A} (xs : list A) : (length xs <= 100)%nat -> window xs = xs.
Proof.
  intros H. unfold window. replace (length xs - 100)%nat with 0%nat by lia.
  reflexivity.
Qed.

Lemma length_window {A} (xs : list A) : (length (window xs) <= 100)%nat.
Proof. unfold window. rewrite length_drop. lia. Qed.

Lemma deque_append_window {A} (d : list A) (x : A) :
  deque_append (window d) x = window (d ++ [x]).
Proof.
  unfold deque_append, window. cbv zeta.
  rewrite !length_app, length_drop. cbn [length].
  destruct (100 <? _)%nat eqn:H.
  - apply Nat.ltb_lt in H. rewrite drop_app_le by (rewrite length_drop; lia).
    rewrite drop_drop. rewrite drop_app_le by lia.
    do 2 f_equal. lia.
  - apply Nat.ltb_ge in H. rewrite drop_app_le by lia.
    replace (length d - 100)%nat with 0%nat by lia.
    replace (length d + 1 - 100)%nat with 0%nat by lia. reflexivity.
Qed.

Lemma update_info_buffer_window (xs : list (Info * bool)) :
  forall (m : Self) (eps : list EpInfo) (succ : list bool),
    ep_info_buffer m = window eps ->
    ep_success_buffer m = window succ ->
    let m' := update_info_buffer xs m in
    ep_info_buffer m' = window (eps ++ reported_episodes xs)
    /\ ep_success_buffer m' = window (succ ++ reported_successes xs)
    /\ num_timesteps m' = num_timesteps m
    /\ rollout_data m' = rollout_data m.
Proof.
  induction xs as [|[info d] xs IH]; intros m eps succ He Hs; cbv zeta.
  - cbn. rewrite !app_nil_r. auto.
  - cbn [update_info_buffer].
    set (m1 := Build_Self _ _ _ _).
    assert (He1 : ep_info_buffer m1
                  = window (eps ++ reported_episodes [(info, d)])).
    { subst m1. cbn. destruct (info_episode info); cbn.
      - rewrite He. apply deque_append_window.
      - rewrite app_nil_r. exact He. }
    assert (Hs1 : ep_success_buffer m1
                  = window (succ ++ reported_successes [(info, d)])).
    { subst m1. cbn. destruct (info_is_success info), d; cbn;
        rewrite ?app_nil_r, ?Hs; auto using @deque_append_window. }
    destruct (IH m1 _ _ He1 Hs1) as (I1 & I2 & I3 & I4).
    change ((info, d) :: xs) with ([(info, d)] ++ xs).
    unfold reported_episodes, reported_successes in *.
    rewrite !omap_app, !app_assoc.
    repeat split; assumption.
Qed.

(** ** [safe_mean], the progress and [save] *)

Lemma np_sum_bounds (lo hi : Q) (arr : list Q) :
  Forall (fun x => (lo <= x)%Q /\ (x <= hi)%Q) arr ->
  (inject_Z (Z.of_nat (length arr)) * lo <= fold_right Qplus 0 arr)%Q
  /\ (fold_right Qplus 0 arr <= inject_Z (Z.of_nat (length arr)) * hi)%Q.
Proof.
  induction 1 as [|x arr [Hl Hh] _ [IH1 IH2]].
  - change (inject_Z (Z.of_nat (length (@nil Q)))) with 0%Q. cbn [fold_right].
    split; lra.
  - cbn [length fold_right]. rewrite Nat2Z.inj_succ. unfold Z.succ.
    rewrite inject_Z_plus. change (inject_Z 1) with 1%Q. split; lra.
Qed.

(** The mean of a non-empty array lies between bounds of its entries, in
    exact arithmetic. *)
Lemma safe_mean_between (arr : list Q) (lo hi : Q) :
  Forall (fun x => (lo <= x)%Q /\ (x <= hi)%Q) arr ->
  match safe_mean arr with
  | None => arr = []
  | Some r => arr <> [] /\ (lo <= r)%Q /\ (r <= hi)%Q
  end.
Proof.
  intros Hall. unfold safe_mean, np_mean.
  destruct (length arr =? 0)%nat eqn:Hn.
  - apply Nat.eqb_eq in Hn. destruct arr; [reflexivity | discriminate].
  - apply Nat.eqb_neq in Hn.
    destruct (np_sum_bounds lo hi arr Hall) as [H1 H2].
    assert (Hpos : (0 < inject_Z (Z.of_nat (length arr)))%Q).
    { change 0%Q with (inject_Z 0). rewrite <- Zlt_Qlt. lia. }
    split; [intros ->; apply Hn; reflexivity|]. split.
    + apply Qle_shift_div_l; [exact Hpos|]. rewrite Qmult_comm. exact H1.
    + apply Qle_shift_div_r; [exact Hpos|]. rewrite Qmult_comm. exact H2.
Qed.

Lemma sum_flags (flags : list bool) :
  (fold_right Qplus 0 (map float_of_bool flags)
   == inject_Z (Z.of_nat (length (List.filter id flags))))%Q.
Proof.
  induction flags as [|b flags IH]; [reflexivity|].
  cbn [map fold_right List.filter]. rewrite IH.
  destruct b; cbn [float_of_bool id length].
  - rewrite Nat2Z.inj_succ. unfold Z.succ. rewrite inject_Z_plus.
    change (inject_Z 1) with 1%Q. ring.
  - ring.
Qed.

Section RoundingFacts.

Variable rnd : Q -> Q.
Hypothesis Hrnd : is_rounding rnd.

Lemma rnd_le (x y : Q) : (x <= y)%Q -> (rnd x <= rnd y)%Q.
Proof. apply Hrnd. Qed.

Lemma rnd_proper (x y : Q) : (x == y)%Q -> (rnd x == rnd y)%Q.
Proof.
  intros H. apply Qle_antisym; apply rnd_le; rewrite H; apply Qle_refl.
Qed.

Lemma rnd_0 : (rnd 0 == 0)%Q.
Proof. apply (proj2 Hrnd 0). apply Z.leb_le. reflexivity. Qed.

Lemma rnd_1 : (rnd 1 == 1)%Q.
Proof. apply (proj2 Hrnd 1). apply Z.leb_le. reflexivity. Qed.

Lemma rnd_m1 : (rnd (-1) == -1)%Q.
Proof. apply (proj2 Hrnd (-1)). apply Z.leb_le. reflexivity. Qed.

Lemma float_ge_1 (z : Z) : 1 <= z -> (1 <= rnd (inject_Z z))%Q.
Proof.
  intros H. apply Qle_trans with (rnd 1).
  - rewrite rnd_1. apply Qle_refl.
  - apply rnd_le. change 1%Q with (inject_Z 1). rewrite <- Zle_Qle. exact H.
Qed.

Lemma float_le_m1 (z : Z) : z <= -1 -> (rnd (inject_Z z) <= -1)%Q.
Proof.
  intros H. apply Qle_trans with (rnd (-1)).
  - apply rnd_le. change (-1)%Q with (inject_Z (-1)). rewrite <- Zle_Qle.
    exact H.
  - rewrite rnd_m1. apply Qle_refl.
Qed.

Lemma float_zero (z : Z) : Qeq_bool (rnd (inject_Z z)) 0 = (z =? 0).
Proof.
  destruct (Z.eqb_spec z 0) as [->|Hz].
  - apply Qeq_bool_iff. exact rnd_0.
  - destruct (Qeq_bool (rnd (inject_Z z)) 0) eqn:E; [|reflexivity].
    apply Qeq_bool_iff in E. exfalso.
    destruct (Z.le_gt_cases 1 z) as [Hp|Hn].
    + pose proof (float_ge_1 z Hp). lra.
    + assert (Hm : z <= -1) by lia. pose proof (float_le_m1 z Hm). lra.
Qed.

Lemma progress_cases (num_timesteps total_timesteps : Z) :
  update_current_progress rnd num_timesteps total_timesteps
  = if (float_max_int <=? Z.abs num_timesteps)
       || (float_max_int <=? Z.abs total_timesteps)
    then inl ProgressOverflowError
    else if total_timesteps =? 0 then inl ProgressZeroDivisionError
    else inr (rnd (1 - rnd (rnd (inject_Z num_timesteps)
                            / rnd (inject_Z total_timesteps))))%Q.
Proof.
  unfold update_current_progress, float_of_int.
  destruct (float_max_int <=? Z.abs num_timesteps); [reflexivity|].
  destruct (float_max_int <=? Z.abs total_timesteps); [reflexivity|].
  cbn [orb]. rewrite float_zero. reflexivity.
Qed.

Lemma quotient_range (a b : Q) :
  (0 <= a)%Q -> (a <= b)%Q -> (0 < b)%Q ->
  (0 <= rnd (a / b))%Q /\ (rnd (a / b) <= 1)%Q.
Proof.
  intros Ha Hab Hb. split.
  - apply Qle_trans with (rnd 0); [rewrite rnd_0; apply Qle_refl|].
    apply rnd_le. apply Qle_shift_div_l; [exact Hb | lra].
  - apply Qle_trans with (rnd 1); [|rewrite rnd_1; apply Qle_refl].
    apply rnd_le. apply Qle_shift_div_r; [exact Hb | lra].
Qed.

Lemma complement_range (q : Q) :
  (0 <= q)%Q -> (q <= 1)%Q ->
  (0 <= rnd (1 - q))%Q /\ (rnd (1 - q) <= 1)%Q.
Proof.
  intros H0 H1. split.
  - apply Qle_trans with (rnd 0); [rewrite rnd_0; apply Qle_refl|].
    apply rnd_le. lra.
  - apply Qle_trans with (rnd 1); [|rewrite rnd_1; apply Qle_refl].
    apply rnd_le. lra.
Qed.

End RoundingFacts.

Lemma unscale1_rounded_ge (rnd : Q -> Q) (lo hi n : Q) :
  is_rounding rnd -> (rnd lo == lo)%Q -> (lo <= hi)%Q -> (-1 <= n)%Q ->
  (lo <= unscale1_rounded rnd lo hi n)%Q.
Proof.
  intros Hrnd Hlo Hb Hn. unfold unscale1_rounded.
  assert (Hpos : forall x, (0 <= x)%Q -> (0 <= rnd x)%Q).
  { intros x Hx. apply Qle_trans with (rnd 0%Q);
      [rewrite (rnd_0 rnd Hrnd); apply Qle_refl | apply (rnd_le rnd Hrnd), Hx]. }
  assert (H1 : (0 <= rnd (n + 1))%Q) by (apply Hpos; lra).
  assert (H2 : (0 <= rnd (0.5 * rnd (n + 1)))%Q) by (apply Hpos; lra).
  assert (H3 : (0 <= rnd (hi - lo))%Q) by (apply Hpos; lra).
  assert (H4 : (0 <= rnd (rnd (0.5 * rnd (n + 1)) * rnd (hi - lo)))%Q)
    by (apply Hpos, Qmult_le_0_compat; assumption).
  apply Qle_trans with (rnd lo); [rewrite Hlo; apply Qle_refl|].
  apply (rnd_le rnd Hrnd). lra.
Qed.

Lemma unscale1_rounded_low (rnd : Q -> Q) (lo hi : Q) :
  is_rounding rnd -> (rnd lo == lo)%Q ->
  (unscale1_rounded rnd lo hi (-1) == lo)%Q.
Proof.
  intros Hrnd Hlo. unfold unscale1_rounded.
  assert (Hz : forall x, (x == 0)%Q -> (rnd x == 0)%Q).
  { intros x Hx. apply Qeq_trans with (rnd 0%Q);
      [apply (rnd_proper rnd Hrnd), Hx | apply (rnd_0 rnd Hrnd)]. }
  assert (H1 : (rnd (-1 + 1) == 0)%Q) by (apply Hz; reflexivity).
  assert (H2 : (rnd (0.5 * rnd (-1 + 1)) == 0)%Q)
    by (apply Hz; rewrite H1; reflexivity).
  assert (H3 : (rnd (rnd (0.5 * rnd (-1 + 1)) * rnd (hi - lo)) == 0)%Q)
    by (apply Hz; rewrite H2; ring).
  apply Qeq_trans with (rnd lo); [|exact Hlo].
  apply (rnd_proper rnd Hrnd). rewrite H3. ring.
Qed.

(** In exact arithmetic the rounded formula is [unscale_action]. *)
Lemma unscale_action_exact (sp : Box) (n : ndarray) :
  unscale_action_rounded (fun q => q) sp n = unscale_action sp n.
Proof. reflexivity. Qed.

(** X2. [unscale_action] with every operation rounded, by a monotone
    rounding that is exact on the small integers: for bounds that are
    representable, with [low <= high] and a finite [high - low]
    elementwise, and an array of the dimension of the space with every
    component in [[-1, 1]], the result is at least [low] componentwise, and
    the array of [-1]s is mapped to [low] itself.  The upper bound is not
    kept: in binary64, with [low = -3] and [high] the number nearest to
    [0.1], the action [1.0] is mapped above [high]. *)
Theorem unscale_action_bounds (rnd : Q -> Q) (sp : Box) (n : ndarray) :
  is_rounding rnd ->
  finite_bounds rnd sp ->
  normalized n ->
  length n = length (low sp) ->
  Forall2 Qle (low sp) (unscale_action_rounded rnd sp n)
  /\ Forall2 Qeq (unscale_action_rounded rnd sp (map (fun _ => (-1)%Q) n))
             (low sp)
  /\ PrimFloat.ltb 0x1.999999999999ap-4
       (unscale1_binary64 (-3) 0x1.999999999999ap-4 1) = true.
Proof.
  intros Hrnd Hb Hn Hlen.
  cut (Forall2 Qle (low sp) (unscale_action_rounded rnd sp n)
       /\ Forall2 Qeq (unscale_action_rounded rnd sp (map (fun _ => (-1)%Q) n))
                  (low sp)).
  { intros [H1 H2]. split; [exact H1|]. split; [exact H2|].
    vm_compute. reflexivity. }
  revert n Hn Hlen. unfold finite_bounds, unscale_action_rounded in *.
  destruct sp as [lo hi]. cbn [low high] in *.
  induction Hb as [|l h lo hi (Hl & Hlh & _) Hb IH]; intros [|x n] Hn Hlen;
    cbn in Hlen |- *; try discriminate; [split; constructor|].
  inversion Hn as [|? ? [Hx _] Hn']; subst.
  destruct (IH n Hn') as [I1 I2]; [lia|].
  split; constructor; auto using unscale1_rounded_ge, unscale1_rounded_low.
Qed.

(** X6. The success rate that is logged, [safe_mean] of a buffer of
    booleans: it is NaN ([None]) exactly when the buffer is empty;
    otherwise it is the number of [True] entries over the number of
    entries (as exact rationals), it lies in [[0, 1]], and so does its
    rounding, by any monotone rounding that is exact on the small
    integers. *)
Theorem safe_mean_success_rate (flags : list bool) :
  match safe_mean (map float_of_bool flags) with
  | None => flags = []
  | Some r =>
      flags <> []
      /\ (r == inject_Z (Z.of_nat (length (List.filter id flags)))
              / inject_Z (Z.of_nat (length flags)))%Q
      /\ (0 <= r)%Q /\ (r <= 1)%Q
      /\ (forall rnd, is_rounding rnd ->
          (0 <= rnd r)%Q /\ (rnd r <= 1)%Q)
  end.
Proof.
  assert (Hall : Forall (fun x => (0 <= x)%Q /\ (x <= 1)%Q)
                        (map float_of_bool flags)).
  { apply Forall_forall. intros x Hx.
    apply list_elem_of_In, in_map_iff in Hx as ([] & <- & _);
      cbn; split; discriminate. }
  pose proof (safe_mean_between _ 0 1 Hall) as H.
  unfold safe_mean, np_mean in *. rewrite length_map in *.
  destruct (length flags =? 0)%nat eqn:Hn.
  - destruct flags; [reflexivity | discriminate].
  - destruct H as (_ & H0 & H1).
    split; [intros ->; discriminate|].
    split; [rewrite sum_flags; reflexivity|].
    split; [exact H0|]. split; [exact H1|].
    intros rnd Hrnd. split.
    + apply Qle_trans with (rnd 0%Q);
        [rewrite (rnd_0 rnd Hrnd); apply Qle_refl|].
      apply (rnd_le rnd Hrnd), H0.
    + apply Qle_trans with (rnd 1%Q);
        [|rewrite (rnd_1 rnd Hrnd); apply Qle_refl].
      apply (rnd_le rnd Hrnd), H1.
Qed.

(** X7. [_update_current_progress] with every operation rounded, by a
    monotone rounding that is exact on the small integers.  It raises
    [OverflowError] exactly when [|num_timesteps|] or [|total_timesteps|]
    is [2 ^ 1024 - 2 ^ 970] or more; otherwise it raises
    [ZeroDivisionError] exactly when [total_timesteps = 0]; otherwise it
    stores a progress [p] such that: when
    [0 <= num_timesteps <= total_timesteps], [p] lies in [[0, 1]], is [1]
    at [num_timesteps = 0] and is [0] at [num_timesteps = total_timesteps];
    when [total_timesteps > 0], one more timestep, if it is still
    converted, does not give a larger progress. *)
Theorem progress_range (rnd : Q -> Q) (num_timesteps total_timesteps : Z) :
  is_rounding rnd ->
  match update_current_progress rnd num_timesteps total_timesteps with
  | inl ProgressOverflowError =>
      float_max_int <= Z.abs num_timesteps
      \/ float_max_int <= Z.abs total_timesteps
  | inl ProgressZeroDivisionError =>
      Z.abs num_timesteps < float_max_int /\ total_timesteps = 0
  | inr p =>
      Z.abs num_timesteps < float_max_int
      /\ Z.abs total_timesteps < float_max_int
      /\ total_timesteps <> 0
      /\ (0 <= num_timesteps <= total_timesteps ->
          ((0 <= p)%Q /\ (p <= 1)%Q)
          /\ (num_timesteps = 0 -> (p == 1)%Q)
          /\ (num_timesteps = total_timesteps -> (p == 0)%Q))
      /\ (0 < total_timesteps ->
          forall q, update_current_progress rnd (num_timesteps + 1)
                      total_timesteps = inr q -> (q <= p)%Q)
  end.
Proof.
  intros Hrnd. rewrite (progress_cases rnd Hrnd).
  destruct (float_max_int <=? Z.abs num_timesteps) eqn:Hn; cbn [orb];
    [left; apply Z.leb_le, Hn|].
  destruct (float_max_int <=? Z.abs total_timesteps) eqn:Ht;
    [right; apply Z.leb_le, Ht|].
  apply Z.leb_gt in Hn, Ht.
  destruct (total_timesteps =? 0) eqn:H0.
  { apply Z.eqb_eq in H0. split; assumption. }
  apply Z.eqb_neq in H0.
  split; [exact Hn|]. split; [exact Ht|]. split; [exact H0|].
  set (a := rnd (inject_Z num_timesteps)).
  set (b := rnd (inject_Z total_timesteps)).
  split.
  - intros [Hlo Hhi].
    assert (Hb : (1 <= b)%Q) by (apply (float_ge_1 rnd Hrnd); lia).
    assert (Ha : (0 <= a)%Q).
    { apply Qle_trans with (rnd 0%Q);
        [rewrite (rnd_0 rnd Hrnd); apply Qle_refl|].
      apply (rnd_le rnd Hrnd). change 0%Q with (inject_Z 0).
      rewrite <- Zle_Qle. exact Hlo. }
    assert (Hab : (a <= b)%Q)
      by (apply (rnd_le rnd Hrnd); rewrite <- Zle_Qle; exact Hhi).
    assert (Hb0 : (0 < b)%Q) by lra.
    destruct (quotient_range rnd Hrnd a b Ha Hab Hb0) as [Hq0 Hq1].
    split; [apply (complement_range rnd Hrnd); assumption|]. split.
    + intros Hz.
      assert (Ha0 : (a == 0)%Q)
        by (unfold a; rewrite Hz; apply (rnd_0 rnd Hrnd)).
      assert (Hq : (rnd (a / b) == 0)%Q).
      { apply Qeq_trans with (rnd 0%Q); [|apply (rnd_0 rnd Hrnd)].
        apply (rnd_proper rnd Hrnd). unfold Qdiv. rewrite Ha0. ring. }
      apply Qeq_trans with (rnd 1%Q); [|apply (rnd_1 rnd Hrnd)].
      apply (rnd_proper rnd Hrnd). lra.
    + intros Hz.
      assert (Hq : (rnd (a / b) == 1)%Q).
      { apply Qeq_trans with (rnd 1%Q); [|apply (rnd_1 rnd Hrnd)].
        apply (rnd_proper rnd Hrnd).
        unfold a, b. rewrite Hz. apply Qmult_inv_r. fold b. lra. }
      apply Qeq_trans with (rnd 0%Q); [|apply (rnd_0 rnd Hrnd)].
      apply (rnd_proper rnd Hrnd). lra.
  - intros Hpos q. rewrite (progress_cases rnd Hrnd).
    destruct ((float_max_int <=? Z.abs (num_timesteps + 1))
              || (float_max_int <=? Z.abs total_timesteps)); [discriminate|].
    rewrite (proj2 (Z.eqb_neq _ _) H0). intros [= <-]. fold b.
    assert (Hb : (1 <= b)%Q) by (apply (float_ge_1 rnd Hrnd); lia).
    apply (rnd_le rnd Hrnd).
    assert (Hq : (rnd (a / b) <= rnd (rnd (inject_Z (num_timesteps + 1)) / b))%Q).
    { apply (rnd_le rnd Hrnd). unfold Qdiv. apply Qmult_le_compat_r.
      - apply (rnd_le rnd Hrnd). rewrite <- Zle_Qle. lia.
      - apply Qinv_le_0_compat. lra. }
    lra.
Qed.

Lemma ex_rnd_is_rounding : is_rounding ex_rnd.
Proof.
  split.
  - intros x y H. unfold ex_rnd. unfold Qdiv. apply Qmult_le_compat_r.
    + rewrite <- Zle_Qle. apply Qfloor_resp_le.
      apply Qmult_le_compat_r; [exact H | discriminate].
    + discriminate.
  - intros z _. unfold ex_rnd.
    assert (H : Qfloor (inject_Z z * 1024) = z * 1024).
    { rewrite <- (Qfloor_Z (z * 1024)). apply Qfloor_comp.
      rewrite inject_Z_mult. reflexivity. }
    rewrite H, inject_Z_mult. field.
Qed.

Lemma progress_range_witness :
  is_rounding ex_rnd
  /\ exists p, update_current_progress ex_rnd 1 3 = inr p
               /\ (0 <= p)%Q /\ (p <= 1)%Q /\ (p == 683 # 1024)%Q.
Proof.
  split; [exact ex_rnd_is_rounding|].
  pose proof (progress_range ex_rnd 1 3 ex_rnd_is_rounding) as H.
  destruct (update_current_progress ex_rnd 1 3) as [[]|p] eqn:Hp;
    [vm_compute in Hp; discriminate | vm_compute in Hp; discriminate|].
  exists p. split; [reflexivity|].
  destruct H as (_ & _ & _ & H & _).
  destruct H as [[H0 H1] _]; [lia|].
  split; [exact H0|]. split; [exact H1|].
  vm_compute in Hp. injection Hp as <-. reflexivity.
Defined.

Section SaveFacts.

Context {V : Type}.

Lemma append_heads (tv : list string) :
  forall ex, fold_left (fun exclude torch_var => exclude ++ [split_head torch_var])
                       tv ex
             = ex ++ map split_head tv.
Proof.
  induction tv as [|v tv IH]; intros ex; cbn.
  - rewrite app_nil_r. reflexivity.
  - rewrite IH, <- app_assoc. reflexivity.
Qed.

Lemma pop_all (ex : list string) :
  forall (data : gmap string V) (k : string),
    fold_left (fun data param_name =>
                 if bool_decide (is_Some (data !! param_name))
                 then delete param_name data else data) ex data !! k
    = if bool_decide (k ∈ ex) then None else data !! k.
Proof.
  induction ex as [|p ex IH]; intros data k; cbn [fold_left].
  - reflexivity.
  - rewrite IH. destruct (decide (k = p)) as [->|Hne].
    + rewrite (bool_decide_eq_true_2 (p ∈ p :: ex)) by left.
      case_bool_decide; [reflexivity|].
      case_bool_decide as Hs; [apply lookup_delete_eq|].
      destruct (data !! p) eqn:E; [|reflexivity].
      exfalso. apply Hs. eauto.
    + assert (Hl : (if bool_decide (is_Some (data !! p))
                    then delete p data else data) !! k = data !! k).
      { case_bool_decide; [apply lookup_delete_ne; congruence | reflexivity]. }
      rewrite Hl.
      rewrite (bool_decide_ext (k ∈ p :: ex) (k ∈ ex))
        by (rewrite elem_of_cons; tauto).
      reflexivity.
Qed.

(** X8. The [data] that [save] hands to [_save_to_file_zip]: the value
    of a key is the one of [self.__dict__], except that a key is absent
    when it is the first dotted component of a torch variable, or when it
    is in the given [exclude] list or in [excluded_save_params()] and not
    in [include].  So [include] overrides both exclusion lists, but never
    the torch variables. *)
Theorem save_data_lookup (dict : gmap string V)
    (exclude include : option (list string))
    (state_dicts_names tensors_names : list string) (k : string) :
  (save_data dict exclude include state_dicts_names tensors_names).1 !! k
  = if bool_decide
         (k ∈ map split_head (state_dicts_names ++ tensors_names)
          \/ (k ∈ default [] exclude \/ k ∈ excluded_save_params)
             /\ k ∉ default [] include)
    then None else dict !! k.
Proof.
  unfold save_data. cbn [fst]. rewrite pop_all, append_heads.
  apply (f_equal (fun b : bool => if b then None else dict !! k)).
  apply bool_decide_ext. rewrite elem_of_app.
  assert (Hex : forall ex : list string,
            k ∈ ex ++ filter (fun param => param ∉ ex) excluded_save_params
            <-> k ∈ ex \/ k ∈ excluded_save_params).
  { intros ex. rewrite elem_of_app, list_elem_of_filter.
    destruct (decide (k ∈ ex)); tauto. }
  destruct exclude as [ex|], include as [inc|]; cbn [default from_option id];
    rewrite ?list_elem_of_filter, ?Hex, ?elem_of_nil; tauto.
Qed.

(** X9. [save] extends the list object passed as [exclude]: after the
    call it is the old list followed by added names, and it contains every
    name of [excluded_save_params()].  Without [include] the first dotted
    component of every torch variable is appended too; with [include] the
    added names are exactly default names that the list did not hold. *)
Theorem save_extends_exclude (dict : gmap string V) (ex : list string)
    (include : option (list string))
    (state_dicts_names tensors_names : list string) :
  exists added,
    (save_data dict (Some ex) include state_dicts_names tensors_names).2
      = Some (ex ++ added)
    /\ (forall p, p ∈ excluded_save_params -> p ∈ ex ++ added)
    /\ match include with
       | None => forall v, v ∈ state_dicts_names ++ tensors_names ->
                           split_head v ∈ added
       | Some _ => forall p, p ∈ added -> p ∈ excluded_save_params /\ p ∉ ex
       end.
Proof.
  set (missing := filter (fun param => param ∉ ex) excluded_save_params).
  assert (Hin : forall p, p ∈ excluded_save_params -> p ∈ ex ++ missing).
  { intros p Hp. rewrite elem_of_app. subst missing.
    rewrite list_elem_of_filter. destruct (decide (p ∈ ex)); tauto. }
  destruct include as [inc|]; unfold save_data; cbn [snd option_map].
  - exists missing. split; [reflexivity|]. split; [exact Hin|].
    intros p Hp. subst missing. apply list_elem_of_filter in Hp. tauto.
  - exists (missing ++ map split_head (state_dicts_names ++ tensors_names)).
    cbn [default from_option id]. fold missing. rewrite append_heads, <- app_assoc.
    split; [reflexivity|]. split.
    + intros p Hp. rewrite app_assoc, elem_of_app. left. apply Hin, Hp.
    + intros v Hv. rewrite elem_of_app. right.
      apply list_elem_of_fmap. exists v. auto.
Qed.

End SaveFacts.

(** ** Loading *)

Section LoadFacts.

Context {V : Type} `{EqDecision V}.
Variables (env_observation_space env_action_space : V -> V).
Variable construct : V -> option V -> bool -> gmap string V.

(** X24. The checks of [load], case by case.  When they pass, the model
    is created with the [env] given, or with the saved one when none is
    given; a [policy_kwargs] given equals the saved one; and the saved
    spaces are the spaces of the [env] given.  They raise [KeyError] when
    [policy_kwargs] is given but not saved, and when an [env] is given for
    data that holds an environment but lacks one of the spaces.  They
    raise [ValueError] when the [policy_kwargs] given differs from the
    saved one, when the data holds no environment and lacks a space, or
    when a saved space differs from the one of the [env] given. *)
Theorem load_env_checked (data kwargs : gmap string V) (env : option V) :
  match load_env env_observation_space env_action_space data kwargs env with
  | inr env' =>
      env' = match env with Some e => Some e | None => data !! "env"%string end
      /\ (forall given, kwargs !! "policy_kwargs"%string = Some given ->
                        data !! "policy_kwargs"%string = Some given)
      /\ (forall e, env = Some e ->
            data !! "observation_space"%string = Some (env_observation_space e)
            /\ data !! "action_space"%string = Some (env_action_space e))
  | inl LoadKeyError =>
      (is_Some (kwargs !! "policy_kwargs"%string)
       /\ data !! "policy_kwargs"%string = None)
      \/ (is_Some env /\ is_Some (data !! "env"%string)
          /\ (data !! "observation_space"%string = None
              \/ data !! "action_space"%string = None))
  | inl LoadValueError =>
      (exists given stored,
          kwargs !! "policy_kwargs"%string = Some given
          /\ data !! "policy_kwargs"%string = Some stored /\ given <> stored)
      \/ (data !! "env"%string = None
          /\ (data !! "observation_space"%string = None
              \/ data !! "action_space"%string = None))
      \/ (exists e o a,
            env = Some e /\ data !! "observation_space"%string = Some o
            /\ data !! "action_space"%string = Some a
            /\ (o <> env_observation_space e \/ a <> env_action_space e))
  end.
Proof.
  unfold load_env, getitem, check_env.
  destruct (kwargs !! "policy_kwargs"%string) as [given|] eqn:Hk;
    [destruct (data !! "policy_kwargs"%string) as [stored|] eqn:Hs;
     [destruct (decide (given = stored)) as [->|Hne]|]|].
  2: { rewrite bool_decide_eq_false_2 by exact Hne. cbn. left. eauto. }
  2: { left. split; [eauto | reflexivity]. }
  1: rewrite bool_decide_eq_true_2 by reflexivity; cbn [negb].
  all: destruct (data !! "observation_space"%string) as [o|] eqn:Ho;
    destruct (data !! "action_space"%string) as [a|] eqn:Ha;
    destruct (data !! "env"%string) as [stored_env|] eqn:He;
    repeat (rewrite (bool_decide_eq_true_2 (is_Some (Some _))) by eauto);
    repeat (rewrite (bool_decide_eq_false_2 (is_Some None))
              by (intros [? ?]; discriminate));
    cbn [negb orb andb].
  all: try (right; left; split; [reflexivity | tauto]).
  all: destruct env as [e|]; cbn [negb].
  all: try (right; split; [eauto|]; split; [eauto | tauto]).
  all: try (repeat apply conj; [reflexivity | congruence | discriminate]).
  all: destruct (decide (o = env_observation_space e)) as [->|Hno];
    [rewrite (bool_decide_eq_true_2 _ eq_refl)
    | rewrite (bool_decide_eq_false_2 _ Hno)]; cbn [negb].
  all: try (right; right; exists e, o, a; tauto).
  all: destruct (decide (a = env_action_space e)) as [->|Hna];
    [rewrite (bool_decide_eq_true_2 _ eq_refl)
    | rewrite (bool_decide_eq_false_2 _ Hna)]; cbn [negb].
  all: try (right; right; eexists e, _, a; tauto).
  all: repeat apply conj; [reflexivity | congruence |].
  all: intros e' [= <-]; auto.
Qed.

(** X25. The attributes of the model that [load] creates, before
    [_setup_model()] runs: a key of [kwargs] has its value from there,
    otherwise a saved key has its saved value, otherwise the key has the
    value the constructor set.  So a saved environment replaces the
    environment passed to [load], which the constructor received, unless
    [kwargs] gives one. *)
Theorem load_attribute_priority (data kwargs : gmap string V)
    (env : option V) (model : gmap string V) :
  load_attributes env_observation_space env_action_space construct
    data kwargs env = inr model ->
  exists policy_class env',
    data !! "policy_class"%string = Some policy_class
    /\ load_env env_observation_space env_action_space data kwargs env
       = inr env'
    /\ (forall key,
          model !! key
          = match kwargs !! key with
            | Some v => Some v
            | None =>
                match data !! key with
                | Some v => Some v
                | None => construct policy_class env'
                            (bool_decide (is_Some env')) !! key
                end
            end)
    /\ (forall saved, data !! "env"%string = Some saved ->
                      kwargs !! "env"%string = None ->
                      model !! "env"%string = Some saved).
Proof.
  unfold load_attributes, getitem.
  destruct (load_env _ _ data kwargs env) as [e|env']; [discriminate|].
  destruct (data !! "policy_class"%string) as [pc|]; [|discriminate].
  intros [= <-]. exists pc, env'. split; [reflexivity|]. split; [reflexivity|].
  split.
  - intros key. rewrite !lookup_union.
    destruct (kwargs !! key), (data !! key),
      (construct pc env' (bool_decide (is_Some env')) !! key); reflexivity.
  - intros saved Hd Hk. rewrite !lookup_union, Hk, Hd.
    destruct (construct pc env' (bool_decide (is_Some env')) !! "env"%string);
      reflexivity.
Qed.

End LoadFacts.

(** ** What the parts of [collect_rollouts] do *)

Lemma update_info_buffer_num_timesteps (xs : list (Info * bool)) :
  forall m, num_timesteps (update_info_buffer xs m) = num_timesteps m.
Proof. induction xs as [|[i d] xs IH]; intros m; cbn; [|rewrite IH]; reflexivity. Qed.

Lemma wp_rollout_step (co : Collaborators) (hp : Hyper) (args : Args)
    (l : Locals) (s : State) :
  wp (rollout_step co hp args l) (stepped hp args l s) (stopped l s) s.
Proof.
  destruct s as [m tr].
  unfold rollout_step, select_action, store_transition, append_rollout_data.
  wp_run.
  1: { destruct ans as [|[|]]; try discriminate. repeat split. }
  all: unfold stepped; cbn [self trace].
  all: do 3 eexists; (split; [trace_norm; reflexivity|]).
  all: unfold never_False, count, step_reports; cbn.

  all: rewrite ?update_info_buffer_rollout_data, ?update_info_buffer_num_timesteps in *.
  all: repeat match goal with
              | H : ?x = _ |- context [match ?x with _ => _ end] => rewrite H
              end.
  all: repeat apply conj; try reflexivity;
       try (repeat constructor; assumption).
  all: eexists; split; reflexivity.
Qed.

Lemma wp_rollout_start (co : Collaborators) (hp : Hyper) (args : Args)
    (R : RolloutReturn -> State -> Prop) (s : State) :
  wp (rollout_start co hp args) (started hp args s) R s.
Proof.
  destruct s as [m tr]. unfold rollout_start. wp_run.
  all: unfold started; cbn [self trace].
  all: eexists; (split; [trace_norm; reflexivity|]).
  all: repeat match goal with
              | H : ?x = _ |- context [?x] => rewrite H
              end.
  all: cbn; repeat apply conj; try reflexivity.
  all: try (apply Z.eqb_eq; assumption).
Qed.

Lemma wp_episode_end_log (hp : Hyper) (args : Args) (l : Locals)
    (R : RolloutReturn -> State -> Prop) (s : State) :
  wp (episode_end hp args l) (episode_ended hp args l s) R s.
Proof.
  destruct s as [m tr].
  unfold episode_end, episode_ended, display_training_infos, logs_episode.
  destruct (done l); [|apply wp_ret; split; reflexivity].
  cbv zeta. cbn [count_episode total_episodes].
  wp_run.
  all: cbn [self trace].
  all: repeat match goal with
              | H : ?x = _ |- context [?x] => rewrite H
              end.
  all: repeat apply conj; try reflexivity.
  all: try (intros _; intros [= ->]; discriminate).
  all: try (eexists; split; [trace_norm; reflexivity|]; cbn;
            repeat apply conj; try reflexivity;
            try (repeat constructor); try discriminate).
  all: try (exists []; cbn; rewrite ?app_nil_r; repeat apply conj;
            solve [auto]).
  all: intros Hv Hli;
       repeat match goal with
              | H : (_ <=? _) = false |- _ => apply Z.leb_gt in H
              | H : (_ =? _) = false |- _ => apply Z.eqb_neq in H
              | H : Some _ = Some _ |- _ => injection H as ->
              end; first [lia | congruence].
Qed.

Lemma wp_rollout_end (co : Collaborators) (hp : Hyper) (l : Locals)
    (R : RolloutReturn -> State -> Prop) (s : State) :
  wp (rollout_end co hp l) (finished hp l s) R s.
Proof.
  destruct s as [m tr]. unfold rollout_end. cbv zeta.
  apply wp_bind, wp_post_processing; cbn [self trace].
  - intros Hrd. wp_run. unfold finished. cbn [self trace]. rewrite Hrd.
    repeat apply conj; try reflexivity.
    exists []. repeat apply conj; [reflexivity | constructor | cbn; lia].
  - intros rd rets Hrd Hlen _. wp_run. unfold finished. cbn [self trace].
    rewrite Hrd. repeat apply conj; try reflexivity.
    + exists rets. split; [reflexivity | exact Hlen].
    + eexists. split; [rewrite <- app_assoc; reflexivity|].
      destruct (decide _); split; repeat constructor.
Qed.

(** ** A rule for the whole call, from what its parts do *)

Section RunRule.

Variables (co : Collaborators) (hp : Hyper) (args : Args).
(** At the head of the outer loop, at the head of the inner loop, and
    after a step. *)
Variables InvO InvI InvS : Locals -> State -> Prop.
Variable Post : RolloutReturn -> State -> Prop.
Variable s0 : State.

Hypothesis On_init : forall l s, started hp args s0 l s -> InvO l s.
Hypothesis On_start :
  forall l s, InvO l s -> budget_unmet args l = true ->
              InvI (start_episode l) s.
Hypothesis On_step :
  forall l s l' s', InvI l s -> done l = false ->
                    stepped hp args l s l' s' -> InvS l' s'.
Hypothesis On_stop :
  forall l s r s', InvI l s -> done l = false -> stopped l s r s' -> Post r s'.
Hypothesis On_next :
  forall l s, InvS l s -> budget_break args l = false -> InvI l s.
Hypothesis On_done :
  forall l s l' s', InvI l s -> done l = true ->
                    episode_ended hp args l s l' s' -> InvO l' s'.
Hypothesis On_break :
  forall l s l' s', InvS l s -> budget_break args l = true ->
                    episode_ended hp args l s l' s' -> InvO l' s'.
Hypothesis On_final :
  forall l s r s', InvO l s -> budget_unmet args l = false ->
                   finished hp l s r s' -> Post r s'.

Lemma run_rule (fuel : nat) (r : RolloutReturn) (s' : State) :
  collect_rollouts co hp args fuel s0 = (Returns r, s') -> Post r s'.
Proof.
  apply (collect_rollouts_post_at co hp args InvO InvI InvS Post).
  - exact On_start.
  - intros l s HI Hd. eapply wp_mono; [apply wp_rollout_step | |].
    + intros l1 s1 H1. eapply On_step; eassumption.
    + intros r1 s1 H1. eapply On_stop; eassumption.
  - exact On_next.
  - intros l s HI Hd. eapply wp_mono;
      [apply (wp_episode_end_log hp args l Post) | | intros ? ? H; exact H].
    intros l1 s1 H1. eapply On_done; eassumption.
  - intros l s HI Hd. eapply wp_mono;
      [apply (wp_episode_end_log hp args l Post) | | intros ? ? H; exact H].
    intros l1 s1 H1. eapply On_break; eassumption.
  - auto.
  - eapply wp_mono;
      [apply (wp_rollout_start co hp args Post) | | intros ? ? H; exact H].
    exact On_init.
  - intros l s HI Hb. eapply wp_mono;
      [apply (wp_rollout_end co hp l Post) | | intros ? ? H; exact H].
    intros r1 s1 H1. eapply On_final; eassumption.
Qed.

End RunRule.

(** ** Counters and calls *)

Lemma vf_calls_app tr1 tr2 : vf_calls (tr1 ++ tr2) = vf_calls tr1 ++ vf_calls tr2.
Proof. apply omap_app. Qed.

Lemma done_count_app tr1 tr2 :
  done_count (tr1 ++ tr2) = (done_count tr1 + done_count tr2)%nat.
Proof.
  unfold done_count. rewrite env_results_app, List.filter_app, length_app.
  reflexivity.
Qed.

Lemma omap_none {A} (f : Event -> option A) (P : Event -> Prop) (evs : Trace) :
  Forall P evs -> (forall e, P e -> f e = None) -> omap f evs = [].
Proof.
  intros Hall Hf. induction Hall as [|e evs He _ IH]; [reflexivity|].
  cbn. rewrite (Hf e He). exact IH.
Qed.

Lemma count_none (p : Event -> bool) (P : Event -> Prop) (evs : Trace) :
  Forall P evs -> (forall e, P e -> p e = false) -> count p evs = 0%nat.
Proof.
  intros Hall Hp. unfold count. induction Hall as [|e evs He _ IH]; [reflexivity|].
  cbn [List.filter]. rewrite (Hp e He). exact IH.
Qed.

(** The calls made after the inner loop: none of them is a call of the
    environment, the policy, the noise, the buffer, the value network or
    the callback. *)
Lemma episode_ended_calls hp args l s l' s' :
  episode_ended hp args l s l' s' -> done l = true ->
  l' = count_episode l
  /\ self s' = self s
  /\ exists tail,
       trace s' = trace s ++ tail
       /\ all_quiet tail
       /\ count is_action_noise_reset tail
          = (if has_action_noise args then 1 else 0)%nat
       /\ count is_dump_kvs tail
          = (if logs_episode hp args (total_episodes l + 1) then 1 else 0)%nat
       /\ (logs_episode hp args (total_episodes l + 1) = false ->
           count is_log tail = 0%nat).
Proof.
  unfold episode_ended. intros H Hd. rewrite Hd in H.
  destruct H as (-> & Hs & _ & logs & Htr & Hlogs & Hdump & Hnone).
  split; [reflexivity|]. split; [exact Hs|].
  eexists. split; [exact Htr|].
  assert (Hq : all_quiet logs).
  { eapply Forall_impl; [exact Hlogs|]. intros [] He; cbn in *; congruence. }
  assert (Hr : count is_action_noise_reset logs = 0%nat).
  { apply (count_none _ _ _ Hlogs). intros [] He; (discriminate || reflexivity). }
  repeat apply conj.
  - apply Forall_app. split; [|exact Hq]. destruct (has_action_noise args);
      repeat constructor.
  - rewrite count_app, Hr. destruct (has_action_noise args); reflexivity.
  - rewrite count_app, Hdump. destruct (has_action_noise args); reflexivity.
  - intros Hn. rewrite (Hnone Hn), app_nil_r.
    destruct (has_action_noise args); reflexivity.
Qed.

Lemma quiet_silent (tail : Trace) : all_quiet tail -> silent tail /\ vf_calls tail = [].
Proof.
  intros H. unfold silent, done_count.
  assert (Hres : env_results tail = [])
    by (apply omap_quiet; [intros [] ?; (discriminate || reflexivity) | exact H]).
  rewrite Hres.
  repeat apply conj; try reflexivity;
    first [ apply omap_quiet; [intros [] ?; (discriminate || reflexivity) | exact H]
          | apply count_quiet; [intros [] ?; (discriminate || reflexivity) | exact H] ].
Qed.

Lemma vf_silent (vf : Trace) :
  Forall (fun e => match e with EvVfNet _ _ => True | _ => False end) vf ->
  silent vf /\ count is_action_noise_reset vf = 0%nat
  /\ count is_log vf = 0%nat.
Proof.
  intros H. unfold silent, done_count.
  assert (Hres : env_results vf = [])
    by (apply (omap_none _ _ _ H); intros [] ?; (contradiction || reflexivity)).
  rewrite Hres.
  repeat apply conj; try reflexivity;
    first [ apply (omap_none _ _ _ H); intros [] ?; (contradiction || reflexivity)
          | apply (count_none _ _ _ H); intros [] ?; (contradiction || reflexivity) ].
Qed.

Ltac use_silent H :=
  let H1 := fresh in let H2 := fresh in let H3 := fresh in let H4 := fresh in
  let H5 := fresh in let H6 := fresh in let H7 := fresh in let H8 := fresh in
  let H9 := fresh in
  destruct H as (H1 & H2 & H3 & H4 & H5 & H6 & H7 & H8 & H9);
  rewrite ?env_results_app, ?selected_actions_app, ?callback_returns_app,
    ?noises_app, ?replay_adds_app, ?env_actions_app,
    ?done_count_app, ?count_app;
  rewrite ?H1, ?H2, ?H3, ?H4, ?H5, ?H6, ?H7, ?H8, ?H9;
  rewrite ?app_nil_r, ?Nat.add_0_r.

Ltac ledger_close :=
  repeat apply conj; try reflexivity; try assumption; try lia;
  try (rewrite <- ?app_assoc; reflexivity);
  cbn [andb] in *;
  repeat match goal with
         | |- context [if ?b then _ else _] => destruct b
         | H : context [if ?b then _ else _] |- _ => destruct b
         end;
  cbn [andb length] in *; lia.

Section Ledger.

Variables (co : Collaborators) (hp : Hyper) (args : Args) (s0 : State).

Lemma run_ledger (fuel : nat) (ret : RolloutReturn) (sf : State) :
  collect_rollouts co hp args fuel s0 = (Returns ret, sf) ->
  ledger_post args s0 ret sf.
Proof.
  apply (run_rule co hp args (ledger false args s0) (ledger true args s0)
           (ledger true args s0)).
  - (* init *)
    intros l s (new & Htr & _ & _ & Hl & Hs & Hres & Hsel & Hcb & Hn & Hadd
                & _ & Hst & _ & Hrs & _).
    exists new. rewrite Hl, Hs, Hres, Hsel, Hcb, Hn, Hadd, Hst, Hrs.
    unfold done_count. rewrite Hres. cbn.
    ledger_close.
  - (* start of an episode *)
    intros l s (evs & H) _. exists evs. cbn [start_episode done total_steps
      total_episodes episode_rewards]. rewrite andb_false_r in *.
    cbn [andb] in H. exact H.
  - (* step *)
    intros l s l' s' (evs & Htr & Hts & Hte & Her & Hnum & Hcb & Hsel & Hadd
                      & Hn & Hst & Hrs & Hct) Hd
      (new & res & a & Htr' & Hres & Hsel' & Hcb' & _ & Hn' & Hadd' & Hst'
       & _ & Hrs' & _ & Hts' & Hte' & Her' & _ & Hd' & Hct' & _ & Hnum' & _).
    exists (evs ++ new). rewrite Htr', Htr, app_assoc.
    rewrite Hd in Hte. cbn [andb] in Hte.
    rewrite env_results_app, selected_actions_app, callback_returns_app,
      noises_app, replay_adds_app, done_count_app, !count_app, !length_app.
    unfold done_count at 2. rewrite Hres, Hsel', Hcb', Hn', Hadd', Hst', Hrs'.
    rewrite Hts', Hte', Her', Hd', Hnum', Hct'. cbn [length List.filter].
    ledger_close.
  - (* stopped by the callback *)
    intros l s r s' (evs & Htr & Hts & Hte & Her & Hnum & Hcb & Hsel & Hadd
                     & Hn & Hst & Hrs & Hct) Hd (-> & Hs & Htr').
    exists (evs ++ [EvCallback (RetBool false)]).
    rewrite Htr', Htr, app_assoc, Hs.
    rewrite Hd in Hte. cbn [andb] in Hte.
    rewrite env_results_app, selected_actions_app, callback_returns_app,
      noises_app, replay_adds_app, done_count_app, !count_app, !length_app.
    cbn. rewrite ?app_nil_r, ?Nat.add_0_r.
    ledger_close.
  - (* next pass *)
    intros l s H _. exact H.
  - (* end of an episode, [done] *)
    intros l s l' s' (evs & Htr & Hts & Hte & Her & Hnum & Hcb & Hsel & Hadd
                      & Hn & Hst & Hrs & Hct) Hd He.
    destruct (episode_ended_calls _ _ _ _ _ _ He Hd)
      as (-> & Hs & tail & Htr' & Hq & Hrs' & _).
    exists (evs ++ tail). rewrite Htr', Htr, app_assoc, Hs.
    rewrite Hd in Hte. cbn [andb] in Hte.
    destruct (quiet_silent _ Hq) as [Hsil _]. use_silent Hsil. rewrite Hrs'.
    cbn [count_episode total_steps total_episodes episode_rewards done
           continue_training].
    rewrite length_app. cbn [length].
    ledger_close.
  - (* end of an episode, after [break] *)
    intros l s l' s' (evs & Htr & Hts & Hte & Her & Hnum & Hcb & Hsel & Hadd
                      & Hn & Hst & Hrs & Hct) _ He.
    destruct (done l) eqn:Hd.
    + destruct (episode_ended_calls _ _ _ _ _ _ He Hd)
        as (-> & Hs & tail & Htr' & Hq & Hrs' & _).
      exists (evs ++ tail). rewrite Htr', Htr, app_assoc, Hs.
      cbn [andb] in Hte.
      destruct (quiet_silent _ Hq) as [Hsil _]. use_silent Hsil. rewrite Hrs'.
      cbn [count_episode total_steps total_episodes episode_rewards done
           continue_training].
      rewrite length_app. cbn [length].
      ledger_close.
    + unfold episode_ended in He. rewrite Hd in He. destruct He as [-> ->].
      exists evs. rewrite Hd. cbn [andb] in *.
      repeat apply conj; assumption.
  - (* the statements after the loop *)
    intros l s r s' (evs & Htr & Hts & Hte & Her & Hnum & Hcb & Hsel & Hadd
                     & Hn & Hst & Hrs & Hct) _
      (-> & Hnum' & _ & _ & _ & vf & Htr' & Hvf & _).
    exists (evs ++ vf ++ [EvOnRolloutEnd]). rewrite Htr', Htr, app_assoc.
    cbn [andb] in Hte. rewrite Z.add_0_r in Hte.
    destruct (vf_silent _ Hvf) as (Hsil & Hvr & _).
    rewrite (app_assoc evs vf), (count_app _ (evs ++ vf)).
    rewrite (env_results_app (evs ++ vf)), (selected_actions_app (evs ++ vf)),
      (callback_returns_app (evs ++ vf)), (noises_app (evs ++ vf)),
      (replay_adds_app (evs ++ vf)), (done_count_app (evs ++ vf)).
    rewrite (count_app _ (evs ++ vf)).
    use_silent Hsil. rewrite Hvr. cbn. rewrite ?app_nil_r, ?Nat.add_0_r, Hnum', Hct.
    ledger_close.
Qed.

End Ledger.

Lemma calls_of_app (s s' : State) (evs : Trace) :
  trace s' = trace s ++ evs -> calls_of s s' = evs.
Proof. intros H. unfold calls_of. rewrite H. apply drop_app_length. Qed.

Lemma done_count_le (tr : Trace) :
  (done_count tr <= length (env_results tr))%nat.
Proof. unfold done_count. apply List.filter_length_le. Qed.

(** X10. A call of [collect_rollouts] that returns
    [(mean_reward, total_steps, total_episodes, obs, continue_training)]
    has advanced [self.num_timesteps] by exactly [total_steps], which is
    the number of [env.step] calls it made, and
    [0 <= total_episodes <= total_steps]. *)
Theorem num_timesteps_advance (co : Collaborators) (hp : Hyper) (args : Args)
    (fuel : nat) (s : State) (mean_reward : Q) (ts te : Z)
    (o : option ndarray) (flag : bool) (s' : State) :
  collect_rollouts co hp args fuel s
    = (Returns (mean_reward, ts, te, o, flag), s') ->
  num_timesteps (self s') = num_timesteps (self s) + ts
  /\ ts = Z.of_nat (length (env_results (calls_of s s')))
  /\ 0 <= te <= ts.
Proof.
  intros Hrun. apply run_ledger in Hrun.
  destruct Hrun as (evs & Htr & Hts & Hte & Hnum & _).
  rewrite (calls_of_app _ _ _ Htr). pose proof (done_count_le evs).
  repeat split; try assumption; lia.
Qed.

(** X11. Over a call of [collect_rollouts] that returns,
    [total_episodes] is the number of [env.step] calls that answered
    [done], and [action_noise.reset()] is called once per such episode
    when there is an action noise, never otherwise. *)
Theorem episodes_counted (co : Collaborators) (hp : Hyper) (args : Args)
    (fuel : nat) (s : State) (mean_reward : Q) (ts te : Z)
    (o : option ndarray) (flag : bool) (s' : State) :
  collect_rollouts co hp args fuel s
    = (Returns (mean_reward, ts, te, o, flag), s') ->
  te = Z.of_nat (length (List.filter step_done (env_results (calls_of s s'))))
  /\ Z.of_nat (count is_action_noise_reset (calls_of s s'))
     = (if has_action_noise args then te else 0).
Proof.
  intros Hrun. apply run_ledger in Hrun.
  destruct Hrun as (evs & Htr & _ & Hte & _ & _ & _ & _ & _ & _ & Hrs).
  rewrite (calls_of_app _ _ _ Htr). split; assumption.
Qed.

(** X12. Over a call of [collect_rollouts] that returns after [steps]
    calls of [env.step]: [callback()] was called [steps] times, and once
    more when the callback stopped the call; an action was selected
    ([action_space.sample()] or [predict]) [steps] times; the action noise
    was sampled [steps] times when there is one, the replay buffer got
    [steps] transitions when there is one, none otherwise; and
    [callback.on_rollout_start()] was called once. *)
Theorem calls_per_step (co : Collaborators) (hp : Hyper) (args : Args)
    (fuel : nat) (s : State) (mean_reward : Q) (ts te : Z)
    (o : option ndarray) (flag : bool) (s' : State) :
  collect_rollouts co hp args fuel s
    = (Returns (mean_reward, ts, te, o, flag), s') ->
  let evs := calls_of s s' in
  let steps := length (env_results evs) in
  length (callback_returns evs) = (steps + (if flag then 0 else 1))%nat
  /\ length (selected_actions evs) = steps
  /\ length (noises evs) = (if has_action_noise args then steps else 0)%nat
  /\ length (replay_adds evs) = (if has_replay_buffer args then steps else 0)%nat
  /\ count is_on_rollout_start evs = 1%nat.
Proof.
  intros Hrun. apply run_ledger in Hrun.
  destruct Hrun as (evs & Htr & _ & _ & _ & Hcb & Hsel & Hadd & Hn & Hst & _).
  cbv zeta. rewrite (calls_of_app _ _ _ Htr). repeat split; assumption.
Qed.

Lemma num_timesteps_advance_witness :
  ex_run_budgets = (Returns (1%Q, 3, 1, Some [3%Q], true), snd ex_run_budgets)
  /\ num_timesteps (self (snd ex_run_budgets))
     = num_timesteps (self ex_state) + 3.
Proof.
  split; [vm_compute; reflexivity|].
  refine (proj1 (num_timesteps_advance (ex_co None)
                   (ex_hp false false false (-1)) (ex_args 1 1 0 false false)
                   5 ex_state 1%Q 3 1 (Some [3%Q]) true (snd ex_run_budgets) _)).
  vm_compute. reflexivity.
Defined.

Lemma episodes_counted_witness :
  ex_run_resample4
  = (Returns (3%Q, 4, 1, Some [4%Q], true), snd ex_run_resample4)
  /\ 1 = Z.of_nat (length (List.filter step_done
                             (env_results (calls_of ex_state (snd ex_run_resample4))))).
Proof.
  split; [vm_compute; reflexivity|].
  refine (proj1 (episodes_counted (ex_co None)
                   (ex_hp true false false 2) (ex_args (-1) 4 0 false false)
                   6 ex_state 3%Q 4 1 (Some [4%Q]) true (snd ex_run_resample4) _)).
  vm_compute. reflexivity.
Defined.

Lemma calls_per_step_witness :
  ex_run_stop = (Returns (0%Q, 2, 0, None, false), snd ex_run_stop)
  /\ length (callback_returns (calls_of ex_state (snd ex_run_stop)))
     = (length (env_results (calls_of ex_state (snd ex_run_stop))) + 1)%nat.
Proof.
  split; [vm_compute; reflexivity|].
  refine (proj1 (calls_per_step (ex_co (Some 2%nat))
                   (ex_hp false false false (-1))
                   (ex_args (-1) 10 0 false false) 12 ex_state
                   0%Q 2 0 None false (snd ex_run_stop) _)).
  vm_compute. reflexivity.
Defined.

(** ** Budgets *)

Lemma episode_ended_locals hp args l s l' s' :
  episode_ended hp args l s l' s' ->
  l' = (if done l then count_episode l else l).
Proof. unfold episode_ended. destruct (done l); tauto. Qed.

Ltac budget_close :=
  cbn [start_episode count_episode initial_locals total_steps total_episodes
       continue_training];
  repeat split; first [reflexivity | assumption | lia | congruence].

Section Budgets.

Variables (co : Collaborators) (hp : Hyper) (args : Args).

(** X13. With a step budget only ([n_steps > 0], [n_episodes <= 0]), a
    call of [collect_rollouts] that returns on the normal path has taken
    exactly [n_steps] steps; one stopped by the callback has taken fewer. *)
Theorem step_budget_exact (fuel : nat) (s : State) (mean_reward : Q)
    (ts te : Z) (o : option ndarray) (flag : bool) (s' : State) :
  0 < n_steps args ->
  n_episodes args <= 0 ->
  collect_rollouts co hp args fuel s
    = (Returns (mean_reward, ts, te, o, flag), s') ->
  if flag then ts = n_steps args else ts < n_steps args.
Proof.
  intros Hs He.
  pose (Post := fun (r : RolloutReturn) (_ : State) =>
                  let '(_, ts, _, _, flag) := r in
                  if flag then ts = n_steps args else ts < n_steps args).
  change (collect_rollouts co hp args fuel s
            = (Returns (mean_reward, ts, te, o, flag), s') ->
          Post (mean_reward, ts, te, o, flag) s').
  apply (run_rule co hp args
           (fun l _ => 0 <= total_episodes l /\ total_steps l <= n_steps args
                       /\ continue_training l = true)
           (fun l _ => 0 <= total_episodes l /\ total_steps l < n_steps args
                       /\ continue_training l = true)
           (fun l _ => 0 <= total_episodes l /\ total_steps l <= n_steps args
                       /\ continue_training l = true)
           Post); subst Post; cbv beta.
  - intros l s1 (new & _ & _ & _ & Hl & _). rewrite Hl. budget_close.
  - intros l s1 (H1 & H2 & H3) Hb. unfold budget_unmet in Hb.
    budget_close.
  - intros l s1 l1 s2 (H1 & H2 & H3) _ (new & res & a & Hst).
    decompose [and] Hst. budget_close.
  - intros l s1 r s2 (H1 & H2 & H3) _ (-> & _). exact H2.
  - intros l s1 (H1 & H2 & H3) Hb. unfold budget_break in Hb. budget_close.
  - intros l s1 l1 s2 (H1 & H2 & H3) Hd Hend.
    apply episode_ended_locals in Hend. rewrite Hd in Hend. subst l1. budget_close.
  - intros l s1 l1 s2 (H1 & H2 & H3) _ Hend.
    apply episode_ended_locals in Hend. subst l1.
    destruct (done l); budget_close.
  - intros l s1 r s2 (H1 & H2 & H3) Hb (-> & _). rewrite H3.
    unfold budget_unmet in Hb. lia.
Qed.

(** X14. With an episode budget only ([n_episodes > 0],
    [n_steps <= 0]), a call of [collect_rollouts] that returns on the
    normal path has counted exactly [n_episodes] episodes; one stopped by
    the callback has counted fewer. *)
Theorem episode_budget_exact (fuel : nat) (s : State) (mean_reward : Q)
    (ts te : Z) (o : option ndarray) (flag : bool) (s' : State) :
  0 < n_episodes args ->
  n_steps args <= 0 ->
  collect_rollouts co hp args fuel s
    = (Returns (mean_reward, ts, te, o, flag), s') ->
  if flag then te = n_episodes args else te < n_episodes args.
Proof.
  intros He Hs.
  pose (Post := fun (r : RolloutReturn) (_ : State) =>
                  let '(_, _, te, _, flag) := r in
                  if flag then te = n_episodes args else te < n_episodes args).
  change (collect_rollouts co hp args fuel s
            = (Returns (mean_reward, ts, te, o, flag), s') ->
          Post (mean_reward, ts, te, o, flag) s').
  apply (run_rule co hp args
           (fun l _ => 0 <= total_steps l /\ total_episodes l <= n_episodes args
                       /\ continue_training l = true)
           (fun l _ => 0 <= total_steps l /\ total_episodes l < n_episodes args
                       /\ continue_training l = true)
           (fun l _ => 0 <= total_steps l /\ total_episodes l < n_episodes args
                       /\ continue_training l = true)
           Post); subst Post; cbv beta.
  - intros l s1 (new & _ & _ & _ & Hl & _). rewrite Hl. budget_close.
  - intros l s1 (H1 & H2 & H3) Hb. unfold budget_unmet in Hb.
    budget_close.
  - intros l s1 l1 s2 (H1 & H2 & H3) _ (new & res & a & Hst).
    decompose [and] Hst. budget_close.
  - intros l s1 r s2 (H1 & H2 & H3) _ (-> & _). exact H2.
  - intros l s1 H _. exact H.
  - intros l s1 l1 s2 (H1 & H2 & H3) Hd Hend.
    apply episode_ended_locals in Hend. rewrite Hd in Hend. subst l1. budget_close.
  - intros l s1 l1 s2 (H1 & H2 & H3) Hb Hend. unfold budget_break in Hb. lia.
  - intros l s1 r s2 (H1 & H2 & H3) Hb (-> & _). rewrite H3.
    unfold budget_unmet in Hb. lia.
Qed.

End Budgets.

(** ** The mean reward *)

Section MeanReward.

Variables (co : Collaborators) (hp : Hyper) (args : Args) (s0 : State).

Let tally_of (evs : Trace) := fold_left (tally args) (env_results evs) ([], 0%Q, 0).

Let at_inner (strict : bool) (l : Locals) (s : State) : Prop :=
  exists evs,
    trace s = trace s0 ++ evs
    /\ (tally_of evs).1.1
       = episode_rewards l ++ (if done l then [episode_reward l] else [])
    /\ (done l = false -> strict || negb (budget_break args l) = true ->
        (tally_of evs).1.2 = episode_reward l)
    /\ (done l = true \/ negb strict && budget_break args l = true ->
        (tally_of evs).1.2 = 0%Q)
    /\ (tally_of evs).2 = total_steps l.

Let at_outer (l : Locals) (s : State) : Prop :=
  exists evs,
    trace s = trace s0 ++ evs
    /\ (tally_of evs).1.1 = episode_rewards l
    /\ (tally_of evs).1.2 = 0%Q
    /\ (tally_of evs).2 = total_steps l.

Lemma run_tally (fuel : nat) (ret : RolloutReturn) (sf : State) :
  collect_rollouts co hp args fuel s0 = (Returns ret, sf) ->
  let '(mean_reward, _, te, _, flag) := ret in
  flag = true ->
  exists evs,
    trace sf = trace s0 ++ evs
    /\ mean_reward
       = if 0 <? te then np_mean (recorded_rewards args (env_results evs))
         else 0%Q.
Proof.
  apply (run_rule co hp args at_outer (at_inner true) (at_inner false)
           (fun ret sf =>
              let '(mean_reward, _, te, _, flag) := ret in
              flag = true ->
              exists evs,
                trace sf = trace s0 ++ evs
                /\ mean_reward
                   = if 0 <? te
                     then np_mean (recorded_rewards args (env_results evs))
                     else 0%Q)).
  - (* init *)
    intros l s (new & Htr & _ & _ & Hl & _ & Hres & _).
    exists new. unfold tally_of. rewrite Hres, Hl. cbn. auto.
  - (* start of an episode *)
    intros l s (evs & Htr & Hrec & Hrun & Hk) _. exists evs.
    cbn [start_episode done episode_rewards episode_reward total_steps].
    rewrite app_nil_r. repeat apply conj; try assumption.
    + intros _ _. exact Hrun.
    + cbn [negb andb]. intros [?|?]; discriminate.
  - (* step *)
    intros l s l' s' (evs & Htr & Hrec & Hrun & _ & Hk) Hd
      (new & res & a & Htr' & Hres & Hst).
    decompose [and] Hst. clear Hst.
    rewrite Hd, app_nil_r in Hrec. specialize (Hrun Hd eq_refl).
    exists (evs ++ new). split; [rewrite Htr', Htr, app_assoc; reflexivity|].
    unfold tally_of in *. rewrite env_results_app, Hres, fold_left_app.
    destruct (fold_left (tally args) (env_results evs) ([], 0%Q, 0))
      as [[recorded running] k].
    cbn [fst snd] in Hrec, Hrun, Hk. subst recorded running k.
    unfold budget_break.
    repeat match goal with H : _ l' = _ |- _ => rewrite H end.
    cbn [fold_left tally fst snd].
    destruct (step_done res); cbn [orb negb andb].
    + repeat apply conj; try reflexivity; try discriminate.
    + rewrite app_nil_r. repeat apply conj; try reflexivity.
      * intros _ Hb. apply negb_true_iff in Hb. rewrite Hb. reflexivity.
      * intros [?|Hb]; [discriminate|]. rewrite Hb. reflexivity.
  - (* stopped by the callback *)
    intros l s r s' _ _ (-> & _). discriminate.
  - (* next pass *)
    intros l s (evs & Htr & Hrec & Hrun & Hzero & Hk) Hb. exists evs.
    rewrite Hb in *. cbn [negb orb andb] in *.
    repeat apply conj; assumption.
  - (* end of an episode, [done] *)
    intros l s l' s' (evs & Htr & Hrec & _ & Hzero & Hk) Hd He.
    destruct (episode_ended_calls _ _ _ _ _ _ He Hd)
      as (-> & _ & tail & Htr' & Hq & _).
    exists (evs ++ tail). split; [rewrite Htr', Htr, app_assoc; reflexivity|].
    destruct (quiet_silent _ Hq) as [(Hres & _) _].
    unfold tally_of in *. rewrite env_results_app, Hres, app_nil_r.
    rewrite Hd in Hrec. cbn [count_episode episode_rewards total_steps].
    repeat apply conj; try assumption. apply Hzero. left. exact Hd.
  - (* end of an episode, after [break] *)
    intros l s l' s' (evs & Htr & Hrec & _ & Hzero & Hk) Hb He.
    destruct (done l) eqn:Hd.
    + destruct (episode_ended_calls _ _ _ _ _ _ He Hd)
        as (-> & _ & tail & Htr' & Hq & _).
      exists (evs ++ tail). split; [rewrite Htr', Htr, app_assoc; reflexivity|].
      destruct (quiet_silent _ Hq) as [(Hres & _) _].
      unfold tally_of in *. rewrite env_results_app, Hres, app_nil_r.
      cbn [count_episode episode_rewards total_steps].
      repeat apply conj; try assumption. apply Hzero. left. reflexivity.
    + unfold episode_ended in He. rewrite Hd in He. destruct He as [-> ->].
      exists evs. rewrite app_nil_r in Hrec. repeat apply conj; try assumption.
      apply Hzero. right. rewrite Hb. reflexivity.
  - (* the statements after the loop *)
    intros l s r s' (evs & Htr & Hrec & _ & Hk) _
      (-> & _ & _ & _ & _ & vf & Htr' & Hvf & _) _.
    exists (evs ++ vf ++ [EvOnRolloutEnd]).
    split; [rewrite Htr', Htr, <- !app_assoc; reflexivity|].
    destruct (vf_silent _ Hvf) as ((Hres & _) & _).
    unfold recorded_rewards. rewrite !env_results_app, Hres. cbn [app].
    unfold env_results at 2. cbn. rewrite app_nil_r.
    unfold tally_of in Hrec. rewrite Hrec. reflexivity.
Qed.

End MeanReward.

(** X15. The [mean_reward] of a call of [collect_rollouts] that returns
    on the normal path is [0.0] when no episode ended, and otherwise the
    mean of the reward sums recorded at the steps that answered [done],
    where a sum runs from the start of the call, from the last step that
    answered [done], or from the last step taken at or beyond a positive
    step budget, whichever is latest: an episode that ends after the step
    budget was reached is recorded with the reward of its last step
    only. *)
Theorem mean_reward_recorded (co : Collaborators) (hp : Hyper) (args : Args)
    (fuel : nat) (s : State) (mean_reward : Q) (ts te : Z)
    (o : option ndarray) (s' : State) :
  collect_rollouts co hp args fuel s
    = (Returns (mean_reward, ts, te, o, true), s') ->
  mean_reward
  = if 0 <? te
    then np_mean (recorded_rewards args (env_results (calls_of s s')))
    else 0%Q.
Proof.
  intros Hrun. apply run_tally in Hrun.
  destruct (Hrun eq_refl) as (evs & Htr & Hm).
  rewrite (calls_of_app _ _ _ Htr). exact Hm.
Qed.

(** ** The snapshot as a record of the trajectory *)

Lemma last_obs_silent (o : ndarray) (evs tail : Trace) :
  env_results tail = [] -> last_obs o (evs ++ tail) = last_obs o evs.
Proof.
  intros H. unfold last_obs. rewrite env_results_app, H, app_nil_r. reflexivity.
Qed.

Lemma stepped_obs_silent (args : Args) (evs tail : Trace) :
  env_results tail = [] -> stepped_obs args (evs ++ tail) = stepped_obs args evs.
Proof.
  intros H. unfold stepped_obs. rewrite env_results_app, H, app_nil_r. reflexivity.
Qed.

Lemma records_recorded hp args evs tail o snapshot :
  env_results tail = [] ->
  records hp args evs o snapshot ->
  recorded hp args (evs ++ tail) snapshot.
Proof.
  intros Hres. unfold records, recorded. cbv zeta.
  rewrite env_results_app, Hres, app_nil_r, vf_calls_app.
  destruct snapshot as [rd|]; [|auto].
  intros (Hf & Hobs & Hrew & Hdone & Hvf & Hlen).
  assert (Hn : length (observations rd) = length (env_results evs)).
  { apply (f_equal length) in Hobs.
    rewrite length_app, length_stepped_obs in Hobs. cbn in Hobs. lia. }
  repeat apply conj; try assumption; try lia.
  - fold (stepped_obs args evs). rewrite <- Hobs, <- Hn.
    rewrite take_app_length. reflexivity.
  - rewrite <- Hvf, take_app_length'; [reflexivity|].
    rewrite length_zip_with. lia.
Qed.

Section Trajectory.

Variables (co : Collaborators) (hp : Hyper) (args : Args) (s0 : State).

Let recording (l : Locals) (s : State) : Prop :=
  exists evs,
    trace s = trace s0 ++ evs
    /\ records hp args evs (obs l) (rollout_data (self s)).

Lemma run_records (fuel : nat) (ret : RolloutReturn) (sf : State) :
  collect_rollouts co hp args fuel s0 = (Returns ret, sf) ->
  exists evs,
    trace sf = trace s0 ++ evs /\ recorded hp args evs (rollout_data (self sf)).
Proof.
  apply (run_rule co hp args recording recording recording
           (fun _ sf => exists evs, trace sf = trace s0 ++ evs
                                    /\ recorded hp args evs (rollout_data (self sf)))).
  - (* init *)
    intros l s (new & Htr & _ & _ & Hl & Hs & Hres & _ & _ & _ & _ & Hvf & _).
    exists new. split; [exact Htr|]. rewrite Hs, Hl. unfold records.
    cbn [set_rollout_data rollout_data initial_locals obs].
    unfold stepped_obs. rewrite Hres, Hvf.
    destruct (use_sde hp && on_policy_exploration hp); cbn;
      repeat apply conj; reflexivity.
  - (* start of an episode *)
    intros l s H _. exact H.
  - (* step *)
    intros l s l' s' (evs & Htr & Hrec) _ (new & res & a & Htr' & Hres & Hst).
    decompose [and] Hst. clear Hst.
    exists (evs ++ new). split; [rewrite Htr', Htr, app_assoc; reflexivity|].
    unfold records in *. rewrite vf_calls_app, env_results_app, Hres.
    unfold stepped_obs. rewrite env_results_app, Hres, !map_app. cbn [map].
    destruct (rollout_data (self s)) as [rd|].
    + destruct Hrec as (Hf & Hobs & Hrew & Hdone & Hvf & Hlen).
      match goal with H : exists v, _ |- _ => destruct H as (v & Hv & ->) end.
      cbn [observations rewards dones values]. rewrite Hv.
      repeat apply conj; try assumption.
      * rewrite app_comm_cons. fold (stepped_obs args evs). rewrite <- Hobs.
        congruence.
      * congruence.
      * congruence.
      * rewrite zip_with_app by lia. rewrite Hvf. reflexivity.
      * rewrite !length_app. cbn. lia.
    + match goal with H : _ /\ vf_calls new = [] |- _ => destruct H as [-> _] end.
      exact Hrec.
  - (* stopped by the callback *)
    intros l s r s' (evs & Htr & Hrec) _ (_ & Hs & Htr').
    exists (evs ++ [EvCallback (RetBool false)]).
    split; [rewrite Htr', Htr, app_assoc; reflexivity|].
    rewrite Hs. eapply records_recorded; [reflexivity | exact Hrec].
  - (* next pass *)
    intros l s H _. exact H.
  - (* end of an episode, [done] *)
    intros l s l' s' (evs & Htr & Hrec) Hd He.
    destruct (episode_ended_calls _ _ _ _ _ _ He Hd)
      as (-> & Hs & tail & Htr' & Hq & _).
    exists (evs ++ tail). split; [rewrite Htr', Htr, app_assoc; reflexivity|].
    destruct (quiet_silent _ Hq) as [(Hres & _) Hvf].
    rewrite Hs. unfold records in *.
    rewrite vf_calls_app, Hvf, env_results_app, Hres, !app_nil_r,
      (stepped_obs_silent _ _ _ Hres).
    exact Hrec.
  - (* end of an episode, after [break] *)
    intros l s l' s' (evs & Htr & Hrec) _ He.
    destruct (done l) eqn:Hd.
    + destruct (episode_ended_calls _ _ _ _ _ _ He Hd)
        as (-> & Hs & tail & Htr' & Hq & _).
      exists (evs ++ tail). split; [rewrite Htr', Htr, app_assoc; reflexivity|].
      destruct (quiet_silent _ Hq) as [(Hres & _) Hvf].
      rewrite Hs. unfold records in *.
      rewrite vf_calls_app, Hvf, env_results_app, Hres, !app_nil_r,
        (stepped_obs_silent _ _ _ Hres).
      exact Hrec.
    + unfold episode_ended in He. rewrite Hd in He. destruct He as [-> ->].
      exists evs. split; assumption.
  - (* the statements after the loop *)
    intros l s r s' (evs & Htr & Hrec) _
      (_ & _ & _ & _ & Hrd & vf & Htr' & Hvf & _).
    exists (evs ++ vf ++ [EvOnRolloutEnd]).
    split; [rewrite Htr', Htr, <- !app_assoc; reflexivity|].
    destruct (vf_silent _ Hvf) as ((Hres & _) & _).
    assert (Hrec' : records hp args evs (obs l) (rollout_data (self s'))).
    { unfold records in *. destruct (rollout_data (self s)) as [rd|].
      - destruct Hrd as (rets & -> & _). exact Hrec.
      - rewrite Hrd. exact Hrec. }
    eapply records_recorded; [|exact Hrec'].
    rewrite env_results_app, Hres. reflexivity.
Qed.

End Trajectory.

(** X16. After a call of [collect_rollouts] that returns, there is a
    snapshot exactly when [use_sde] and [on_policy_exploration] are both
    set, and it then holds, step by step: as [observations] the
    observation passed in followed by the observations that [env.step]
    answered, the last one left out; as [rewards] and [dones] the rewards
    and [done] flags that [env.step] answered; and as [values] the answers
    of the value network, which was asked on exactly these observations. *)
Theorem snapshot_trajectory (co : Collaborators) (hp : Hyper) (args : Args)
    (fuel : nat) (s : State) (r : RolloutReturn) (s' : State) :
  collect_rollouts co hp args fuel s = (Returns r, s') ->
  let results := env_results (calls_of s s') in
  match rollout_data (self s') with
  | None => use_sde hp && on_policy_exploration hp = false
  | Some rd =>
      use_sde hp && on_policy_exploration hp = true
      /\ observations rd
         = take (length results) (arg_obs args :: map step_obs results)
      /\ rewards rd = map step_reward results
      /\ dones rd = map step_done results
      /\ length (values rd) = length results
      /\ zip (observations rd) (values rd)
         = take (length results) (vf_calls (calls_of s s'))
  end.
Proof.
  intros Hrun. apply run_records in Hrun. destruct Hrun as (evs & Htr & Hrec).
  rewrite (calls_of_app _ _ _ Htr). exact Hrec.
Qed.

(** ** Episode windows over a call *)

Lemma all_reports_app evs new :
  all_reports (evs ++ new) = all_reports evs ++ all_reports new.
Proof. unfold all_reports. rewrite env_results_app, map_app, concat_app. reflexivity. Qed.

Lemma all_reports_silent tail : env_results tail = [] -> all_reports tail = [].
Proof. unfold all_reports. intros ->. reflexivity. Qed.

Lemma reported_episodes_app xs ys :
  reported_episodes (xs ++ ys) = reported_episodes xs ++ reported_episodes ys.
Proof. apply omap_app. Qed.

Lemma reported_successes_app xs ys :
  reported_successes (xs ++ ys) = reported_successes xs ++ reported_successes ys.
Proof. apply omap_app. Qed.

Section Windows.

Variables (co : Collaborators) (hp : Hyper) (args : Args) (s0 : State).
Hypothesis Hinfo : (length (ep_info_buffer (self s0)) <= 100)%nat.
Hypothesis Hsucc : (length (ep_success_buffer (self s0)) <= 100)%nat.

Let windows (s : State) : Prop :=
  exists evs,
    trace s = trace s0 ++ evs
    /\ ep_info_buffer (self s)
       = window (ep_info_buffer (self s0) ++ reported_episodes (all_reports evs))
    /\ ep_success_buffer (self s)
       = window (ep_success_buffer (self s0)
                 ++ reported_successes (all_reports evs)).

Lemma windows_silent s s' tail :
  windows s -> self s' = self s -> trace s' = trace s ++ tail ->
  env_results tail = [] -> windows s'.
Proof.
  intros (evs & Htr & Hi & Hs) Hself Htr' Hres. exists (evs ++ tail).
  rewrite Htr', Htr, app_assoc, Hself, all_reports_app,
    (all_reports_silent _ Hres), app_nil_r.
  auto.
Qed.

Lemma run_windows (fuel : nat) (ret : RolloutReturn) (sf : State) :
  collect_rollouts co hp args fuel s0 = (Returns ret, sf) -> windows sf.
Proof.
  apply (run_rule co hp args (fun _ => windows) (fun _ => windows)
           (fun _ => windows) (fun _ => windows)).
  - (* init *)
    intros l s (new & Htr & _ & _ & _ & Hs & Hres & _).
    exists new. rewrite Hs, (all_reports_silent _ Hres), !app_nil_r.
    cbn [set_rollout_data ep_info_buffer ep_success_buffer].
    rewrite !window_short by assumption. auto.
  - intros l s H _. exact H.
  - (* step *)
    intros l s l' s' (evs & Htr & Hi & Hs) _ (new & res & a & Htr' & Hres & Hst).
    decompose [and] Hst. clear Hst.
    exists (evs ++ new). split; [rewrite Htr', Htr, app_assoc; reflexivity|].
    rewrite all_reports_app. unfold all_reports at 2 4. rewrite Hres.
    cbn [map concat]. rewrite app_nil_r.
    destruct (update_info_buffer_window (step_reports res) (self s) _ _ Hi Hs)
      as (Hi' & Hs' & _).
    rewrite reported_episodes_app, reported_successes_app, !app_assoc.
    split; congruence.
  - (* stopped by the callback *)
    intros l s r s' H _ (_ & Hs & Htr').
    eapply windows_silent; [exact H | exact Hs | exact Htr' | reflexivity].
  - intros l s H _. exact H.
  - (* end of an episode, [done] *)
    intros l s l' s' H Hd He.
    destruct (episode_ended_calls _ _ _ _ _ _ He Hd)
      as (_ & Hs & tail & Htr' & Hq & _).
    destruct (quiet_silent _ Hq) as [(Hres & _) _].
    eapply windows_silent; eassumption.
  - (* end of an episode, after [break] *)
    intros l s l' s' H _ He. destruct (done l) eqn:Hd.
    + destruct (episode_ended_calls _ _ _ _ _ _ He Hd)
        as (_ & Hs & tail & Htr' & Hq & _).
      destruct (quiet_silent _ Hq) as [(Hres & _) _].
      eapply windows_silent; eassumption.
    + unfold episode_ended in He. rewrite Hd in He. destruct He as [_ ->].
      exact H.
  - (* the statements after the loop *)
    intros l s r s' (evs & Htr & Hi & Hs) _
      (_ & _ & Hi' & Hs' & _ & vf & Htr' & Hvf & _).
    destruct (vf_silent _ Hvf) as ((Hres & _) & _).
    exists (evs ++ vf ++ [EvOnRolloutEnd]).
    rewrite Htr', Htr, <- !app_assoc, Hi', Hs', all_reports_app.
    rewrite (all_reports_silent (vf ++ [EvOnRolloutEnd])), app_nil_r
      by (rewrite env_results_app, Hres; reflexivity).
    auto.
Qed.

End Windows.

(** X4. [_update_info_buffer] on windows of at most 100 entries: the
    episode window then holds the last 100 of its old entries followed by
    the [episode] summaries of the infos, in order; the success window the
    last 100 of its old entries followed by the [is_success] flags of the
    infos whose [done] is set; both still hold at most 100 entries, and
    [num_timesteps] and [rollout_data] are not touched. *)
Theorem update_info_buffer_keeps_last (infos_dones : list (Info * bool))
    (m : Self) :
  (length (ep_info_buffer m) <= 100)%nat ->
  (length (ep_success_buffer m) <= 100)%nat ->
  let m' := update_info_buffer infos_dones m in
  ep_info_buffer m'
  = window (ep_info_buffer m ++ reported_episodes infos_dones)
  /\ ep_success_buffer m'
     = window (ep_success_buffer m ++ reported_successes infos_dones)
  /\ (length (ep_info_buffer m') <= 100)%nat
  /\ (length (ep_success_buffer m') <= 100)%nat
  /\ num_timesteps m' = num_timesteps m
  /\ rollout_data m' = rollout_data m.
Proof.
  intros Hi Hs. cbv zeta.
  destruct (update_info_buffer_window infos_dones m (ep_info_buffer m)
              (ep_success_buffer m)) as (H1 & H2 & H3 & H4).
  - symmetry. apply window_short, Hi.
  - symmetry. apply window_short, Hs.
  - rewrite H1, H2. repeat apply conj; auto using @length_window.
Qed.

(** X5. Over a call of [collect_rollouts] that returns, from windows of
    at most 100 entries: the episode window holds the last 100 of its
    entries before the call followed by every [episode] summary that the
    [env.step] calls of the call reported, and the success window the last
    100 of its entries followed by the [is_success] flags reported by the
    steps that answered [done]. *)
Theorem episode_windows (co : Collaborators) (hp : Hyper) (args : Args)
    (fuel : nat) (s : State) (r : RolloutReturn) (s' : State) :
  (length (ep_info_buffer (self s)) <= 100)%nat ->
  (length (ep_success_buffer (self s)) <= 100)%nat ->
  collect_rollouts co hp args fuel s = (Returns r, s') ->
  let reports := all_reports (calls_of s s') in
  ep_info_buffer (self s')
  = window (ep_info_buffer (self s) ++ reported_episodes reports)
  /\ ep_success_buffer (self s')
     = window (ep_success_buffer (self s) ++ reported_successes reports).
Proof.
  intros Hi Hs Hrun.
  destruct (run_windows co hp args s Hi Hs fuel r s' Hrun) as (evs & Htr & H).
  cbv zeta. rewrite (calls_of_app _ _ _ Htr). exact H.
Qed.

(** ** Logging *)

Lemma count_dump_le_log (evs : Trace) :
  count is_log evs = 0%nat -> count is_dump_kvs evs = 0%nat.
Proof.
  unfold count. induction evs as [|e evs IH]; [reflexivity|].
  destruct e; cbn; try discriminate; exact IH.
Qed.

Lemma logged_episodes_S hp args n :
  logged_episodes hp args (S n)
  = (logged_episodes hp args n
     + (if logs_episode hp args (Z.of_nat n + 1) then 1 else 0))%nat.
Proof.
  unfold logged_episodes. rewrite seq_S, List.filter_app, length_app.
  cbn [List.filter Nat.add]. replace (Z.of_nat (S n)) with (Z.of_nat n + 1) by lia.
  destruct (logs_episode hp args (Z.of_nat n + 1)); reflexivity.
Qed.

Lemma logs_episode_off hp args k :
  verbose hp < 1 \/ log_interval args = None -> logs_episode hp args k = false.
Proof.
  unfold logs_episode. intros [H| ->].
  - apply Z.leb_gt in H. rewrite H. reflexivity.
  - apply andb_false_r.
Qed.

Section Logging.

Variables (co : Collaborators) (hp : Hyper) (args : Args) (s0 : State).

Let logging (l : Locals) (s : State) : Prop :=
  exists evs,
    trace s = trace s0 ++ evs
    /\ 0 <= total_episodes l
    /\ count is_dump_kvs evs = logged_episodes hp args (Z.to_nat (total_episodes l))
    /\ (verbose hp < 1 \/ log_interval args = None -> count is_log evs = 0%nat).

Let logged (r : RolloutReturn) (s : State) : Prop :=
  let '(_, _, te, _, _) := r in
  exists evs,
    trace s = trace s0 ++ evs
    /\ count is_dump_kvs evs = logged_episodes hp args (Z.to_nat te)
    /\ (verbose hp < 1 \/ log_interval args = None -> count is_log evs = 0%nat).

Lemma logging_silent l s s' tail :
  logging l s -> trace s' = trace s ++ tail -> count is_log tail = 0%nat ->
  logging l s'.
Proof.
  intros (evs & Htr & Hte & Hd & Hq) Htr' Hlog. exists (evs ++ tail).
  rewrite Htr', Htr, app_assoc, !count_app, Hlog, (count_dump_le_log _ Hlog),
    !Nat.add_0_r.
  auto.
Qed.

Lemma logging_end l s l' s' :
  logging l s -> episode_ended hp args l s l' s' -> logging l' s'.
Proof.
  intros H He. destruct (done l) eqn:Hd.
  - destruct (episode_ended_calls _ _ _ _ _ _ He Hd)
      as (-> & _ & tail & Htr' & _ & _ & Hdump & Hoff).
    destruct H as (evs & Htr & Hte & Hcount & Hq). exists (evs ++ tail).
    rewrite Htr', Htr, app_assoc, !count_app.
    cbn [count_episode total_episodes].
    replace (Z.to_nat (total_episodes l + 1))
      with (S (Z.to_nat (total_episodes l))) by lia.
    rewrite logged_episodes_S, Z2Nat.id, Hdump, Hcount by exact Hte.
    repeat apply conj; try reflexivity; try lia.
    intros Hoff'. rewrite (Hq Hoff'), Hoff; [reflexivity|].
    apply logs_episode_off, Hoff'.
  - unfold episode_ended in He. rewrite Hd in He. destruct He as [-> ->].
    exact H.
Qed.

Lemma run_logging (fuel : nat) (ret : RolloutReturn) (sf : State) :
  collect_rollouts co hp args fuel s0 = (Returns ret, sf) -> logged ret sf.
Proof.
  apply (run_rule co hp args logging logging logging logged).
  - (* init *)
    intros l s (new & Htr & _ & _ & Hl & _ & _ & _ & _ & _ & _ & _ & _ & _ & _ & Hlog).
    exists new. rewrite Hl, Hlog, (count_dump_le_log _ Hlog).
    cbn [initial_locals total_episodes].
    repeat apply conj; first [assumption | reflexivity | lia | auto].
  - intros l s H _. exact H.
  - (* step *)
    intros l s l' s' H _ (new & res & a & Htr' & Hst).
    decompose [and] Hst. clear Hst.
    assert (H' : logging l s') by (eapply logging_silent; eassumption).
    destruct H' as (evs & ?). exists evs.
    match goal with H : total_episodes l' = _ |- _ => rewrite H end.
    assumption.
  - (* stopped by the callback *)
    intros l s r s' H _ (-> & _ & Htr').
    assert (H' : logging l s')
      by (eapply logging_silent; [exact H | exact Htr' | reflexivity]).
    destruct H' as (evs & ? & _ & ?). exists evs. auto.
  - intros l s H _. exact H.
  - intros l s l' s' H _ He. eapply logging_end; eassumption.
  - intros l s l' s' H _ He. eapply logging_end; eassumption.
  - (* the statements after the loop *)
    intros l s r s' H _ (-> & _ & _ & _ & _ & vf & Htr' & Hvf & _).
    destruct (vf_silent _ Hvf) as (_ & _ & Hlog).
    assert (H' : logging l s').
    { eapply logging_silent; [exact H | exact Htr' |].
      rewrite count_app, Hlog. reflexivity. }
    destruct H' as (evs & ? & _ & ?). exists evs. auto.
Qed.

End Logging.

(** X17. Over a call of [collect_rollouts] that returns,
    [logger.dumpkvs()] is called once for every episode [k] of the call
    (from 1 to [total_episodes]) with [verbose >= 1], a [log_interval] and
    [(episode_num + k) % log_interval == 0], and not otherwise; with
    [verbose < 1] or without a [log_interval] the logger is never
    called. *)
Theorem logging_cadence (co : Collaborators) (hp : Hyper) (args : Args)
    (fuel : nat) (s : State) (mean_reward : Q) (ts te : Z)
    (o : option ndarray) (flag : bool) (s' : State) :
  collect_rollouts co hp args fuel s
    = (Returns (mean_reward, ts, te, o, flag), s') ->
  count is_dump_kvs (calls_of s s')
  = length (List.filter (fun k => logs_episode hp args (Z.of_nat k))
                        (seq 1 (Z.to_nat te)))
  /\ (verbose hp < 1 \/ log_interval args = None ->
      count is_log (calls_of s s') = 0%nat).
Proof.
  intros Hrun. apply run_logging in Hrun. destruct Hrun as (evs & Htr & H).
  rewrite (calls_of_app _ _ _ Htr). exact H.
Qed.

(** X18. With [verbose >= 1] and [log_interval = 0] the test
    [(episode_num + total_episodes) % log_interval] divides by zero at the
    end of the first episode: a call of [collect_rollouts] that returns
    counted no episode, and no [env.step] call of it answered [done]. *)
Theorem log_interval_zero (co : Collaborators) (hp : Hyper) (args : Args)
    (fuel : nat) (s : State) (mean_reward : Q) (ts te : Z)
    (o : option ndarray) (flag : bool) (s' : State) :
  1 <= verbose hp ->
  log_interval args = Some 0 ->
  collect_rollouts co hp args fuel s
    = (Returns (mean_reward, ts, te, o, flag), s') ->
  te = 0
  /\ Forall (fun res => step_done res = false) (env_results (calls_of s s')).
Proof.
  intros Hv Hli Hrun.
  assert (Hte : te = 0).
  { revert Hrun.
    pose (Post := fun (r : RolloutReturn) (_ : State) =>
                    let '(_, _, te, _, _) := r in te = 0).
    change (collect_rollouts co hp args fuel s
              = (Returns (mean_reward, ts, te, o, flag), s') ->
            Post (mean_reward, ts, te, o, flag) s').
    assert (Hend : forall l s1 l1 s2,
               total_episodes l = 0 -> episode_ended hp args l s1 l1 s2 ->
               total_episodes l1 = 0).
    { intros l s1 l1 s2 H0 He. unfold episode_ended in He.
      destruct (done l).
      - destruct He as (_ & _ & Hne & _). contradiction (Hne Hv Hli).
      - destruct He as [-> _]. exact H0. }
    apply (run_rule co hp args (fun l _ => total_episodes l = 0)
             (fun l _ => total_episodes l = 0) (fun l _ => total_episodes l = 0)
             Post); subst Post; cbv beta.
    - intros l s1 (new & _ & _ & _ & -> & _). reflexivity.
    - intros l s1 H _. exact H.
    - intros l s1 l1 s2 H _ (new & res & a & Hst). decompose [and] Hst. congruence.
    - intros l s1 r s2 H _ (-> & _). exact H.
    - intros l s1 H _. exact H.
    - intros l s1 l1 s2 H _ He. eapply Hend; eassumption.
    - intros l s1 l1 s2 H _ He. eapply Hend; eassumption.
    - intros l s1 r s2 H _ (-> & _). exact H. }
  split; [exact Hte|].
  apply run_ledger in Hrun. destruct Hrun as (evs & Htr & _ & Hte' & _).
  rewrite (calls_of_app _ _ _ Htr). unfold done_count in Hte'.
  assert (Hnil : List.filter step_done (env_results evs) = []).
  { destruct (List.filter step_done (env_results evs)); [reflexivity|].
    cbn in Hte'. lia. }
  apply Forall_forall. intros res Hin.
  destruct (step_done res) eqn:Hd; [|reflexivity].
  assert (In res (List.filter step_done (env_results evs)))
    by (apply List.filter_In; split; [apply list_elem_of_In; exact Hin | exact Hd]).
  rewrite Hnil in *. contradiction.
Qed.

(** ** Calls that fail *)

(** X19. When [env] is not a [VecEnv] or [env.num_envs] is not 1,
    [collect_rollouts] raises [AssertionError] at once: no external call
    is made and the model is left as it was. *)
Theorem rejects_other_envs (co : Collaborators) (hp : Hyper) (args : Args)
    (fuel : nat) (s : State) :
  env_is_vec_env args = false \/ env_num_envs args <> 1 ->
  collect_rollouts co hp args fuel s = (Raises AssertionError, s).
Proof.
  intros H. unfold collect_rollouts, collect_rollouts_body, rollout_start.
  unfold bind at 1 2 3. unfold assert_.
  destruct (env_is_vec_env args); [|reflexivity].
  destruct H as [H|H]; [discriminate|].
  apply Z.eqb_neq in H. rewrite H. reflexivity.
Qed.

Section Unbound.

Variables (co : Collaborators) (hp : Hyper) (args : Args) (s0 : State).
Hypothesis Hwrap : has_vec_normalize_env hp = true.
Hypothesis Hbuf : has_replay_buffer args = false.

Let idle (l : Locals) (s : State) : Prop :=
  new_obs_ l = None /\ total_steps l = 0
  /\ exists evs, trace s = trace s0 ++ evs /\ env_results evs = [].

Let idled (r : RolloutReturn) (s : State) : Prop :=
  let '(_, ts, _, _, _) := r in
  ts = 0 /\ exists evs, trace s = trace s0 ++ evs /\ env_results evs = [].

Lemma rollout_step_unbound l s :
  idle l s -> wp (rollout_step co hp args l) (fun _ _ => False) idled s.
Proof.
  intros (Hno & Hts & evs & Htr & Hres). destruct s as [m tr].
  cbn [trace] in Htr. subst tr.
  unfold rollout_step, select_action, store_transition, append_rollout_data.
  rewrite Hwrap, Hbuf, Hno.
  wp_run; try congruence.
  split; [exact Hts|]. exists (evs ++ [EvCallback ans]).
  split; [rewrite app_assoc; reflexivity|].
  rewrite env_results_app, Hres. reflexivity.
Qed.

Lemma run_unbound (fuel : nat) (ret : RolloutReturn) (sf : State) :
  collect_rollouts co hp args fuel s0 = (Returns ret, sf) -> idled ret sf.
Proof.
  apply (collect_rollouts_post_at co hp args idle
           (fun l s => idle l s /\ done l = false) (fun _ _ => False) idled).
  - intros l s H _. split; [exact H | reflexivity].
  - intros l s [H _] _. apply rollout_step_unbound, H.
  - intros l s [].
  - intros l s [_ Hd] Hd'. congruence.
  - intros l s [].
  - auto.
  - eapply wp_mono;
      [apply (wp_rollout_start co hp args idled) | | intros ? ? H; exact H].
    intros l s (new & Htr & _ & _ & Hl & _ & Hres & _).
    rewrite Hl. repeat split. exists new. split; assumption.
  - intros l s (Hno & Hts & evs & Htr & Hres) _.
    eapply wp_mono;
      [apply (wp_rollout_end co hp l idled) | | intros ? ? H; exact H].
    intros r s' (-> & _ & _ & _ & _ & vf & Htr' & Hvf & _).
    split; [exact Hts|]. exists (evs ++ vf ++ [EvOnRolloutEnd]).
    split; [rewrite Htr', Htr, <- !app_assoc; reflexivity|].
    destruct (vf_silent _ Hvf) as ((Hres' & _) & _).
    rewrite !env_results_app, Hres, Hres'. reflexivity.
Qed.

End Unbound.

(** X20. With a normalization wrapper and no replay buffer, the local
    [new_obs_] is never bound, so no step completes: a call of
    [collect_rollouts] that returns has made no [env.step] call and
    returns [total_steps = 0]. *)
Theorem wrapper_needs_buffer (co : Collaborators) (hp : Hyper) (args : Args)
    (fuel : nat) (s : State) (mean_reward : Q) (ts te : Z)
    (o : option ndarray) (flag : bool) (s' : State) :
  has_vec_normalize_env hp = true ->
  has_replay_buffer args = false ->
  collect_rollouts co hp args fuel s
    = (Returns (mean_reward, ts, te, o, flag), s') ->
  ts = 0 /\ env_results (calls_of s s') = [].
Proof.
  intros Hw Hb Hrun.
  destruct (run_unbound co hp args s Hw Hb fuel _ _ Hrun)
    as (Hts & evs & Htr & Hres).
  rewrite (calls_of_app _ _ _ Htr). split; assumption.
Qed.

(** ** Actions and the bounds of the action space *)

Lemma run_actions (co : Collaborators) (hp : Hyper) (args : Args)
    (fuel : nat) (s : State) (r : RolloutReturn) (s' : State) :
  collect_rollouts co hp args fuel s = (Returns r, s') ->
  actions_post hp args (trace s) s'.
Proof.
  apply (collect_rollouts_post co hp args
           (actions_inv hp args (trace s)) (fun _ => actions_post hp args (trace s))).
  - apply actions_init. reflexivity.
  - intros l st H. exact H.
  - apply actions_step.
  - apply actions_end.
  - intros l st H _. apply actions_final, H.
Qed.

Lemma clip1_range (x : Q) : (-1 <= clip1 x)%Q /\ (clip1 x <= 1)%Q.
Proof.
  unfold clip1. split.
  - apply Q.min_glb; [apply Q.le_max_r | discriminate].
  - apply Q.le_min_r.
Qed.

Lemma np_clip_normalized (a : ndarray) : normalized (np_clip a).
Proof.
  unfold normalized, np_clip. apply Forall_forall. intros x Hx.
  apply list_elem_of_In, in_map_iff in Hx as (y & <- & _). apply clip1_range.
Qed.

Lemma clipped_action_normalized hp a noise :
  use_sde hp = true \/ is_Some noise ->
  normalized (clipped_action_of hp a noise).
Proof.
  intros H. unfold clipped_action_of. cbv zeta.
  destruct noise as [n|]; [apply np_clip_normalized|].
  destruct H as [-> | [? ?]]; [apply np_clip_normalized | discriminate].
Qed.

Lemma applied_actions_normalized hp args evs :
  use_sde hp = true \/ has_action_noise args = true ->
  Forall normalized (applied_actions hp args evs).
Proof.
  intros Hclip. unfold applied_actions. apply Forall_forall. intros c Hc.
  destruct (has_action_noise args).
  - apply elem_of_lookup_zip_with in Hc as (i & a & n & -> & _ & _).
    apply clipped_action_normalized. right. eauto.
  - apply list_elem_of_In, in_map_iff in Hc as (a & <- & _).
    apply clipped_action_normalized. left.
    destruct Hclip; [assumption | discriminate].
Qed.


(** X22. Without state-dependent exploration and without action noise
    nothing is clipped: over a call of [collect_rollouts] that returns and
    for bounds with [low < high] elementwise, [env.step] receives every
    selected action of the dimension of the action space unchanged
    (componentwise, as rationals), inside the bounds or not. *)
Theorem env_actions_unclipped (co : Collaborators) (hp : Hyper) (args : Args)
    (fuel : nat) (s : State) (r : RolloutReturn) (s' : State) :
  proper_bounds (action_space hp) ->
  use_sde hp = false ->
  has_action_noise args = false ->
  collect_rollouts co hp args fuel s = (Returns r, s') ->
  action_shaped (action_space hp) (selected_actions (calls_of s s')) ->
  Forall2 (Forall2 Qeq) (env_actions (calls_of s s'))
          (selected_actions (calls_of s s')).
Proof.
  intros Hb Hsde Hnoise Hrun. apply run_actions in Hrun.
  destruct Hrun as (evs & Htr & Henv & _). rewrite (calls_of_app _ _ _ Htr).
  intros Hsel. rewrite Henv. unfold applied_actions. rewrite Hnoise.
  rewrite map_map. induction Hsel as [|a sel Ha _ IH]; [constructor|].
  cbn [map]. constructor; [|exact IH].
  unfold clipped_action_of. rewrite Hsde.
  apply over_bounds_roundtrip; assumption.
Qed.

(** ** Termination under a step budget *)

Section FuelFree.

Context {A B : Type}.

Lemma ff_ret (a : A) : fuel_free (ret a).
Proof. intros s. discriminate. Qed.

Lemma ff_bind (m : M A) (k : A -> M B) :
  fuel_free m -> (forall a, fuel_free (k a)) -> fuel_free (bind m k).
Proof.
  intros Hm Hk s. unfold bind. specialize (Hm s).
  destruct (m s) as [[a|r|e|] s1]; cbn in *; try discriminate;
    [apply Hk | congruence].
Qed.

Lemma ff_return_ (r : RolloutReturn) : fuel_free (@return_ A r).
Proof. intros s. discriminate. Qed.

Lemma ff_raise (e : Exn) : fuel_free (@raise A e).
Proof. intros s. discriminate. Qed.

Lemma ff_ask (answer : Trace -> A) (ev : A -> Event) : fuel_free (ask answer ev).
Proof. intros s. discriminate. Qed.

Lemma ff_read_local (v : option A) : fuel_free (read_local v).
Proof. intros s. destruct v; discriminate. Qed.

Lemma ends_intro (m : M A) (Q : A -> State -> Prop)
    (R : RolloutReturn -> State -> Prop) (s : State) :
  wp m Q R s -> fuel_free m -> ends m Q s.
Proof.
  unfold wp, ends. intros Hwp Hff. specialize (Hff s).
  destruct (m s) as [[a|r|e|] s1]; cbn in *; auto.
Qed.

Lemma ends_bind (m : M A) (k : A -> M B) (Q : B -> State -> Prop) (s : State) :
  ends m (fun a s1 => ends (k a) Q s1) s -> ends (bind m k) Q s.
Proof.
  unfold ends, bind. destruct (m s) as [[a|r|e|] s1]; auto.
Qed.

Lemma ends_mono (m : M A) (Q Q' : A -> State -> Prop) (s : State) :
  ends m Q s -> (forall a s1, Q a s1 -> Q' a s1) -> ends m Q' s.
Proof.
  unfold ends. destruct (m s) as [[a|r|e|] s1]; auto.
Qed.

End FuelFree.

Lemma ff_tell (ev : Event) : fuel_free (tell ev).
Proof. intros s. discriminate. Qed.

Lemma ff_get_self : fuel_free get_self.
Proof. intros s. discriminate. Qed.

Lemma ff_modify_self (f : Self -> Self) : fuel_free (modify_self f).
Proof. intros s. discriminate. Qed.

Lemma ff_when (b : bool) (m : M unit) : fuel_free m -> fuel_free (when b m).
Proof. intros H. destruct b; [exact H | apply ff_ret]. Qed.

Lemma ff_assert_ (b : bool) : fuel_free (assert_ b).
Proof. destruct b; intros s; discriminate. Qed.

Ltac ff_step :=
  lazymatch goal with
  | |- fuel_free (bind _ _) => apply ff_bind; [|intros]
  | |- fuel_free (ret _) => apply ff_ret
  | |- fuel_free (tell _) => apply ff_tell
  | |- fuel_free (ask _ _) => apply ff_ask
  | |- fuel_free get_self => apply ff_get_self
  | |- fuel_free (modify_self _) => apply ff_modify_self
  | |- fuel_free (return_ _) => apply ff_return_
  | |- fuel_free (raise _) => apply ff_raise
  | |- fuel_free (read_local _) => apply ff_read_local
  | |- fuel_free (when _ _) => apply ff_when
  | |- fuel_free (assert_ _) => apply ff_assert_
  | |- fuel_free (if ?b then _ else _) => destruct b
  | |- fuel_free (match ?x with _ => _ end) => destruct x
  | |- fuel_free _ => progress cbv beta iota zeta
  end.

Lemma ff_rollout_step co hp args l : fuel_free (rollout_step co hp args l).
Proof.
  unfold rollout_step, select_action, store_transition, append_rollout_data.
  repeat ff_step.
Qed.

Lemma ff_episode_end hp args l : fuel_free (episode_end hp args l).
Proof.
  unfold episode_end, display_training_infos. repeat ff_step.
Qed.

Lemma ff_rollout_start co hp args : fuel_free (rollout_start co hp args).
Proof. unfold rollout_start. repeat ff_step. Qed.

Lemma ff_post_processing co hp l : fuel_free (post_processing co hp l).
Proof.
  intros s. pose proof (post_processing_run co hp l s) as H.
  destruct (rollout_data (self s)).
  - destruct H as (rets & s' & -> & _). discriminate.
  - rewrite H. discriminate.
Qed.

Lemma ff_rollout_end co hp l : fuel_free (rollout_end co hp l).
Proof.
  unfold rollout_end. cbv zeta. apply ff_bind; [apply ff_post_processing|].
  intros _. repeat ff_step.
Qed.

Section StepBudget.

Variables (co : Collaborators) (hp : Hyper) (args : Args).
Hypothesis Hsteps : 0 < n_steps args.
Hypothesis Hepisodes : n_episodes args <= 0.

Lemma inner_loop_ends (fuel : nat) :
  forall l s,
    (done l = false -> total_steps l < n_steps args) ->
    total_steps l <= n_steps args ->
    (Z.to_nat (n_steps args - total_steps l) < fuel)%nat ->
    ends (inner_loop co hp args fuel l)
         (fun l' _ => total_steps l <= total_steps l' <= n_steps args
                      /\ (done l = false -> total_steps l < total_steps l')
                      /\ total_episodes l' = total_episodes l) s.
Proof.
  induction fuel as [|fuel IH]; intros l s Hd Hle Hfuel; [lia|].
  cbn [inner_loop]. destruct (done l) eqn:Hdone; cbn [negb].
  - unfold ends, ret. repeat apply conj; first [lia | intros; congruence].
  - specialize (Hd eq_refl). apply ends_bind.
    eapply ends_mono.
    + eapply ends_intro; [apply wp_rollout_step | apply ff_rollout_step].
    + intros l1 s1 (new & res & a & Hst). decompose [and] Hst. clear Hst.
      cbv beta.
      destruct ((0 <? n_steps args) && (n_steps args <=? total_steps l1)) eqn:Hb.
      * unfold ends, ret. repeat apply conj; intros; lia.
      * eapply ends_mono; [apply IH; lia|].
        cbv beta. intros l2 s2 (I1 & I2 & I3). repeat apply conj; intros; lia.
Qed.

Lemma outer_loop_ends (fuel : nat) :
  forall l s,
    0 <= total_episodes l ->
    total_steps l <= n_steps args ->
    (Z.to_nat (n_steps args - total_steps l) < fuel)%nat ->
    ends (outer_loop co hp args fuel l) (fun _ _ => True) s.
Proof.
  induction fuel as [|fuel IH]; intros l s Hte Hle Hfuel; [lia|].
  cbn [outer_loop]. destruct (budget_unmet args l) eqn:Hb.
  - unfold budget_unmet in Hb.
    assert (Hlt : total_steps l < n_steps args) by lia.
    apply ends_bind. eapply ends_mono.
    + apply (inner_loop_ends (S fuel) (start_episode l) s); cbn; auto; lia.
    + cbv beta. intros l1 s1 (H1 & H2 & H3). cbn in H1, H2, H3.
      specialize (H2 eq_refl).
      apply ends_bind. eapply ends_mono.
      * eapply ends_intro;
          [apply (wp_episode_end_log hp args l1 (fun _ _ => True))
          | apply ff_episode_end].
      * cbv beta. intros l2 s2 He. apply episode_ended_locals in He. subst l2.
        apply IH; destruct (done l1); cbn; lia.
  - unfold ends, ret. exact I.
Qed.

(** X23. With a step budget only ([n_steps > 0], [n_episodes <= 0]) the
    two loops of [collect_rollouts] end after at most [n_steps] steps,
    whatever the environment answers: with fuel for more than [n_steps]
    passes the call returns or raises. *)
Theorem step_budget_terminates (fuel : nat) (s : State) :
  (Z.to_nat (n_steps args) < fuel)%nat ->
  fst (collect_rollouts co hp args fuel s) <> Unfinished.
Proof.
  intros Hfuel.
  assert (H : ends (collect_rollouts_body co hp args fuel) (fun _ _ => True) s).
  { unfold collect_rollouts_body. apply ends_bind. eapply ends_mono.
    - eapply ends_intro;
        [apply (wp_rollout_start co hp args (fun _ _ => True))
        | apply ff_rollout_start].
    - cbv beta. intros l0 s1 (new & _ & _ & _ & Hl & _).
      apply ends_bind. eapply ends_mono.
      + apply outer_loop_ends; rewrite Hl; cbn; lia.
      + cbv beta. intros l s2 _. eapply ends_mono.
        * eapply ends_intro;
            [apply (wp_rollout_end co hp l (fun _ _ => True))
            | apply ff_rollout_end].
        * auto. }
  unfold ends in H. unfold collect_rollouts.
  destruct (collect_rollouts_body co hp args fuel s) as [[r|r|e|] s1];
    cbn; (discriminate || contradiction).
Qed.

End StepBudget.

(** ** Instances *)

Lemma scale_action_range_witness :
  proper_bounds ex_box
  /\ within (low ex_box) (high ex_box) [1%Q; 5%Q]
  /\ normalized (scale_action ex_box [1%Q; 5%Q]).
Proof.
  assert (Hb : proper_bounds ex_box) by (repeat constructor).
  assert (Hw : within (low ex_box) (high ex_box) [1%Q; 5%Q])
    by (cbn; repeat split; discriminate).
  split; [exact Hb|]. split; [exact Hw|].
  exact (proj1 (scale_action_range ex_box [1%Q; 5%Q] Hb Hw)).
Defined.

Lemma unscale_action_bounds_witness :
  is_rounding ex_rnd
  /\ finite_bounds ex_rnd ex_box
  /\ normalized [(-1)%Q; (1 # 3)%Q]
  /\ Forall2 Qle (low ex_box)
             (unscale_action_rounded ex_rnd ex_box [(-1)%Q; (1 # 3)%Q])
  /\ Forall2 Qeq (unscale_action_rounded ex_rnd ex_box [(-1)%Q; (-1)%Q])
             (low ex_box).
Proof.
  assert (Hb : finite_bounds ex_rnd ex_box)
    by (repeat constructor; vm_compute; congruence).
  assert (Hn : normalized [(-1)%Q; (1 # 3)%Q])
    by (repeat constructor; discriminate).
  split; [exact ex_rnd_is_rounding|]. split; [exact Hb|]. split; [exact Hn|].
  destruct (unscale_action_bounds ex_rnd ex_box [(-1)%Q; (1 # 3)%Q]
              ex_rnd_is_rounding Hb Hn eq_refl) as (H1 & H2 & _).
  split; [exact H1 | exact H2].
Defined.

Lemma scale_unscale_action_witness :
  proper_bounds ex_box
  /\ Forall2 Qeq (scale_action ex_box (unscale_action ex_box [3%Q; (-7)%Q]))
             [3%Q; (-7)%Q].
Proof.
  assert (Hb : proper_bounds ex_box) by (repeat constructor).
  split; [exact Hb|].
  exact (scale_unscale_action ex_box [3%Q; (-7)%Q] Hb eq_refl).
Defined.

Lemma update_info_buffer_keeps_last_witness :
  (length (ep_info_buffer ex_full) <= 100)%nat
  /\ ep_info_buffer
       (update_info_buffer
          [({| info_episode := Some {| ep_r := 5; ep_l := 7 |};
               info_is_success := None |}, true)] ex_full)
     = repeat {| ep_r := 1; ep_l := 1 |} 99 ++ [{| ep_r := 5; ep_l := 7 |}].
Proof.
  assert (Hi : (length (ep_info_buffer ex_full) <= 100)%nat)
    by (vm_compute; repeat constructor).
  assert (Hs : (length (ep_success_buffer ex_full) <= 100)%nat)
    by (vm_compute; repeat constructor).
  split; [exact Hi|].
  refine (eq_trans
            (proj1 (update_info_buffer_keeps_last
                      [({| info_episode := Some {| ep_r := 5; ep_l := 7 |};
                           info_is_success := None |}, true)] ex_full Hi Hs)) _).
  vm_compute. reflexivity.
Defined.

Lemma episode_windows_witness :
  ex_run_monitor
  = (Returns ((8 # 4)%Q, 8, 4, Some [8%Q], true), snd ex_run_monitor)
  /\ ep_info_buffer (self (snd ex_run_monitor))
     = repeat {| ep_r := 2; ep_l := 2 |} 4
  /\ ep_success_buffer (self (snd ex_run_monitor)) = [true; true; true; true].
Proof.
  split; [vm_compute; reflexivity|].
  assert (Hi : (length (ep_info_buffer (self ex_state)) <= 100)%nat)
    by (vm_compute; repeat constructor).
  assert (Hs : (length (ep_success_buffer (self ex_state)) <= 100)%nat)
    by (vm_compute; repeat constructor).
  assert (Hrun : collect_rollouts ex_co_monitor ex_hp_verbose
                   (ex_args_logged 4 (-1) (Some 2)) 10 ex_state
                 = (Returns ((8 # 4)%Q, 8, 4, Some [8%Q], true),
                    snd ex_run_monitor))
    by (vm_compute; reflexivity).
  pose proof (episode_windows _ _ _ _ _ _ _ Hi Hs Hrun) as [H1 H2].
  split; [rewrite H1 | rewrite H2]; vm_compute; reflexivity.
Defined.

Lemma step_budget_exact_witness :
  0 < n_steps (ex_args (-1) 4 0 false false)
  /\ n_episodes (ex_args (-1) 4 0 false false) <= 0
  /\ ex_run_resample4
     = (Returns (3%Q, 4, 1, Some [4%Q], true), snd ex_run_resample4)
  /\ 4 = n_steps (ex_args (-1) 4 0 false false).
Proof.
  split; [reflexivity|]. split; [discriminate|].
  split; [vm_compute; reflexivity|].
  refine (step_budget_exact (ex_co None) (ex_hp true false false 2)
            (ex_args (-1) 4 0 false false) 6 ex_state 3%Q 4 1 (Some [4%Q]) true
            (snd ex_run_resample4) eq_refl _ _).
  - discriminate.
  - vm_compute. reflexivity.
Defined.

Lemma episode_budget_exact_witness :
  0 < n_episodes (ex_args 1 (-1) 0 false false)
  /\ n_steps (ex_args 1 (-1) 0 false false) <= 0
  /\ ex_run_episode
     = (Returns (3%Q, 3, 1, Some [3%Q], true), snd ex_run_episode)
  /\ 1 = n_episodes (ex_args 1 (-1) 0 false false).
Proof.
  split; [reflexivity|]. split; [discriminate|].
  split; [vm_compute; reflexivity|].
  refine (episode_budget_exact (ex_co None) (ex_hp false false false (-1))
            (ex_args 1 (-1) 0 false false) 5 ex_state 3%Q 3 1 (Some [3%Q]) true
            (snd ex_run_episode) eq_refl _ _).
  - discriminate.
  - vm_compute. reflexivity.
Defined.

Lemma mean_reward_recorded_witness :
  ex_run_budgets = (Returns (1%Q, 3, 1, Some [3%Q], true), snd ex_run_budgets)
  /\ recorded_rewards (ex_args 1 1 0 false false)
       (env_results (calls_of ex_state (snd ex_run_budgets))) = [1%Q]
  /\ 1%Q = np_mean (recorded_rewards (ex_args 1 1 0 false false)
                      (env_results (calls_of ex_state (snd ex_run_budgets)))).
Proof.
  split; [vm_compute; reflexivity|]. split; [vm_compute; reflexivity|].
  refine (mean_reward_recorded (ex_co None) (ex_hp false false false (-1))
            (ex_args 1 1 0 false false) 5 ex_state 1%Q 3 1 (Some [3%Q])
            (snd ex_run_budgets) _).
  vm_compute. reflexivity.
Defined.

Lemma snapshot_trajectory_witness :
  ex_run_snapshot
  = (Returns (0%Q, 1, 0, Some [1%Q], true), snd ex_run_snapshot)
  /\ exists rd, rollout_data (self (snd ex_run_snapshot)) = Some rd
                /\ observations rd = [[0%Q]] /\ rewards rd = [1%Q]
                /\ dones rd = [false].
Proof.
  split; [vm_compute; reflexivity|].
  assert (Hrun : collect_rollouts (ex_co None) (ex_hp true true false 2)
                   (ex_args (-1) 1 0 false true) 5 ex_state
                 = (Returns (0%Q, 1, 0, Some [1%Q], true), snd ex_run_snapshot))
    by (vm_compute; reflexivity).
  pose proof (snapshot_trajectory _ _ _ _ _ _ _ Hrun) as H. cbv zeta in H.
  destruct (rollout_data (self (snd ex_run_snapshot))) as [rd|];
    [|discriminate].
  destruct H as (_ & H1 & H2 & H3 & _ & _). exists rd.
  split; [reflexivity|]. rewrite H1, H2, H3. vm_compute. auto.
Defined.

Lemma logging_cadence_witness :
  ex_run_monitor
  = (Returns ((8 # 4)%Q, 8, 4, Some [8%Q], true), snd ex_run_monitor)
  /\ count is_dump_kvs (calls_of ex_state (snd ex_run_monitor)) = 2%nat.
Proof.
  split; [vm_compute; reflexivity|].
  refine (eq_trans
            (proj1 (logging_cadence ex_co_monitor ex_hp_verbose
                      (ex_args_logged 4 (-1) (Some 2)) 10 ex_state
                      (8 # 4)%Q 8 4 (Some [8%Q]) true (snd ex_run_monitor) _)) _).
  - vm_compute. reflexivity.
  - vm_compute. reflexivity.
Defined.

Lemma log_interval_zero_witness :
  1 <= verbose ex_hp_verbose
  /\ log_interval (ex_args_logged (-1) 1 (Some 0)) = Some 0
  /\ ex_run_interval0
     = (Returns (0%Q, 1, 0, Some [1%Q], true), snd ex_run_interval0)
  /\ Forall (fun res => step_done res = false)
            (env_results (calls_of ex_state (snd ex_run_interval0))).
Proof.
  split; [discriminate|]. split; [reflexivity|].
  split; [vm_compute; reflexivity|].
  refine (proj2 (log_interval_zero ex_co_monitor ex_hp_verbose
                   (ex_args_logged (-1) 1 (Some 0)) 5 ex_state
                   0%Q 1 0 (Some [1%Q]) true (snd ex_run_interval0) _ eq_refl _)).
  - discriminate.
  - vm_compute. reflexivity.
Defined.

Lemma rejects_other_envs_witness :
  env_num_envs ex_args_multi <> 1
  /\ collect_rollouts ex_co_monitor ex_hp_verbose ex_args_multi 5 ex_state
     = (Raises AssertionError, ex_state).
Proof.
  assert (H : env_num_envs ex_args_multi <> 1) by discriminate.
  split; [exact H|].
  exact (rejects_other_envs ex_co_monitor ex_hp_verbose ex_args_multi 5
           ex_state (or_intror H)).
Defined.

Lemma wrapper_needs_buffer_witness :
  has_vec_normalize_env (ex_hp false false true (-1)) = true
  /\ has_replay_buffer (ex_args (-1) 1 0 false false) = false
  /\ ex_run_idle = (Returns (0%Q, 0, 0, None, false), snd ex_run_idle)
  /\ env_results (calls_of ex_state (snd ex_run_idle)) = [].
Proof.
  split; [reflexivity|]. split; [reflexivity|].
  split; [vm_compute; reflexivity|].
  refine (proj2 (wrapper_needs_buffer (ex_co (Some 0%nat))
                   (ex_hp false false true (-1)) (ex_args (-1) 1 0 false false)
                   5 ex_state 0%Q 0 0 None false (snd ex_run_idle)
                   eq_refl eq_refl _)).
  vm_compute. reflexivity.
Defined.


Lemma env_actions_unclipped_witness :
  proper_bounds (action_space (ex_hp false false false (-1)))
  /\ ex_run_budgets = (Returns (1%Q, 3, 1, Some [3%Q], true), snd ex_run_budgets)
  /\ selected_actions (calls_of ex_state (snd ex_run_budgets))
     = [[3%Q]; [3%Q]; [3%Q]]
  /\ Forall2 (Forall2 Qeq)
             (env_actions (calls_of ex_state (snd ex_run_budgets)))
             [[3%Q]; [3%Q]; [3%Q]].
Proof.
  assert (Hb : proper_bounds (action_space (ex_hp false false false (-1))))
    by (repeat constructor).
  split; [exact Hb|]. split; [vm_compute; reflexivity|].
  split; [vm_compute; reflexivity|].
  refine (env_actions_unclipped (ex_co None) (ex_hp false false false (-1))
            (ex_args 1 1 0 false false) 5 ex_state
            (1%Q, 3, 1, Some [3%Q], true) (snd ex_run_budgets)
            Hb eq_refl eq_refl _ _).
  - vm_compute. reflexivity.
  - vm_compute. repeat constructor.
Defined.

Lemma step_budget_terminates_witness :
  0 < n_steps (ex_args (-1) 4 0 false false)
  /\ n_episodes (ex_args (-1) 4 0 false false) <= 0
  /\ (Z.to_nat (n_steps (ex_args (-1) 4 0 false false)) < 6)%nat
  /\ fst ex_run_resample4 <> Unfinished.
Proof.
  assert (H1 : 0 < n_steps (ex_args (-1) 4 0 false false)) by reflexivity.
  assert (H2 : n_episodes (ex_args (-1) 4 0 false false) <= 0) by discriminate.
  assert (H3 : (Z.to_nat (n_steps (ex_args (-1) 4 0 false false)) < 6)%nat)
    by (vm_compute; repeat constructor).
  split; [exact H1|]. split; [exact H2|]. split; [exact H3|].
  exact (step_budget_terminates (ex_co None) (ex_hp true false false 2)
           (ex_args (-1) 4 0 false false) H1 H2 6 ex_state H3).
Defined.

Lemma load_attribute_priority_witness :
  ex_load = inr ex_loaded
  /\ ex_loaded !! "env"%string = Some 7
  /\ ex_loaded !! "n_envs"%string = Some 1.
Proof.
  assert (Hload : ex_load = inr ex_loaded) by (vm_compute; reflexivity).
  split; [exact Hload|].
  destruct (load_attribute_priority (fun _ => 3) (fun _ => 4) ex_construct
              ex_saved ∅ (Some 9) ex_loaded Hload)
    as (pc & env' & Hpc & Henv & Hkeys & Hsaved).
  split.
  - apply Hsaved; reflexivity.
  - rewrite Hkeys. vm_compute in Hpc. injection Hpc as <-.
    vm_compute in Henv. injection Henv as <-. reflexivity.
Defined.
